(** * qa-bot: log-to-report synthesis, embedded from the JavaScript sources

    The development follows the two report modules of the repository:

    - [Generator]   : the test report generator, lines 299 to 1196 of
                      src/scenarios/shiny-scenarios.js (class
                      TestReportGenerator and the line-by-line
                      [prepareScenarioResults] state machine), with
                      [createDefaultScenarios] of src/utils/helpers.js;
    - [Integration] : report-integration.js, unnamed/part_001
                      ([processTestLog], [prepareScenarioResults] with its
                      reconciliation against the declared total,
                      [createDefaultScenarios]).

    JavaScript strings are sequences of UTF-16 code units.  They are embedded
    as [string]; one [ascii] stands for one code unit in the range 0..255, so
    [String.length] is the JavaScript [length].  Numbers that the program
    handles are non-negative integers, exact as doubles are below 2^53: ids
    and counts are embedded as [nat], parsed decimals and durations as [N].
    The two quotients the generator computes are kept as exact rationals.

    Two parts of the language are parameters of report-integration.js and
    not embedded: what the RegExp constructor and the matcher do with a
    pattern text outside the grammar of the embedded parser
    ([RegExp.engine]), and how the Date constructor reads a text
    ([Integration.dateReader]).  The properties of the functions that take
    them are proved for every engine and every reading. *)

From Stdlib Require Import String Ascii List Bool Arith ZArith Lia.
From Stdlib Require Import Decimal DecimalNat DecimalString QArith.
Import ListNotations.
Open Scope string_scope.
Open Scope nat_scope.

(* ===================================================================== *)
(** ** JavaScript strings                                                  *)
(* ===================================================================== *)

Module JS.

(** Code units 9..13, 32 and 160: WhiteSpace and LineTerminator of the
    language, as far as they fit in one byte.  [trim] and [\s] use them. *)
Definition isWhiteSpace (a : ascii) : bool :=
  let n := nat_of_ascii a in
  ((9 <=? n) && (n <=? 13)) || (n =? 32) || (n =? 160).

(** LF and CR: the characters that [.] refuses. *)
Definition isLineTerminator (a : ascii) : bool :=
  let n := nat_of_ascii a in (n =? 10) || (n =? 13).

Definition isDigit (a : ascii) : bool :=
  let n := nat_of_ascii a in (48 <=? n) && (n <=? 57).

Definition LF : ascii := ascii_of_nat 10.

(** The double quote, and a text between double quotes. *)
Definition dquote : ascii := ascii_of_nat 34.

Definition quoted (s : string) : string :=
  String dquote (s ++ String dquote EmptyString).

Fixpoint trimStart (s : string) : string :=
  match s with
  | String a s' => if isWhiteSpace a then trimStart s' else s
  | EmptyString => EmptyString
  end.

(** [trimEnd] keeps a character when it is not white space or when something
    is left after it. *)
Fixpoint trimEnd (s : string) : string :=
  match s with
  | String a s' =>
      match trimEnd s' with
      | EmptyString => if isWhiteSpace a then EmptyString else String a EmptyString
      | t => String a t
      end
  | EmptyString => EmptyString
  end.

(** String.prototype.trim *)
Definition trim (s : string) : string := trimEnd (trimStart s).

Fixpoint drop (n : nat) (s : string) : string :=
  match n, s with
  | S n', String _ s' => drop n' s'
  | _, _ => s
  end.

Fixpoint take (n : nat) (s : string) : string :=
  match n, s with
  | S n', String a s' => String a (take n' s')
  | _, _ => EmptyString
  end.

(** [indexOfFrom sub s i]: first position of [sub] in [s], [s] being the part
    of the subject that starts at position [i]. *)
Fixpoint indexOfFrom (sub s : string) (i : nat) : option nat :=
  if prefix sub s then Some i
  else match s with
       | String _ s' => indexOfFrom sub s' (S i)
       | EmptyString => None
       end.

(** String.prototype.indexOf(sub, from), with -1 for "not found".  [from] is
    a position of the subject (never negative in the program). *)
Definition indexOf (s sub : string) (from : nat) : Z :=
  match indexOfFrom sub (drop from s) (Nat.min from (String.length s)) with
  | Some i => Z.of_nat i
  | None => (-1)%Z
  end.

(** String.prototype.includes *)
Definition includes (s sub : string) : bool :=
  match indexOfFrom sub s 0 with Some _ => true | None => false end.

(** String.prototype.substring(start, end): both arguments are clamped to
    0..length and swapped when start is the larger one. *)
Definition substring (s : string) (start finish : Z) : string :=
  let clamp (z : Z) := Nat.min (Z.to_nat z) (String.length s) in
  let a := clamp start in
  let b := clamp finish in
  take (Nat.max a b - Nat.min a b) (drop (Nat.min a b) s).

(** [splitLF acc s]: String.prototype.split('\n'), [acc] being the part of
    the current line that was read already. *)
Fixpoint splitLF (acc : string) (s : string) : list string :=
  match s with
  | EmptyString => [acc]
  | String a s' =>
      if Ascii.eqb a LF then acc :: splitLF EmptyString s'
      else splitLF (acc ++ String a EmptyString) s'
  end.

Definition split_newline (s : string) : list string := splitLF EmptyString s.

(** parseInt on a string of decimal digits (the program only applies it to
    what [(\d+)] captured): the integer that the digits denote.  That is
    the number which the language returns as long as it is at most 2^53; a
    larger one is returned as a double near it.  The statements below that
    rest on the value of a number bound it. *)
Definition parseInt (s : string) : N :=
  fold_left (fun acc a => (10 * acc + (N_of_ascii a - 48))%N) (list_ascii_of_string s) 0%N.

(** Number-to-string conversion of a template literal, for a non-negative
    integer. *)
Definition toString (n : nat) : string := NilEmpty.string_of_uint (Nat.to_uint n).

End JS.

(* ===================================================================== *)
(** ** Regular expressions                                                 *)
(* ===================================================================== *)

(** The backtracking matcher of the language specification (22.2.2), for the
    operators that the program's patterns use.  A matcher takes the rest of
    the subject, the captures and a continuation; alternatives are tried in
    priority order and the first success is the result. *)

Module RegExp.

(** Character classes that occur in the program's patterns. *)
Inductive charset : Type :=
| AnyChar                      (* .      every character but a line terminator *)
| Digit                        (* \d *)
| Space                        (* \s *)
| NoneOf (cs : list ascii).    (* [^...] *)

Inductive regex : Type :=
| Eps
| Chr (c : ascii)
| Cls (cs : charset)
| Seq (r1 r2 : regex)
| Alt (r1 r2 : regex)
| Rep (min : nat) (max : option nat) (greedy : bool) (r : regex)
| Grp (i : nat) (r : regex).   (* i-th capturing group, counted from 1 *)

(** The literal characters of a pattern, in sequence. *)
Fixpoint lit (s : string) : regex :=
  match s with
  | EmptyString => Eps
  | String a EmptyString => Chr a
  | String a s' => Seq (Chr a) (lit s')
  end.

Definition star (r : regex) : regex := Rep 0 None true r.
Definition plus (r : regex) : regex := Rep 1 None true r.
Definition opt (r : regex) : regex := Rep 0 (Some 1) true r.

(** Canonicalize of the [i] flag (without [u]): the upper-case code unit.  In
    0..255 that is a-z and the accented lower-case letters 224..254 other
    than the division sign; the upper case of 181 and 255 lies outside the
    range and equals that of no other character here, and 223 has none. *)
Definition canonicalize (a : ascii) : ascii :=
  let n := nat_of_ascii a in
  if ((97 <=? n) && (n <=? 122)) || ((224 <=? n) && (n <=? 254) && negb (n =? 247))
  then ascii_of_nat (n - 32) else a.

Definition char_eq (ignoreCase : bool) (c a : ascii) : bool :=
  if ignoreCase then Ascii.eqb (canonicalize c) (canonicalize a) else Ascii.eqb c a.

(** None of the classes of the program contains a cased letter, so the [i]
    flag changes nothing for them. *)
Definition in_charset (cs : charset) (a : ascii) : bool :=
  match cs with
  | AnyChar => negb (JS.isLineTerminator a)
  | Digit => JS.isDigit a
  | Space => JS.isWhiteSpace a
  | NoneOf l => negb (existsb (Ascii.eqb a) l)
  end.

(** captures[i-1] is the text of group i, [None] for undefined. *)
Definition captures := list (option string).

Fixpoint set_capture (i : nat) (v : option string) (cap : captures) : captures :=
  match i, cap with
  | _, [] => []
  | 0, c :: cap' => c :: cap'
  | 1, _ :: cap' => v :: cap'
  | S i', c :: cap' => c :: set_capture i' v cap'
  end.

(** The groups inside a term: a quantifier resets them at each iteration. *)
Fixpoint groups_of (r : regex) : list nat :=
  match r with
  | Eps | Chr _ | Cls _ => []
  | Seq r1 r2 | Alt r1 r2 => groups_of r1 ++ groups_of r2
  | Rep _ _ _ r1 => groups_of r1
  | Grp i r1 => i :: groups_of r1
  end.

Definition clear_captures (gs : list nat) (cap : captures) : captures :=
  fold_left (fun c i => set_capture i None c) gs cap.

(** A match state is the rest of the subject with the captures; the end
    index is the length of the subject minus that of the rest. *)
Definition state : Type := string * captures.
Definition continuation : Type := string -> captures -> option state.
Definition matcher : Type := string -> captures -> continuation -> option state.

(** What was consumed between the rest [x] and the later rest [y]. *)
Definition consumed (x y : string) : string :=
  JS.take (String.length x - String.length y) x.

(** A matcher is local when it calls its continuation on a rest of its own
    subject only. *)
Definition local (m : matcher) : Prop :=
  forall (x : string) (cap : captures) (k k' : continuation),
    (forall y c, String.length y <= String.length x -> k y c = k' y c) ->
    m x cap k = m x cap k'.

(** RepeatMatcher (22.2.2.3.1).  [fuel] bounds the iterations: each one
    lowers [min] or, at [min = 0], has to consume a character. *)
Fixpoint RepeatMatcher (m : matcher) (gs : list nat) (fuel : nat)
    (min : nat) (max : option nat) (greedy : bool)
    (x : string) (cap : captures) (c : continuation) : option state :=
  match fuel with
  | 0 => None
  | S fuel' =>
      match max with
      | Some 0 => c x cap
      | _ =>
          let d : continuation := fun y capy =>
            if (min =? 0) && (String.length y =? String.length x) then None
            else RepeatMatcher m gs fuel' (pred min) (option_map pred max) greedy y capy c in
          let capr := clear_captures gs cap in
          if negb (min =? 0) then m x capr d
          else if negb greedy then
            match c x cap with
            | Some z => Some z
            | None => m x capr d
            end
          else
            match m x capr d with
            | Some z => Some z
            | None => c x cap
            end
      end
  end.

Fixpoint compile (ignoreCase : bool) (r : regex) : matcher :=
  fun x cap c =>
  match r with
  | Eps => c x cap
  | Chr ch =>
      match x with
      | String a x' => if char_eq ignoreCase ch a then c x' cap else None
      | EmptyString => None
      end
  | Cls cs =>
      match x with
      | String a x' => if in_charset cs a then c x' cap else None
      | EmptyString => None
      end
  | Seq r1 r2 => compile ignoreCase r1 x cap (fun y capy => compile ignoreCase r2 y capy c)
  | Alt r1 r2 =>
      match compile ignoreCase r1 x cap c with
      | Some z => Some z
      | None => compile ignoreCase r2 x cap c
      end
  | Rep min max greedy r1 =>
      RepeatMatcher (compile ignoreCase r1) (groups_of r1)
        (S (min + String.length x)) min max greedy x cap c
  | Grp i r1 =>
      compile ignoreCase r1 x cap (fun y capy => c y (set_capture i (Some (consumed x y)) capy))
  end.

(** A RegExp object: pattern, number of capturing groups, [i] flag.  The [g]
    flag only decides which operation the program applies. *)
Record regexp : Type := mkRegExp {
  pattern : regex;
  nCaptures : nat;
  ignoreCase : bool
}.

(** A match: [index], the matched text (element 0 of the array) and the
    captures (elements 1..); [lastIndex] is where the match ends. *)
Record match_result : Type := mkMatch {
  index : nat;
  matched : string;
  groups : captures;
  lastIndex : nat
}.

(** Element [i >= 1] of the match array. *)
Definition group (m : match_result) (i : nat) : option string :=
  nth (i - 1) (groups m) None.

(** Truthiness of [m[i]]: undefined and the empty string are falsy. *)
Definition group_or (m : match_result) (i : nat) (default : string) : string :=
  match group m i with
  | Some EmptyString | None => default
  | Some s => s
  end.

(** RegExpBuiltinExec: try position [i], where the rest is [x], then the
    following ones. *)
Fixpoint search (re : regexp) (x : string) (i : nat) : option match_result :=
  match compile (ignoreCase re) (pattern re) x (repeat None (nCaptures re))
          (fun y cap => Some (y, cap)) with
  | Some (y, cap) =>
      Some (mkMatch i (consumed x y) cap (i + String.length (consumed x y)))
  | None =>
      match x with
      | String _ x' => search re x' (S i)
      | EmptyString => None
      end
  end.

(** RegExp.prototype.exec from a given [lastIndex]. *)
Definition exec (re : regexp) (s : string) (from : nat) : option match_result :=
  if String.length s <? from then None else search re (JS.drop from s) from.

(** String.prototype.match with a pattern that has no [g] flag. *)
Definition match_ (s : string) (re : regexp) : option match_result := exec re s 0.

(** String.prototype.matchAll: the matches from left to right, each search
    starting where the previous match ended (one further after an empty
    match). *)
Fixpoint matchAllFrom (re : regexp) (s : string) (fuel from : nat) : list match_result :=
  match fuel with
  | 0 => []
  | S fuel' =>
      match exec re s from with
      | None => []
      | Some m =>
          m :: matchAllFrom re s fuel'
                 (match matched m with
                  | EmptyString => S (lastIndex m)
                  | _ => lastIndex m
                  end)
      end
  end.

Definition matchAll (s : string) (re : regexp) : list match_result :=
  matchAllFrom re s (S (S (String.length s))) 0.

(** *** The RegExp constructor

    [new RegExp(p)] parses the pattern text [p].  The parser below covers
    literal characters, [.], the quantifiers [* + ?] (and their lazy forms),
    [|] and capturing groups; it reads the text from left to right with a
    stack of the groups that are open.  A text that uses anything else of the
    pattern grammar (an escape, a class, a brace, an anchor, a group that
    starts with [(?]) is reported as [Unsupported] at the first such
    character; up to there the pattern is one of the covered ones, so a
    [SyntaxError] that is reported earlier is the constructor's. *)

Record frame : Type := mkFrame {
  f_group : nat;            (* number of the group, 0 for the whole pattern *)
  f_alts : list regex;      (* the alternatives that are complete, last first *)
  f_terms : list regex      (* the terms of the current alternative, last first *)
}.

(** Whether a quantifier may follow: after no term it is "Nothing to
    repeat"; after a quantified term only [?] may follow, once. *)
Inductive qstate : Type := NoTerm | Atom | Quantified.

Inductive parsed : Type :=
| Pattern (re : regexp)
| SyntaxError
| Unsupported.

Definition sequence (terms_rev : list regex) : regex :=
  fold_left (fun acc t => match acc with Eps => t | _ => Seq t acc end) terms_rev Eps.

Definition disjunction (f : frame) : regex :=
  fold_left (fun acc a => Alt a acc) (f_alts f) (sequence (f_terms f)).

Definition push_term (t : regex) (f : frame) : frame :=
  mkFrame (f_group f) (f_alts f) (t :: f_terms f).

Definition quantify (min : nat) (max : option nat) (f : frame) : frame :=
  match f_terms f with
  | t :: ts => mkFrame (f_group f) (f_alts f) (Rep min max true t :: ts)
  | [] => f
  end.

Definition make_lazy (f : frame) : frame :=
  match f_terms f with
  | Rep min max _ t :: ts => mkFrame (f_group f) (f_alts f) (Rep min max false t :: ts)
  | _ => f
  end.

Fixpoint parse (p : string) (cur : frame) (stack : list frame) (q : qstate) (n : nat)
  : parsed :=
  match p with
  | EmptyString =>
      match stack with
      | [] => Pattern (mkRegExp (disjunction cur) n false)
      | _ :: _ => SyntaxError                       (* Unterminated group *)
      end
  | String "(" (String "?" _) => Unsupported
  | String "(" p' => parse p' (mkFrame (S n) [] []) (cur :: stack) NoTerm (S n)
  | String ")" p' =>
      match stack with
      | [] => SyntaxError                           (* Unmatched ')' *)
      | parent :: stack' =>
          parse p' (push_term (Grp (f_group cur) (disjunction cur)) parent) stack' Atom n
      end
  | String "|" p' =>
      parse p' (mkFrame (f_group cur) (sequence (f_terms cur) :: f_alts cur) []) stack NoTerm n
  | String "*" p' =>
      match q with
      | Atom => parse p' (quantify 0 None cur) stack Quantified n
      | _ => SyntaxError                            (* Nothing to repeat *)
      end
  | String "+" p' =>
      match q with
      | Atom => parse p' (quantify 1 None cur) stack Quantified n
      | _ => SyntaxError
      end
  | String "?" p' =>
      match q with
      | Atom => parse p' (quantify 0 (Some 1) cur) stack Quantified n
      | Quantified => parse p' (make_lazy cur) stack NoTerm n
      | NoTerm => SyntaxError
      end
  | String "." p' => parse p' (push_term (Cls AnyChar) cur) stack Atom n
  | String "^" _ | String "$" _ | String "\" _
  | String "[" _ | String "]" _ | String "{" _ | String "}" _ => Unsupported
  | String a p' => parse p' (push_term (Chr a) cur) stack Atom n
  end.

(** new RegExp(p), without flags. *)
Definition RegExp_new (p : string) : parsed := parse p (mkFrame 0 [] []) [] NoTerm 0.

(** *** The rest of the pattern grammar

    For a pattern text that the parser reports as [Unsupported], the
    constructor and the matcher are those of the language and are not
    embedded.  What they do is a parameter of the functions that build
    patterns from the log: an [engine] tells, for each such text, whether
    the constructor throws its SyntaxError or, when it accepts the text,
    the result of String.prototype.match for every subject.  The patterns
    that the program builds have no flag, so that each call searches from
    position 0 and nothing is kept between two calls: the result is a
    function of the pattern text and the subject.  What is proved below
    about these functions is proved for every engine. *)
Inductive built : Type :=
| Rejected
| Accepted (match_with : string -> option match_result).

Definition engine : Type := string -> built.

End RegExp.

(* ===================================================================== *)
(** ** The clock, and the two effects of the program                       *)
(* ===================================================================== *)

(** [new Date()] reads the wall clock.  The world is the stream of the
    readings that are still to come; nothing else of the environment reaches
    the functions modelled here. *)
Definition world : Type := nat -> Z.

(** Code that reads the clock and cannot throw. *)
Definition St (A : Type) : Type := world -> A * world.

Definition newDate : St Z := fun w => (w 0, fun n => w (S n)).

Definition ret {A : Type} (a : A) : St A := fun w => (a, w).

Definition bind {A B : Type} (c : St A) (k : A -> St B) : St B :=
  fun w => let (a, w') := c w in k a w'.

(** What a [throw] carries: the SyntaxError of the RegExp constructor, with
    the pattern text that it rejects. *)
Inductive exception : Type :=
| SyntaxError (pattern : string).

Inductive completion (A : Type) : Type :=
| Normal (a : A)
| Throw (e : exception).

Arguments Normal {A} a.
Arguments Throw {A} e.

(** Code that reads the clock and may throw. *)
Definition Ex (A : Type) : Type := world -> completion (A * world).

Definition retE {A : Type} (a : A) : Ex A := fun w => Normal (a, w).

Definition throw {A : Type} (e : exception) : Ex A := fun _ => Throw e.

Definition bindE {A B : Type} (c : Ex A) (k : A -> Ex B) : Ex B :=
  fun w => match c w with
           | Normal (a, w') => k a w'
           | Throw e => Throw e
           end.

Definition lift {A : Type} (c : St A) : Ex A := fun w => Normal (c w).

Declare Scope st_scope.
Declare Scope ex_scope.
Delimit Scope st_scope with st.
Delimit Scope ex_scope with ex.
Notation "x <- c ;; k" := (bind c (fun x => k))
  (at level 61, c at next level, right associativity) : st_scope.
Notation "x <- c ;; k" := (bindE c (fun x => k))
  (at level 61, c at next level, right associativity) : ex_scope.

(** The value of a completed run, the world left aside. *)
Definition value {A : Type} (r : completion (A * world)) : completion A :=
  match r with
  | Normal (a, _) => Normal a
  | Throw e => Throw e
  end.

(* ===================================================================== *)
(** ** Scenario results                                                    *)
(* ===================================================================== *)

(** The scenario objects that both modules build.  [endTime], [duration] and
    [error] are absent from an object until they are assigned. *)
Record scenario : Type := mkScenario {
  id : nat;
  name : string;
  status : string;
  startTime : Z;
  endTime : option Z;
  duration : option N;
  steps : list string;
  warnings : list string;
  error : option string
}.

(** What two runs over one log are compared on: the timestamps left out. *)
Definition outline (s : scenario) : nat * string * string := (id s, name s, status s).

(** Array.prototype.push *)
Definition push {A : Type} (l : list A) (x : A) : list A := (l ++ [x])%list.

(** [new Set()] with [add], in insertion order. *)
Definition set_add (x : string) (s : list string) : list string :=
  if existsb (String.eqb x) s then s else push s x.

(** Element 1 of a match array whose pattern always fills group 1. *)
Definition capture1 (m : RegExp.match_result) : string :=
  match RegExp.group m 1 with Some s => s | None => EmptyString end.

(** A match result as a condition: null is falsy. *)
Definition found {A : Type} (m : option A) : bool :=
  match m with Some _ => true | None => false end.

(** [a || b] on two match results, [b] only evaluated when [a] is null. *)
Definition orElse {A : Type} (a : option A) (b : option A) : option A :=
  match a with Some _ => a | None => b end.

(** The patterns that both modules write as literals. *)
Module Patterns.
Import RegExp.

(** scenarioStartRegex, flag i (and g for matchAll): the text
    [Running scenario: ] and, as group 1, the rest of the line. *)
Definition scenarioStartRegex : regexp :=
  mkRegExp (Seq (lit "Running scenario: ") (Grp 1 (star (Cls AnyChar)))) 1 true.

(** scenarioCompleteRegex, flag i (and g for matchAll): [Scenario ], an
    optional double quote, group 1 = characters other than the double quote,
    an optional double quote, [ completed successfully]. *)
Definition scenarioCompleteRegex : regexp :=
  mkRegExp (Seq (lit "Scenario ")
           (Seq (opt (Chr JS.dquote))
           (Seq (Grp 1 (star (Cls (NoneOf [JS.dquote]))))
           (Seq (opt (Chr JS.dquote))
                (lit " completed successfully"))))) 1 true.

(** scenarioFailedRegex, flag i: as the previous one, ending in [ failed]. *)
Definition scenarioFailedRegex : regexp :=
  mkRegExp (Seq (lit "Scenario ")
           (Seq (opt (Chr JS.dquote))
           (Seq (Grp 1 (star (Cls (NoneOf [JS.dquote]))))
           (Seq (opt (Chr JS.dquote))
                (lit " failed"))))) 1 true.

(** simpleCompleteRegex, flag i: group 1 = any characters of the line, then
    [ completed successfully]. *)
Definition simpleCompleteRegex : regexp :=
  mkRegExp (Seq (Grp 1 (star (Cls AnyChar))) (lit " completed successfully")) 1 true.

(** warningRegex, flag i: [Warning: ] and the rest of the line as group 1. *)
Definition warningRegex : regexp :=
  mkRegExp (Seq (lit "Warning: ") (Grp 1 (star (Cls AnyChar)))) 1 true.

(** totalScenariosRegex, no flag: [Total scenarios: ] and one or more digits
    as group 1. *)
Definition totalScenariosRegex : regexp :=
  mkRegExp (Seq (lit "Total scenarios: ") (Grp 1 (plus (Cls Digit)))) 1 false.

(** The load-time marker, no flag: [Initial load time:], white space, one or
    more digits as group 1, [ms]. *)
Definition loadTimeRegex : regexp :=
  mkRegExp (Seq (lit "Initial load time:")
           (Seq (star (Cls Space))
           (Seq (Grp 1 (plus (Cls Digit))) (lit "ms")))) 1 false.

(** The response-time marker, no flag: [Average response time:], white
    space, one or more digits as group 1, [ms]. *)
Definition responseTimeRegex : regexp :=
  mkRegExp (Seq (lit "Average response time:")
           (Seq (star (Cls Space))
           (Seq (Grp 1 (plus (Cls Digit))) (lit "ms")))) 1 false.

(** The markers of the start and the end of the run (report-integration.js,
    lines 114 and 115), no flag: the words, white space, and the rest of the
    line, one character at least, as group 1. *)
Definition startTimeRegex : regexp :=
  mkRegExp (Seq (lit "Starting test at:")
           (Seq (star (Cls Space)) (Grp 1 (plus (Cls AnyChar))))) 1 false.

Definition endTimeRegex : regexp :=
  mkRegExp (Seq (lit "Test completed at:")
           (Seq (star (Cls Space)) (Grp 1 (plus (Cls AnyChar))))) 1 false.

(** errorRegex, flags g and i: [Error:] or [failed:]. *)
Definition errorRegex : regexp :=
  mkRegExp (Alt (lit "Error:") (lit "failed:")) 0 true.

End Patterns.

(* ===================================================================== *)
(** ** The test report generator (src/scenarios/shiny-scenarios.js)         *)
(* ===================================================================== *)

Module Generator.
Import Patterns.
Local Open Scope st_scope.

(** createDefaultScenarios of src/utils/helpers.js, lines 13 to 31 (the
    fallback of the generator, lines 311 to 329, is the same function): one
    passed scenario per name, ids from 1, two clock readings each. *)
Fixpoint defaultsFrom (names : list string) (i : nat) : St (list scenario) :=
  match names with
  | [] => ret []
  | n :: rest =>
      t1 <- newDate ;;
      t2 <- newDate ;;
      more <- defaultsFrom rest (S i) ;;
      ret (mkScenario i n "passed" t1 (Some t2) (Some 5000%N) [] [] None :: more)
  end.

Definition defaultNames : list string :=
  ["Tab Navigation"; "Dashboard Controls"; "Responsiveness Test"].

Definition createDefaultScenarios : St (list scenario) := defaultsFrom defaultNames 1.

(** *** class TestReportGenerator

    Of [testResults] the model keeps the scenarios, the summary and the
    metrics.  The environment and the screenshots are filled from the file
    system and the caller and take no part below; of the timing of the run
    only the exception of setTiming does. *)

Record summary : Type := mkSummary {
  total : nat;
  passed : nat;
  failed : nat;
  warning : nat;
  successRate : Q
}.

Record errorRecord : Type := mkError {
  message : string;
  timestamp : Z;
  scenario_ : string      (* the field is called scenario in the source *)
}.

Record metrics : Type := mkMetrics {
  loadTime : N;
  interactionTime : N;
  averageResponseTime : Q;
  errors : list errorRecord
}.

Record testResults : Type := mkResults {
  scenarios : list scenario;
  summary_ : summary;
  metrics_ : metrics
}.

(** The state that the constructor sets up (lines 352 to 378). *)
Definition new : testResults :=
  mkResults [] (mkSummary 0 0 0 0 0) (mkMetrics 0%N 0%N 0 []).

(** setTiming(startTime, endTime), lines 397 to 401.  A Date is given by its
    time value, [None] for an Invalid Date, on which toISOString throws a
    RangeError: the result is [None] then.  The three fields that the method
    sets are among those that the model leaves out. *)
Definition setTiming (startTime endTime : option Z) (r : testResults) : option testResults :=
  match startTime, endTime with
  | Some _, Some _ => Some r
  | _, _ => None
  end.

(** passed / total * 100, as an exact quotient ([total] is positive where
    the method computes it). *)
Definition rate (p t : nat) : Q := (Z.of_nat p # Pos.of_nat t) * 100.

(** addScenario(scenario), lines 407 to 421 *)
Definition addScenario (sc : scenario) (r : testResults) : testResults :=
  let s := summary_ r in
  let total' := S (total s) in
  let '(passed', failed', warning') :=
    if String.eqb (status sc) "passed" then (S (passed s), failed s, warning s)
    else if String.eqb (status sc) "failed" then (passed s, S (failed s), warning s)
    else if String.eqb (status sc) "warning" then (passed s, failed s, S (warning s))
    else (passed s, failed s, warning s) in
  mkResults (push (scenarios r) sc)
            (mkSummary total' passed' failed' warning' (rate passed' total'))
            (metrics_ r).

(** addMetrics(metrics), lines 427 to 432: the fields that the argument has
    replace those of the report. *)
Record metricsUpdate : Type := mkUpdate {
  u_loadTime : option N;
  u_averageResponseTime : option N
}.

Definition addMetrics (u : metricsUpdate) (r : testResults) : testResults :=
  let m := metrics_ r in
  mkResults (scenarios r) (summary_ r)
    (mkMetrics (match u_loadTime u with Some v => v | None => loadTime m end)
               (interactionTime m)
               (match u_averageResponseTime u with
                | Some v => inject_Z (Z.of_N v)
                | None => averageResponseTime m
                end)
               (errors m)).

(** addError(error), lines 438 to 440 *)
Definition addError (e : errorRecord) (r : testResults) : testResults :=
  let m := metrics_ r in
  mkResults (scenarios r) (summary_ r)
    (mkMetrics (loadTime m) (interactionTime m) (averageResponseTime m) (push (errors m) e)).

(** [s.duration] as a condition: defined and not zero. *)
Definition hasDuration (s : scenario) : bool :=
  match duration s with Some (Npos _) => true | _ => false end.

Definition durationOf (s : scenario) : N :=
  match duration s with Some d => d | None => 0%N end.

(** generateSummary(), lines 554 to 570: the average response time is
    computed from the scenarios when the metric is still falsy.  The quotient
    is exact here; the screenshots are left out. *)
Definition generateSummary (r : testResults) : testResults :=
  let m := metrics_ r in
  if Qeq_bool (averageResponseTime m) 0 && (0 <? length (scenarios r)) then
    let timed := filter hasDuration (scenarios r) in
    if 0 <? length timed then
      mkResults (scenarios r) (summary_ r)
        (mkMetrics (loadTime m) (interactionTime m)
           (Z.of_N (fold_left (fun sum s => (sum + durationOf s)%N) timed 0%N)
              # Pos.of_nat (length timed))
           (errors m))
    else r
  else r.

(** *** prepareScenarioResults(testLog, config) of the generator, lines 1066
    to 1196 *)

Record parserState : Type := mkState {
  collected : list scenario;            (* scenarios *)
  currentScenario : option scenario;
  scenarioIdCounter : nat
}.

(** The test that decides whether a completion or failure line belongs to
    the current scenario. *)
Definition belongsTo (scenarioName : string) (cur : scenario) (line : string) : bool :=
  JS.includes scenarioName (name cur)
  || JS.includes (name cur) scenarioName
  || JS.includes line (name cur).

Definition accepted (m : option RegExp.match_result) (cur : scenario) (line : string) : bool :=
  match m with
  | Some mt => belongsTo (JS.trim (capture1 mt)) cur line
  | None => false
  end.

(** The body of the loop over the lines (lines 1113 to 1175). *)
Definition processLine (line : string) (st : parserState) : St parserState :=
  match RegExp.match_ line scenarioStartRegex with
  | Some startMatch =>
      (* a scenario that is open is saved as it is *)
      let saved :=
        match currentScenario st with
        | Some cur => push (collected st) cur
        | None => collected st
        end in
      t <- newDate ;;
      ret (mkState saved
             (Some (mkScenario (scenarioIdCounter st) (JS.trim (capture1 startMatch))
                      "running" t None None [] [] None))
             (S (scenarioIdCounter st)))
  | None =>
      match currentScenario st with
      | None => ret st
      | Some cur =>
          let completeMatch :=
            orElse (RegExp.match_ line scenarioCompleteRegex)
                   (RegExp.match_ line simpleCompleteRegex) in
          if accepted completeMatch cur line then
            t <- newDate ;;
            ret (mkState (collected st)
                   (Some (mkScenario (id cur) (name cur) "passed" (startTime cur)
                            (Some t) (Some 5000%N) (steps cur) (warnings cur) (error cur)))
                   (scenarioIdCounter st))
          else
            let failedMatch := RegExp.match_ line scenarioFailedRegex in
            if accepted failedMatch cur line then
              t <- newDate ;;
              ret (mkState (collected st)
                     (Some (mkScenario (id cur) (name cur) "failed" (startTime cur)
                              (Some t) (Some 5000%N) (steps cur) (warnings cur)
                              (Some "Scenario failed")))
                     (scenarioIdCounter st))
            else
              match RegExp.match_ line warningRegex with
              | Some warningMatch =>
                  ret (mkState (collected st)
                         (Some (mkScenario (id cur) (name cur)
                                  (if String.eqb (status cur) "running" then "warning" else status cur)
                                  (startTime cur) (endTime cur) (duration cur) (steps cur)
                                  (push (warnings cur) (capture1 warningMatch)) (error cur)))
                         (scenarioIdCounter st))
              | None => ret st
              end
      end
  end.

Fixpoint processLines (lines : list string) (st : parserState) : St parserState :=
  match lines with
  | [] => ret st
  | line :: rest => st' <- processLine line st ;; processLines rest st'
  end.

(** After the loop (lines 1177 to 1186): the last scenario, passed when it
    is still running. *)
Definition finish (st : parserState) : St (list scenario) :=
  match currentScenario st with
  | Some cur =>
      if String.eqb (status cur) "running" then
        t <- newDate ;;
        ret (push (collected st)
               (mkScenario (id cur) (name cur) "passed" (startTime cur)
                  (Some t) (Some 5000%N) (steps cur) (warnings cur) (error cur)))
      else ret (push (collected st) cur)
  | None => ret (collected st)
  end.

Definition prepareScenarioResults (testLog : string) : St (list scenario) :=
  if String.eqb testLog EmptyString then createDefaultScenarios
  else if String.length testLog <? 300 then createDefaultScenarios
  else
    let scenarioNames :=
      fold_left (fun names m => set_add (JS.trim (capture1 m)) names)
                (RegExp.matchAll testLog scenarioStartRegex) [] in
    if length scenarioNames =? 0 then createDefaultScenarios
    else
      st <- processLines (JS.split_newline testLog) (mkState [] None 1) ;;
      result <- finish st ;;
      if length result =? 0 then createDefaultScenarios else ret result.

End Generator.

(* ===================================================================== *)
(** ** report-integration.js (unnamed/part_001)                            *)
(* ===================================================================== *)

Module Integration.
Import Patterns.

(** createDefaultScenarios() of this module, lines 293 to 312: four names. *)
Definition defaultNames : list string :=
  ["Navigate Dashboard Tabs"; "Test Dashboard Input Controls";
   "Test Dashboard Plot Interactions"; "Test Dashboard Responsiveness"].

Definition createDefaultScenarios : St (list scenario) :=
  Generator.defaultsFrom defaultNames 1.

(** [testLog.match(new RegExp(p))]: by the embedded parser and matcher
    where they cover the pattern text [p], by the engine [beyond] for the
    rest of the grammar. *)
Definition matchNew (beyond : RegExp.engine) (testLog p : string)
  : Ex (option RegExp.match_result) :=
  match RegExp.RegExp_new p with
  | RegExp.Pattern re => retE (RegExp.match_ testLog re)
  | RegExp.SyntaxError => throw (SyntaxError p)
  | RegExp.Unsupported =>
      match beyond p with
      | RegExp.Accepted match_with => retE (match_with testLog)
      | RegExp.Rejected => throw (SyntaxError p)
      end
  end.

(** [testLog.match(new RegExp(p1)) || testLog.match(new RegExp(p2))]: the
    second pattern is only built when the first one does not match. *)
Definition matchEither (beyond : RegExp.engine) (testLog p1 p2 : string)
  : Ex (option RegExp.match_result) :=
  (m1 <- matchNew beyond testLog p1 ;;
   match m1 with
   | Some _ => retE m1
   | None => matchNew beyond testLog p2
   end)%ex.

(** One iteration of the loop over [scenarioNames] (lines 201 to 227). *)
Definition namedScenario (beyond : RegExp.engine) (testLog nm : string)
    (scenarioIdCounter : nat) : Ex scenario :=
  (isCompleted <- matchEither beyond testLog
                    ("Scenario " ++ JS.quoted nm ++ " completed successfully")
                    (nm ++ " completed successfully") ;;
   failedMatch <- matchEither beyond testLog
                    ("Scenario " ++ JS.quoted nm ++ " failed: (.*)")
                    (nm ++ " failed: (.*)") ;;
   t1 <- lift newDate ;;
   t2 <- lift newDate ;;
   retE (mkScenario scenarioIdCounter nm
           (match failedMatch, isCompleted with
            | Some _, _ => "failed"
            | None, Some _ => "passed"
            | None, None => "warning"
            end)
           t1 (Some t2) (Some 5000%N) [] []
           (match failedMatch with
            | Some m => Some (RegExp.group_or m 1 "Scenario failed")
            | None => None
            end)))%ex.

Fixpoint namedScenarios (beyond : RegExp.engine) (testLog : string) (names : list string)
    (acc : list scenario) (scenarioIdCounter : nat) : Ex (list scenario * nat) :=
  match names with
  | [] => retE (acc, scenarioIdCounter)
  | nm :: rest =>
      (sc <- namedScenario beyond testLog nm scenarioIdCounter ;;
       namedScenarios beyond testLog rest (push acc sc) (S scenarioIdCounter))%ex
  end.

(** The names of the log (lines 188 to 198): those of the start lines, then
    those of the completion lines, each once. *)
Definition scenarioNames (testLog : string) : list string :=
  let add := fun names m => set_add (JS.trim (capture1 m)) names in
  fold_left add (RegExp.matchAll testLog scenarioCompleteRegex)
    (fold_left add (RegExp.matchAll testLog scenarioStartRegex) []).

(** The loop over the pool of default names (lines 245 to 261): a name that
    the log did not give is appended, until the declared total is reached. *)
Fixpoint addMissing (pool known : list string) (totalScenarios : nat)
    (acc : list scenario) (scenarioIdCounter : nat) : St (list scenario * nat) :=
  match pool with
  | [] => ret (acc, scenarioIdCounter)
  | nm :: rest =>
      if negb (existsb (String.eqb nm) known) then
        (t1 <- newDate ;;
         t2 <- newDate ;;
         let acc' := push acc (mkScenario scenarioIdCounter nm "passed" t1 (Some t2)
                                 (Some 5000%N) [] [] None) in
         if totalScenarios <=? length acc' then ret (acc', S scenarioIdCounter)
         else addMissing rest known totalScenarios acc' (S scenarioIdCounter))%st
      else addMissing rest known totalScenarios acc scenarioIdCounter
  end.

(** The while loop that adds generic scenarios (lines 264 to 275).  The
    counter is incremented when the id is taken, and the name is built
    afterwards.  [fuel] is the number of entries that are missing when the
    loop starts. *)
Fixpoint addGeneric (fuel totalScenarios : nat)
    (acc : list scenario) (scenarioIdCounter : nat) : St (list scenario * nat) :=
  match fuel with
  | 0 => ret (acc, scenarioIdCounter)
  | S fuel' =>
      if length acc <? totalScenarios then
        (let id_ := scenarioIdCounter in
         let scenarioIdCounter := S scenarioIdCounter in
         let name_ := "Unknown Scenario " ++ JS.toString scenarioIdCounter in
         t1 <- newDate ;;
         t2 <- newDate ;;
         addGeneric fuel' totalScenarios
           (push acc (mkScenario id_ name_ "passed" t1 (Some t2) (Some 5000%N) [] [] None))
           scenarioIdCounter)%st
      else ret (acc, scenarioIdCounter)
  end.

(** The declared total: group 1 of the first "Total scenarios" marker. *)
Definition declaredTotal (testLog : string) : option nat :=
  match RegExp.match_ testLog totalScenariosRegex with
  | Some totalMatch => Some (N.to_nat (JS.parseInt (capture1 totalMatch)))
  | None => None
  end.

(** A declared total that a list can reach.  An array of the language holds
    fewer than 2^32 entries: for a total from 2^32 on, the loop that adds
    generic scenarios ends in the RangeError of push instead of reaching the
    total, and the function returns nothing.  The lists of the model have no
    bound on their length; what is stated below about a list that the
    function returns is stated for the totals that a list can reach, for
    which the number that parseInt returns is the number that the digits
    denote. *)
Definition reachable (testLog : string) : bool :=
  match RegExp.match_ testLog totalScenariosRegex with
  | Some totalMatch => (JS.parseInt (capture1 totalMatch) <? 4294967296)%N
  | None => true
  end.

(** The comparison with the declared total (lines 230 to 277): the list is
    topped up when the log names fewer scenarios than it declares. *)
Definition topUp (total : option nat) (parsed : list scenario) (scenarioIdCounter : nat)
  : St (list scenario) :=
  match total with
  | Some totalScenarios =>
      if length parsed <? totalScenarios then
        (r1 <- addMissing defaultNames (map name parsed) totalScenarios
                 parsed scenarioIdCounter ;;
         r2 <- addGeneric (totalScenarios - length (fst r1)) totalScenarios
                 (fst r1) (snd r1) ;;
         ret (fst r2))%st
      else ret parsed
  | None => ret parsed
  end.

(** The reconciliation: from that comparison to the return of the function
    (lines 229 to 286), which replaces an empty list by the default
    scenarios. *)
Definition reconcile (total : option nat) (parsed : list scenario) (scenarioIdCounter : nat)
  : St (list scenario) :=
  (filled <- topUp total parsed scenarioIdCounter ;;
   if length filled =? 0 then createDefaultScenarios else ret filled)%st.

(** The first part of the function: the scenarios that the log names, with
    the counter that follows them. *)
Definition reconstruct (beyond : RegExp.engine) (testLog : string)
  : Ex (list scenario * nat) :=
  namedScenarios beyond testLog (scenarioNames testLog) [] 1.

(** The first test of the function: neither the word Scenario nor a
    declared total occurs in the log. *)
Definition noScenarioInfo (testLog : string) : bool :=
  negb (JS.includes testLog "Scenario")
  && negb (found (RegExp.match_ testLog totalScenariosRegex)).

(** prepareScenarioResults(testLog, config), lines 169 to 287 *)
Definition prepareScenarioResults (beyond : RegExp.engine) (testLog : string)
  : Ex (list scenario) :=
  if noScenarioInfo testLog
  then lift createDefaultScenarios
  else
    (r <- reconstruct beyond testLog ;;
     lift (reconcile (declaredTotal testLog) (fst r) (snd r)))%ex.

(** *** processTestLog (lines 79 to 161), from the content of the log file on

    The function reads the file, builds the report and has saveReport
    render and write it.  The model starts from [logContent] and ends at
    the call of saveReport: its result is the report data at that call (the
    state of the generator after generateSummary), or [None] where an
    exception ends the try block before that call, so that the function
    returns null from its catch clause. *)

(** The loop over the matches of errorRegex (lines 140 to 149): [from] is
    the lastIndex of the pattern.  Every match is six or seven characters
    long, so the position moves on. *)
Fixpoint extractErrors (logContent : string) (fuel from : nat)
    (r : Generator.testResults) : St Generator.testResults :=
  match fuel with
  | 0 => ret r
  | S fuel' =>
      match RegExp.exec errorRegex logContent from with
      | None => ret r
      | Some m =>
          let errorLine :=
            JS.substring logContent (Z.of_nat (RegExp.index m))
              (JS.indexOf logContent (String JS.LF EmptyString) (RegExp.index m)) in
          (t <- newDate ;;
           extractErrors logContent fuel' (RegExp.lastIndex m)
             (Generator.addError (Generator.mkError (JS.trim errorLine) t "Unknown") r))%st
      end
  end.

(** A metric of the log (lines 131 to 137): the number of the first marker,
    or the default. *)
Definition marker (logContent : string) (re : RegExp.regexp) (default : N) : N :=
  match RegExp.match_ logContent re with
  | Some m => JS.parseInt (capture1 m)
  | None => default
  end.

(** [new Date(text)]: the time value of the date that the text is read as,
    [None] for an Invalid Date.  The language fixes the reading of its own
    date format and leaves every other text to the implementation; the
    reading is a parameter of processTestLog, and what is proved about that
    function is proved for every reading. *)
Definition dateReader : Type := string -> option Z.

(** The start and the end of the run (lines 114 to 118): the date of the
    first group of the marker when the log has the marker, the clock
    otherwise. *)
Definition timeOf (readDate : dateReader) (logContent : string) (re : RegExp.regexp)
  : St (option Z) :=
  match RegExp.match_ logContent re with
  | Some m => ret (readDate (capture1 m))
  | None => (t <- newDate ;; ret (Some t))%st
  end.

(** Lines 93 to 152, with the class TestReportGenerator of the generator
    (not the stand-in of lines 15 to 28, which is used when the class cannot
    be loaded).  The constructor reads the clock twice and the argument of
    setEnvironment once, for time stamps that the model does not keep; then
    the timing is set, the scenarios are added, the metrics, and the errors.
    saveReport generates the summary.  The exceptions are caught: the
    RangeError of setTiming, and those of prepareScenarioResults, which are
    the SyntaxError of a name and the RangeError of a declared total that no
    list can reach. *)
Definition processTestLog (readDate : dateReader) (beyond : RegExp.engine)
    (logContent : string) (w : world) : option Generator.testResults :=
  let (_, w) := newDate w in
  let (_, w) := newDate w in
  let (_, w) := newDate w in
  let (startTime, w) := timeOf readDate logContent startTimeRegex w in
  let (endTime, w) := timeOf readDate logContent endTimeRegex w in
  match Generator.setTiming startTime endTime Generator.new with
  | None => None
  | Some r0 =>
      match prepareScenarioResults beyond logContent w with
      | Throw _ => None
      | Normal (scenarios, w1) =>
          if negb (reachable logContent) then None else
          let r1 := fold_left (fun r sc => Generator.addScenario sc r) scenarios r0 in
          let r2 := Generator.addMetrics
                      (Generator.mkUpdate
                         (Some (marker logContent loadTimeRegex 3000%N))
                         (Some (marker logContent responseTimeRegex 500%N))) r1 in
          let (r3, _) := extractErrors logContent (S (String.length logContent)) 0 r2 w1 in
          Some (Generator.generateSummary r3)
      end
  end.

End Integration.

(* ===================================================================== *)
(** ** Logs used below                                                     *)
(* ===================================================================== *)

Module Logs.

Definition nl : string := String JS.LF EmptyString.

(** The log of the concrete scenario of the specification: two scenarios,
    the second one failed, and a declared total of four. *)
Definition declaredFour : string :=
  "Running scenario: Tab Navigation" ++ nl ++
  "Scenario " ++ JS.quoted "Tab Navigation" ++ " completed successfully" ++ nl ++
  "Running scenario: Dashboard Controls" ++ nl ++
  "Scenario " ++ JS.quoted "Dashboard Controls" ++ " failed: timeout" ++ nl ++
  "Total scenarios: 4".

(** A run log of 423 characters in which the first scenario never reports
    its end and the second one fails with a reason. *)
Definition interrupted : string :=
  "Starting test at: 2024-01-01T00:00:00.000Z" ++ nl ++
  "Target: https://sheetsolved.shinyapps.io/preciseSandboxAnalytics/" ++ nl ++
  "Starting dashboard tests..." ++ nl ++
  "Running scenario: Tab Navigation" ++ nl ++
  "Navigating to the dashboard and waiting for the tabs to render" ++ nl ++
  "Running scenario: Dashboard Controls" ++ nl ++
  "Scenario " ++ JS.quoted "Dashboard Controls" ++ " failed: timeout" ++ nl ++
  "Test completed at: 2024-01-01T00:01:00.000Z" ++ nl ++
  "Tests failed: timeout" ++ nl ++
  "Total scenarios: 2" ++ nl ++
  "Closing log stream..." ++ nl.

(** A scenario name with an opening parenthesis that is never closed. *)
Definition openParenthesis : string :=
  "Running scenario: Plot zoom (x2" ++ nl ++
  "Total scenarios: 1".

(** A start line with the same name and nothing else: the log has neither
    the word Scenario nor a declared total. *)
Definition noVocabulary : string := "Running scenario: Plot zoom (x2".

(** A log that starts Tab Navigation twice, with Dashboard Controls in
    between, and completes Tab Navigation once. *)
Definition repeated : string :=
  "Running scenario: Tab Navigation" ++ nl ++
  "Running scenario: Dashboard Controls" ++ nl ++
  "Running scenario: Tab Navigation " ++ nl ++
  "Scenario " ++ JS.quoted "Tab Navigation" ++ " completed successfully".

(** The log of [declaredFour] with a response-time marker. *)
Definition withResponseTime : string :=
  declaredFour ++ nl ++ "Average response time: 250ms".

(** Two error lines: the first ends in a blank before its line break, the
    second is the last line and has no line break. *)
Definition twoErrors : string :=
  "Error: disk full " ++ nl ++ "Error: boom".

(** A log that declares seven scenarios and names none. *)
Definition declaredSeven : string := "Total scenarios: 7".

(** A log that has the word Scenario and names no scenario. *)
Definition noNames : string := "Scenario runner started".

(** A clock that ticks once per reading. *)
Definition ticking : world := fun n => Z.of_nat n.

(** An engine that accepts no pattern beyond the embedded grammar, for the
    instances below: the logs of this module build no such pattern. *)
Definition strict : RegExp.engine := fun _ => RegExp.Rejected.

(** An engine that accepts every such pattern and finds it in no subject. *)
Definition nowhere : RegExp.engine := fun _ => RegExp.Accepted (fun _ => None).

(** A log whose one name has a dollar sign, which the embedded grammar does
    not cover. *)
Definition priced : string :=
  "Running scenario: cost $5" ++ nl ++ "Total scenarios: 1".

(** A reading of dates that takes every text for the given instant, and
    one that takes every text but the word yesterday for it. *)
Definition always (t : Z) : Integration.dateReader := fun _ => Some t.

Definition butYesterday (t : Z) : Integration.dateReader :=
  fun text => if String.eqb text "yesterday" then None else Some t.

(** The log of [declaredFour] behind a start marker without a date. *)
Definition startedYesterday : string :=
  "Starting test at: yesterday" ++ nl ++ declaredFour.

(** The scenarios that the function of report-integration.js builds from
    the names of [declaredFour] under that clock, and the list that it
    returns after the reconciliation. *)
Definition namedInDeclaredFour : list scenario :=
  [ mkScenario 1 "Tab Navigation" "passed" 0 (Some 1%Z) (Some 5000%N) [] [] None;
    mkScenario 2 "Dashboard Controls" "failed" 2 (Some 3%Z) (Some 5000%N) [] []
      (Some "timeout") ].

Definition returnedForDeclaredFour : list scenario :=
  (namedInDeclaredFour ++
   [ mkScenario 3 "Navigate Dashboard Tabs" "passed" 4 (Some 5%Z) (Some 5000%N) [] [] None;
     mkScenario 4 "Test Dashboard Input Controls" "passed" 6 (Some 7%Z) (Some 5000%N)
       [] [] None ])%list.

End Logs.

(* ===================================================================== *)
(** ** Notions of the specification                                        *)
(* ===================================================================== *)

Module Spec.
Import Generator.

(** The methods of the generator that change the report. *)
Inductive call : Type :=
| AddScenario (sc : scenario)
| AddMetrics (u : metricsUpdate)
| AddError (e : errorRecord)
| GenerateSummary.

Definition perform (r : testResults) (c : call) : testResults :=
  match c with
  | AddScenario sc => addScenario sc r
  | AddMetrics u => addMetrics u r
  | AddError e => addError e r
  | GenerateSummary => generateSummary r
  end.

(** The report after a sequence of calls on a new generator. *)
Definition after (calls : list call) : testResults := fold_left perform calls new.

(** The statuses that the summary counts. *)
Definition counted (s : scenario) : bool :=
  String.eqb (status s) "passed" || String.eqb (status s) "failed"
  || String.eqb (status s) "warning".

Definition uncounted (l : list scenario) : nat :=
  length (filter (fun s => negb (counted s)) l).

(** The invariant of the summary. *)
Definition balanced (r : testResults) : Prop :=
  total (summary_ r) =
    passed (summary_ r) + failed (summary_ r) + warning (summary_ r)
    + uncounted (scenarios r).

(** The shape of a generic entry: the number in the name is the id plus
    one, and so is not the id. *)
Definition generic (s : scenario) : bool :=
  String.eqb (name s) ("Unknown Scenario " ++ JS.toString (S (id s)))
  && negb (String.eqb (name s) ("Unknown Scenario " ++ JS.toString (id s))).

(** An entry that was filled in from the pool of default names. *)
Definition fromPool (s : scenario) : bool :=
  existsb (String.eqb (name s)) Integration.defaultNames.

(** The declared total, 0 for a log that declares none. *)
Definition declared (testLog : string) : nat :=
  match Integration.declaredTotal testLog with Some n => n | None => 0 end.

(** The four default scenarios of report-integration.js, the time stamps
    left out. *)
Definition defaultOutlines : list (nat * string * string) :=
  [ (1, "Navigate Dashboard Tabs", "passed");
    (2, "Test Dashboard Input Controls", "passed");
    (3, "Test Dashboard Plot Interactions", "passed");
    (4, "Test Dashboard Responsiveness", "passed") ].

End Spec.

Module SpecMetrics.
Import Generator.

(** The arithmetic mean of the durations of the scenarios that carry one. *)
Definition timedMean (l : list scenario) : Q :=
  let timed := filter hasDuration l in
  Z.of_N (fold_left (fun sum s => (sum + durationOf s)%N) timed 0%N)
    # Pos.of_nat (length timed).

(** A number that parseInt returns as it is written: the integers up to
    2^53 are numbers of the language. *)
Definition exact (v : N) : bool := (v <=? 9007199254740992)%N.

(** The value of the response-time marker of a log, when it has one. *)
Definition responseTimeMarker (logContent : string) : option N :=
  match RegExp.match_ logContent Patterns.responseTimeRegex with
  | Some m => Some (JS.parseInt (capture1 m))
  | None => None
  end.

(** The average response time of a report built by processTestLog, from the
    marker of the log and the scenarios of the report. *)
Definition expectedAverage (logContent : string) (l : list scenario) : Q :=
  match RegExp.match_ logContent Patterns.responseTimeRegex with
  | Some m =>
      let v := JS.parseInt (capture1 m) in
      if (v =? 0)%N
      then (if existsb hasDuration l then timedMean l else 0)
      else inject_Z (Z.of_N v)
  | None => 500
  end.

End SpecMetrics.

(** Two runs compared: what they return agrees up to the clock. *)
Module Runs.

(** The outlines of a returned list, or the exception. *)
Definition outlines (r : completion (list scenario * world)) : completion (list (nat * string * string)) :=
  match r with
  | Normal (l, _) => Normal (map outline l)
  | Throw e => Throw e
  end.

Definition similar (l1 l2 : list scenario) : Prop := map outline l1 = map outline l2.

(** Two results of code that cannot throw. *)
Definition agreeSt {A : Type} (R : A -> A -> Prop) (x1 x2 : A * world) : Prop :=
  R (fst x1) (fst x2).

(** Two completions: both normal with related values, or the same throw. *)
Definition agree {A : Type} (R : A -> A -> Prop) (r1 r2 : completion (A * world)) : Prop :=
  match r1, r2 with
  | Normal (a1, _), Normal (a2, _) => R a1 a2
  | Throw e1, Throw e2 => e1 = e2
  | _, _ => False
  end.

(** Two states of the generator's loop over the lines. *)
Definition similarState (s1 s2 : Generator.parserState) : Prop :=
  similar (Generator.collected s1) (Generator.collected s2)
  /\ option_map outline (Generator.currentScenario s1)
     = option_map outline (Generator.currentScenario s2)
  /\ Generator.scenarioIdCounter s1 = Generator.scenarioIdCounter s2.

(** Two accumulators of the loops of report-integration.js. *)
Definition similarAcc (x1 x2 : list scenario * nat) : Prop :=
  similar (fst x1) (fst x2) /\ snd x1 = snd x2.

End Runs.

Module SpecErrors.

(** [x] starts with the text [p], letter case apart. *)
Fixpoint startsWithCI (p x : string) : bool :=
  match p with
  | EmptyString => true
  | String c p' =>
      match x with
      | String a x' => RegExp.char_eq true c a && startsWithCI p' x'
      | EmptyString => false
      end
  end.

(** An occurrence of one of the two error words at the start of [x]. *)
Definition occursAt (x : string) : bool :=
  startsWithCI "Error:" x || startsWithCI "failed:" x.

(** The positions of the occurrences in [x], the first character of [x]
    being at position [i] of the log. *)
Fixpoint occurrences (x : string) (i : nat) : list nat :=
  ((if occursAt x then [i] else []) ++
   match x with
   | String _ x' => occurrences x' (S i)
   | EmptyString => []
   end)%list.

(** The text of [x] up to its first line break. *)
Fixpoint upToLF (x : string) : string :=
  match x with
  | String a x' => if Ascii.eqb a JS.LF then EmptyString else String a (upToLF x')
  | EmptyString => EmptyString
  end.

(** A line break follows position [i]. *)
Definition lineBreakAfter (logContent : string) (i : nat) : bool :=
  JS.includes (JS.drop i logContent) (String JS.LF EmptyString).

(** The record that the claim describes for the occurrence at [i], with the
    white space at both ends removed. *)
Definition expectedError (logContent : string) (i : nat) : string * string :=
  (JS.trim (upToLF (JS.drop i logContent)), "Unknown").

(** Message and scenario of a record, the timestamp left out. *)
Definition describe (e : Generator.errorRecord) : string * string :=
  (Generator.message e, Generator.scenario_ e).

End SpecErrors.



(* ===================================================================== *)
(** ** Notions for the further properties                                  *)
(* ===================================================================== *)

Module Shape.
Import Generator.

(** The scenarios that the state of the generator's loop holds: those that
    are saved, then the current one. *)
Definition entries (st : parserState) : list scenario :=
  (collected st ++ match currentScenario st with Some cur => [cur] | None => [] end)%list.

(** A scenario as the generator's prepareScenarioResults leaves it: passed
    or failed with an end time and the duration 5000, or running or warning
    without them; running without warnings, warning with some; an error
    only as the fixed text, and always when the status is failed. *)
Definition generated (s : scenario) : bool :=
  let closed := String.eqb (status s) "passed" || String.eqb (status s) "failed" in
  let open_ := String.eqb (status s) "running" || String.eqb (status s) "warning" in
  ((closed && match duration s, endTime s with Some 5000%N, Some _ => true | _, _ => false end)
   || (open_ && match duration s, endTime s with None, None => true | _, _ => false end))
  && (if String.eqb (status s) "running"
      then match warnings s with [] => true | _ => false end else true)
  && (if String.eqb (status s) "warning"
      then match warnings s with [] => false | _ => true end else true)
  && match error s with
     | None => negb (String.eqb (status s) "failed")
     | Some e => String.eqb e "Scenario failed" && closed
     end.

(** A line that starts a scenario. *)
Definition isStartLine (line : string) : bool :=
  found (RegExp.match_ line Patterns.scenarioStartRegex).

Definition startLines (testLog : string) : nat :=
  length (filter isStartLine (JS.split_newline testLog)).

(** Whether the generator's function reaches its loop over the lines. *)
(** The names of the start lines, in the order of the lines. *)
Definition startNames (testLog : string) : list string :=
  flat_map (fun line =>
              match RegExp.match_ line Patterns.scenarioStartRegex with
              | Some startMatch => [JS.trim (capture1 startMatch)]
              | None => []
              end)
           (JS.split_newline testLog).

Definition parsesLines (testLog : string) : bool :=
  negb (String.eqb testLog EmptyString)
  && negb (String.length testLog <? 300)
  && negb (length (fold_left (fun names m => set_add (JS.trim (capture1 m)) names)
                     (RegExp.matchAll testLog Patterns.scenarioStartRegex) []) =? 0).

(** The invariant of the loop over the lines. *)
Definition loopInvariant (st : parserState) : Prop :=
  map id (entries st) = seq 1 (length (entries st))
  /\ scenarioIdCounter st = S (length (entries st))
  /\ forallb generated (entries st) = true
  /\ (currentScenario st = None -> collected st = []).

(** The name that a match of the start or of the completion pattern gives:
    its first group, trimmed. *)
Definition nameOf (m : RegExp.match_result) : string := JS.trim (capture1 m).

(** The names that a log mentions: those of the matches of the start
    pattern from left to right, then those of the completion pattern. *)
Definition mentions (testLog : string) : list string :=
  (map nameOf (RegExp.matchAll testLog Patterns.scenarioStartRegex)
   ++ map nameOf (RegExp.matchAll testLog Patterns.scenarioCompleteRegex))%list.

(** The texts of a list, each once, at its first place. *)
Fixpoint firstPlaces (l : list string) : list string :=
  match l with
  | [] => []
  | x :: l' => x :: filter (fun y => negb (String.eqb y x)) (firstPlaces l')
  end.

(** A scenario as report-integration.js builds it. *)
Definition integrated (s : scenario) : bool :=
  Spec.counted s
  && match duration s, endTime s with Some 5000%N, Some _ => true | _, _ => false end
  && match steps s, warnings s with [], [] => true | _, _ => false end
  && match error s with
     | None => negb (String.eqb (status s) "failed")
     | Some _ => String.eqb (status s) "failed"
     end.

(** The accumulator of the loops of report-integration.js: ids from 1, the
    counter one ahead, every entry in the shape above. *)
Definition numbered (acc : list scenario) (c : nat) : Prop :=
  map id acc = seq 1 (length acc) /\ c = S (length acc)
  /\ forallb integrated acc = true.

End Shape.

Module Plain.

(** The characters that the pattern grammar gives a meaning to. *)
Definition special (a : ascii) : bool :=
  existsb (Ascii.eqb a)
    ["("; ")"; "|"; "*"; "+"; "?"; "."; "^"; "$"; "\"; "["; "]"; "{"; "}"]%char.

(** A text without such characters: as a pattern it stands for itself. *)
Fixpoint plain (s : string) : bool :=
  match s with
  | EmptyString => true
  | String a s' => negb (special a) && plain s'
  end.

(** The frame of the parser after it has read such a text: one term for
    each character. *)
Definition readChars (s : string) (cur : RegExp.frame) : RegExp.frame :=
  fold_left (fun f a => RegExp.push_term (RegExp.Chr a) f) (list_ascii_of_string s) cur.

(** The text behind the first place at which [sub] stands in [x]. *)
Fixpoint behind (sub x : string) : option string :=
  if prefix sub x then Some (JS.drop (String.length sub) x)
  else match x with
       | String _ x' => behind sub x'
       | EmptyString => None
       end.

(** The text up to the end of the line, and the text from there on. *)
Fixpoint restOfLine (x : string) : string :=
  match x with
  | String a x' => if JS.isLineTerminator a then EmptyString else String a (restOfLine x')
  | EmptyString => EmptyString
  end.

Fixpoint afterLine (x : string) : string :=
  match x with
  | String a x' => if JS.isLineTerminator a then x else afterLine x'
  | EmptyString => EmptyString
  end.

(** What the log says about a name: the text behind the first place at
    which the name stands in quotes after the word Scenario and before the
    given words or, when there is no such place, behind the first place at
    which the name stands before these words. *)
Definition mention (testLog nm words : string) : option string :=
  orElse (behind ("Scenario " ++ JS.quoted nm ++ words) testLog)
         (behind (nm ++ words) testLog).

Definition statusFor (testLog nm : string) : string :=
  match mention testLog nm " failed: ", mention testLog nm " completed successfully" with
  | Some _, _ => "failed"
  | None, Some _ => "passed"
  | None, None => "warning"
  end.

Definition errorFor (testLog nm : string) : option string :=
  match mention testLog nm " failed: " with
  | Some x =>
      Some (match restOfLine x with
            | EmptyString => "Scenario failed"
            | detail => detail
            end)
  | None => None
  end.

(** What a scenario tells, and what the log tells about a name. *)
Definition telling (s : scenario) : string * string * option string :=
  (name s, status s, error s).

Definition told (testLog nm : string) : string * string * option string :=
  (nm, statusFor testLog nm, errorFor testLog nm).

(** The pattern that the parser builds from a text of plain characters,
    followed by the terms [tl] (last first). *)
Definition literal (s : string) (tl : list RegExp.regex) : RegExp.regex :=
  RegExp.sequence (tl ++ List.rev (map RegExp.Chr (list_ascii_of_string s))).

End Plain.

Module AllLogs.

(** The message that the loop of processTestLog cuts out for an occurrence
    at position [i]: the text up to the next line break and, where no line
    break follows (indexOf gives -1, substring swaps its arguments), the
    text of the log before the occurrence. *)
Definition messageAt (logContent : string) (i : nat) : string :=
  JS.trim (if SpecErrors.lineBreakAfter logContent i
           then SpecErrors.upToLF (JS.drop i logContent)
           else JS.take i logContent).

Definition errorAt (logContent : string) (i : nat) : string * string :=
  (messageAt logContent i, "Unknown").

(** The log has no marker of the given pattern, or the text behind its
    first marker is read as a valid date. *)
Definition validDate (readDate : Integration.dateReader) (logContent : string)
    (re : RegExp.regexp) : bool :=
  match RegExp.match_ logContent re with
  | Some m => found (readDate (capture1 m))
  | None => true
  end.

End AllLogs.

Module Counts.

(** The number of scenarios of a list that have a given status. *)
Definition countStatus (st : string) (l : list scenario) : nat :=
  length (filter (fun s => String.eqb (status s) st) l).

(** The summary of a generator that was given the scenarios [l]. *)
Definition summaryOf (l : list scenario) : Generator.summary :=
  Generator.mkSummary (length l) (countStatus "passed" l) (countStatus "failed" l)
    (countStatus "warning" l)
    (match l with
     | [] => 0
     | _ :: _ => Generator.rate (countStatus "passed" l) (length l)
     end).

End Counts.

(* ===================================================================== *)
(** ** The command line of report-integration.js (main, lines 495 to 579)   *)
(* ===================================================================== *)

Module Cli.

(** The properties of the options object that main fills.  A property that
    was never assigned and one that was assigned undefined are both [None]:
    runShinyDashboardTest reads each of them as [options.p || default]. *)
Record options : Type := mkOptions {
  baseUrl : option string;
  outputDir : option string;
  screenshotsDir : option string;
  logFile : option string;
  title : option string;
  testRunner : option string
}.

Inductive key : Type :=
  BaseUrl | OutputDir | ScreenshotsDir | LogFile | Title | TestRunner.

Definition key_eqb (a b : key) : bool :=
  match a, b with
  | BaseUrl, BaseUrl | OutputDir, OutputDir | ScreenshotsDir, ScreenshotsDir
  | LogFile, LogFile | Title, Title | TestRunner, TestRunner => true
  | _, _ => false
  end.

(** The chain of comparisons of the loop (lines 521 to 533). *)
Definition keyOf (arg : string) : option key :=
  if String.eqb arg "--url" || String.eqb arg "-u" then Some BaseUrl
  else if String.eqb arg "--output-dir" || String.eqb arg "-d" then Some OutputDir
  else if String.eqb arg "--screenshots-dir" then Some ScreenshotsDir
  else if String.eqb arg "--log-file" then Some LogFile
  else if String.eqb arg "--title" then Some Title
  else if String.eqb arg "--test-runner" then Some TestRunner
  else None.

Definition get (k : key) (o : options) : option string :=
  match k with
  | BaseUrl => baseUrl o
  | OutputDir => outputDir o
  | ScreenshotsDir => screenshotsDir o
  | LogFile => logFile o
  | Title => title o
  | TestRunner => testRunner o
  end.

Definition set (k : key) (v : option string) (o : options) : options :=
  match k with
  | BaseUrl => mkOptions v (outputDir o) (screenshotsDir o) (logFile o) (title o) (testRunner o)
  | OutputDir => mkOptions (baseUrl o) v (screenshotsDir o) (logFile o) (title o) (testRunner o)
  | ScreenshotsDir => mkOptions (baseUrl o) (outputDir o) v (logFile o) (title o) (testRunner o)
  | LogFile => mkOptions (baseUrl o) (outputDir o) (screenshotsDir o) v (title o) (testRunner o)
  | Title => mkOptions (baseUrl o) (outputDir o) (screenshotsDir o) (logFile o) v (testRunner o)
  | TestRunner => mkOptions (baseUrl o) (outputDir o) (screenshotsDir o) (logFile o) (title o) v
  end.

Definition noOptions : options := mkOptions None None None None None None.

(** The loop over the arguments (lines 520 to 534), on the arguments from
    position i on: an option takes the next argument, whatever it is, and
    the loop goes on behind it; after the last argument it takes undefined. *)
Fixpoint parseArgs (args : list string) (o : options) : options :=
  match args with
  | [] => o
  | a :: rest =>
      match keyOf a with
      | Some k =>
          match rest with
          | v :: rest' => parseArgs rest' (set k (Some v) o)
          | [] => set k None o
          end
      | None => parseArgs rest o
      end
  end.

(** Array.prototype.includes on the arguments. *)
Definition hasArg (args : list string) (a : string) : bool := existsb (String.eqb a) args.

(** What main does with the arguments: it prints the help text, or it runs
    the test with the options and opens the report when asked to. *)
Inductive action : Type :=
| ShowHelp
| Run (o : options) (shouldOpen : bool).

Definition main (args : list string) : action :=
  if hasArg args "--help" || hasArg args "-h" then ShowHelp
  else Run (parseArgs args noOptions) (hasArg args "--open" || hasArg args "-o").

(** The arguments that give each option of a list its value, one option
    after the other. *)
Definition spelled (pairs : list (string * string)) : list string :=
  flat_map (fun p => [fst p; snd p]) pairs.

(** The value of the last option of the list that has the key [k]. *)
Definition lastValue (k : key) (pairs : list (string * string)) : option string :=
  match find (fun p => match keyOf (fst p) with Some k' => key_eqb k k' | None => false end)
             (List.rev pairs) with
  | Some p => Some (snd p)
  | None => None
  end.

End Cli.

(* ===================================================================== *)
(** ** formatDuration (src/scenarios/shiny-scenarios.js, lines 446 to 460)  *)
(* ===================================================================== *)

Module Format.



(** A text of decimal digits only. *)
Fixpoint digits (s : string) : bool :=
  match s with
  | EmptyString => true
  | String a s' => JS.isDigit a && digits s'
  end.


End Format.

(* ===================================================================== *)
(** ** The result lines of runShinyDashboardTest (lines 404 to 415)         *)
(* ===================================================================== *)

Module Writer.

(** An entry of [testResults.scenarios], as the function reads it. *)
Record outcome : Type := mkOutcome {
  o_name : string;
  o_status : string;
  o_error : option string        (* None for undefined *)
}.

Definition succeeded (o : outcome) : bool :=
  String.eqb (o_status o) "success" || String.eqb (o_status o) "passed".

(** [scenario.error || 'Unknown error'] *)
Definition errorText (o : outcome) : string :=
  match o_error o with
  | Some EmptyString | None => "Unknown error"
  | Some e => e
  end.

Definition resultLine (o : outcome) : string :=
  if succeeded o
  then "Scenario " ++ JS.quoted (o_name o) ++ " completed successfully"
  else "Scenario " ++ JS.quoted (o_name o) ++ " failed: " ++ errorText o.

(** What the loop writes to the log, and what is written later: [log] adds
    a line break to every message. *)
Fixpoint resultLines (outcomes : list outcome) (later : string) : string :=
  match outcomes with
  | [] => later
  | o :: rest => resultLine o ++ String JS.LF (resultLines rest later)
  end.

(** The line that declares the number of scenarios (line 405). *)
Definition totalLine (n : nat) : string := "Total scenarios: " ++ JS.toString n.

(** The lines that the function writes from [Starting dashboard tests...]
    on (lines 391 to 418), for a runner that returned [testResults] with the
    given scenarios; [completedAt] is the time stamp, [failure] is [None]
    for a run that succeeded and otherwise holds its error, the empty text
    when it has none. *)
Definition summaryLine (failure : option string) : string :=
  match failure with
  | None => "All tests completed successfully"
  | Some EmptyString => "Tests failed: Unknown error"
  | Some e => "Tests failed: " ++ e
  end.

Definition runLines (completedAt : string) (failure : option string)
    (outcomes : list outcome) : string :=
  "Starting dashboard tests..." ++ String JS.LF
    ("Test completed at: " ++ completedAt ++ String JS.LF
       (summaryLine failure ++ String JS.LF
          (totalLine (length outcomes) ++ String JS.LF
             (resultLines outcomes ("Closing log stream..." ++ String JS.LF EmptyString))))).

(** No place of [u], when [v] follows it, is the start of the text [p],
    letter case apart. *)
Fixpoint silent (p u v : string) : bool :=
  match u with
  | EmptyString => true
  | String a u' => negb (SpecErrors.startsWithCI p (u ++ v)) && silent p u' v
  end.

(** Neither the word Scenario with a blank nor the words of a start line. *)
Definition quiet (u v : string) : bool :=
  silent "Scenario " u v && silent "Running scenario: " u v.

(** The log before the line that declares [n] scenarios: up to the end of
    that line it is quiet, and it declares no total before. *)
Definition fresh (head : string) (n : nat) : bool :=
  quiet (head ++ totalLine n) (String JS.LF EmptyString)
  && silent "Total scenarios: " head (totalLine n).

Fixpoint noQuote (s : string) : bool :=
  match s with
  | EmptyString => true
  | String a s' => negb (Ascii.eqb a JS.dquote) && noQuote s'
  end.

(** A name and an error text that cannot be taken for a part of the log's
    own wording: the name is plain, has no double quote and, like the error
    text of a failure, neither of the texts above; the name of a failure
    does not hold the words of a completion. *)
Definition clean (o : outcome) : bool :=
  Plain.plain (o_name o) && noQuote (o_name o)
  && quiet (o_name o) (String JS.dquote EmptyString)
  && (succeeded o
      || (silent " completed successfully" (o_name o) (String JS.dquote EmptyString)
          && quiet (errorText o) (String JS.LF EmptyString))).

(** The names of a list, each once, in the order of their first places. *)
Definition distinct (names : list string) : list string :=
  fold_left (fun acc n => set_add n acc) names [].

(** The names that stand in a completion line. *)
Definition completedNames (outcomes : list outcome) : list string :=
  map (fun o => JS.trim (o_name o)) (filter succeeded outcomes).

(** An entry that the reconciliation made up. *)
Definition madeUp (s : scenario) : bool :=
  String.eqb (status s) "passed" && (Spec.fromPool s || Spec.generic s).

End Writer.

(** The scan of [matchAll], on the rest of the subject. *)
Module Scan.
Import RegExp.

(** One attempt of the pattern at the start of [x]. *)
Definition attempt (re : regexp) (x : string) : option state :=
  compile (ignoreCase re) (pattern re) x (repeat None (nCaptures re))
    (fun y cap => Some (y, cap)).

(** No attempt succeeds at a place of [u], when [v] follows it. *)
Fixpoint barren (re : regexp) (u v : string) : bool :=
  match u with
  | EmptyString => true
  | String a u' =>
      match attempt re (u ++ v) with Some _ => false | None => barren re u' v end
  end.

(** Where the scan goes on after a match. *)
Definition next (m : match_result) : nat :=
  match matched m with
  | EmptyString => S (lastIndex m)
  | _ => lastIndex m
  end.

(** The captures of the matches from the start of [x] on. *)
Fixpoint scan (re : regexp) (fuel : nat) (x : string) : list captures :=
  match fuel with
  | 0 => []
  | S fuel' =>
      match search re x 0 with
      | None => []
      | Some m =>
          groups m :: (if String.length x <? next m then []
                       else scan re fuel' (JS.drop (next m) x))
      end
  end.

(** Group 1 of a list of captures, the empty text when it is undefined. *)
Definition first (g : captures) : string :=
  match nth 0 g None with Some s => s | None => EmptyString end.

(** A match of a search that started at position 0, seen from a search
    that started at position [i]. *)
Definition shift (i : nat) (m : match_result) : match_result :=
  mkMatch (i + index m) (matched m) (groups m) (i + lastIndex m).

(** The greedy star of a class before the continuation [k]: the longest run
    first, then the shorter ones. *)
Fixpoint backtrack (keep : ascii -> bool) (k : continuation) (cap : captures)
    (x : string) : option state :=
  match x with
  | String a x' =>
      if keep a then
        match backtrack keep k cap x' with
        | Some z => Some z
        | None => k x cap
        end
      else k x cap
  | EmptyString => k x cap
  end.

End Scan.

(** A run of two scenarios, the second of which failed. *)
Module Sample.
Import Writer.

Definition twoOutcomes : list outcome :=
  [ mkOutcome "Tab Navigation" "success" None;
    mkOutcome "Dashboard Controls" "failed" (Some "timeout") ].

(** What the function wrote before [Starting dashboard tests...]. *)
Definition opening : string :=
  "Starting test at: 2024-01-01T00:00:00.000Z" ++ String JS.LF
    ("Target: https://sheetsolved.shinyapps.io/preciseSandboxAnalytics/"
       ++ String JS.LF EmptyString).

(** The log of the run. *)
Definition written : string :=
  opening ++ runLines "2024-01-01T00:01:00.000Z" (Some "timeout") twoOutcomes.

(** The log up to the line that declares the total, and the line behind
    the result lines. *)
Definition head : string :=
  opening ++ "Starting dashboard tests..." ++ String JS.LF
    ("Test completed at: 2024-01-01T00:01:00.000Z" ++ String JS.LF
       ("Tests failed: timeout" ++ String JS.LF EmptyString)).

Definition closing : string := "Closing log stream..." ++ String JS.LF EmptyString.

End Sample.

(* ===================================================================== *)
(** ** The console lines of a run (src/runners/shiny-test-runner.js, lines
    82 to 94), as the generator's prepareScenarioResults reads them         *)
(* ===================================================================== *)

Module Transcript.
Import Writer.

(** One scenario of a run: the start line, the lines that the scenario
    prints itself, the result line, and the lines up to the next scenario. *)
Record episode : Type := mkEpisode {
  e_outcome : outcome;
  e_during : list string;
  e_after : list string
}.

Definition startLine (o : outcome) : string := "Running scenario: " ++ o_name o.

Definition episodeLines (e : episode) : list string :=
  startLine (e_outcome e) :: (e_during e ++ resultLine (e_outcome e) :: e_after e)%list.

Definition transcript (preamble : list string) (es : list episode) : list string :=
  (preamble ++ flat_map episodeLines es)%list.

(** Array.prototype.join with a line break. *)
Fixpoint joinLF (lines : list string) : string :=
  match lines with
  | [] => EmptyString
  | [l] => l
  | l :: rest => l ++ String JS.LF (joinLF rest)
  end.

(** A line that none of the five patterns of the parser matches. *)
Definition inert (line : string) : bool :=
  negb (found (RegExp.match_ line Patterns.scenarioStartRegex))
  && negb (found (RegExp.match_ line Patterns.scenarioCompleteRegex))
  && negb (found (RegExp.match_ line Patterns.simpleCompleteRegex))
  && negb (found (RegExp.match_ line Patterns.scenarioFailedRegex))
  && negb (found (RegExp.match_ line Patterns.warningRegex)).

(** A text without a line terminator. *)
Fixpoint noBreak (s : string) : bool :=
  match s with
  | EmptyString => true
  | String a s' => negb (JS.isLineTerminator a) && noBreak s'
  end.

(** A text without a line break. *)
Fixpoint noLF (s : string) : bool :=
  match s with
  | EmptyString => true
  | String a s' => negb (Ascii.eqb a JS.LF) && noLF s'
  end.

Definition noise (lines : list string) : bool :=
  forallb (fun l => inert l && noLF l) lines.

(** Lines before the first scenario: none of them is a start line. *)
Definition opening (lines : list string) : bool :=
  forallb (fun l => negb (found (RegExp.match_ l Patterns.scenarioStartRegex)) && noLF l)
          lines.

(** A name and an error text that stay within their line and cannot be
    taken for the wording of another line. *)
Definition tidy (o : outcome) : bool :=
  noQuote (o_name o) && noBreak (o_name o)
  && quiet (o_name o) (String JS.dquote EmptyString)
  && (succeeded o
      || (silent " completed successfully" (o_name o) (String JS.dquote EmptyString)
          && noLF (errorText o)
          && quiet (errorText o) EmptyString
          && silent " completed successfully" (String " " (errorText o)) EmptyString)).

Definition tidyEpisode (e : episode) : bool :=
  tidy (e_outcome e) && noise (e_during e) && noise (e_after e).

(** What the report should tell of an outcome. *)
Definition read (o : outcome) : string * string * option string :=
  (JS.trim (o_name o),
   if succeeded o then "passed" else "failed",
   if succeeded o then None else Some "Scenario failed").

End Transcript.

(** The console lines of a run of two scenarios, the second of which
    failed. *)
Module SampleRun.
Import Writer Transcript.

Definition preamble : list string :=
  [ "Starting Shiny dashboard tests...";
    "Target URL: https://sheetsolved.shinyapps.io/preciseSandboxAnalytics/";
    "Launching browser...";
    "Opening dashboard...";
    "Waiting for Shiny initialization..." ].

Definition episodes : list episode :=
  [ mkEpisode (mkOutcome "Tab Navigation" "success" None)
      [ "Found navigation using selector: .nav-tabs";
        "Found tabs: Overview, Details";
        "Clicking tab: Overview" ]
      [];
    mkEpisode (mkOutcome "Dashboard Controls" "failed" (Some "timeout"))
      [ "No control containers found, taking screenshot anyway" ]
      [ "Tests completed in 5000ms" ] ].

End SampleRun.

(* ===================================================================== *)
(** ** Screenshot files and their labels                                   *)
(* ===================================================================== *)

(** The names under which the scenarios and the runner save their
    screenshots, and the scenario and type that getScreenshots of the
    generator gives to a file that it lists (lines 501 to 517).  Which files
    it lists depends on the screenshots directory (it takes the names that
    end in .png, sorts them by their time of change and keeps the newest
    ones up to maxScreenshots) and is no part of the model. *)
Module Shots.

(** String.prototype.toLowerCase on one code unit of the range 0..255: the
    letters A to Z and the capital letters from 192 to 222, the multiplication
    sign 215 apart, move up by 32. *)
Definition lower (a : ascii) : ascii :=
  let n := nat_of_ascii a in
  if ((65 <=? n) && (n <=? 90)) || ((192 <=? n) && (n <=? 222) && negb (n =? 215))
  then ascii_of_nat (n + 32)
  else a.

Fixpoint toLowerCase (s : string) : string :=
  match s with
  | EmptyString => EmptyString
  | String a s' => String (lower a) (toLowerCase s')
  end.

(** [s.replace(/\s+/g, '-')]: every run of white space becomes one hyphen.
    [inRun] tells that the character before was white space. *)
Fixpoint dashes (inRun : bool) (s : string) : string :=
  match s with
  | EmptyString => EmptyString
  | String a s' =>
      if JS.isWhiteSpace a
      then if inRun then dashes true s' else String "-" (dashes true s')
      else String a (dashes false s')
  end.

Definition hyphenate (s : string) : string := dashes false s.

(** [s.replace(/-/g, ' ')] *)
Fixpoint blanks (s : string) : string :=
  match s with
  | EmptyString => EmptyString
  | String a s' => String (if Ascii.eqb a "-" then " "%char else a) (blanks s')
  end.

(** String.prototype.replace with a text as pattern and a replacement
    without a dollar sign: the first occurrence only. *)
Definition replace (s pat rep : string) : string :=
  match JS.indexOfFrom pat s 0 with
  | Some i => JS.take i s ++ rep ++ JS.drop (i + String.length pat) s
  | None => s
  end.

Definition startsWith (s p : string) : bool := prefix p s.

(** [scenarioName] and [type] of a file of the list (lines 501 to 517). *)
Definition label (file : string) : string * string :=
  if startsWith file "tab-" then
    ("Tab Navigation",
     blanks (replace (replace file "tab-" EmptyString) ".png" EmptyString))
  else if JS.includes file "plot-" then
    ("Plot Interactions",
     if JS.includes file "-before" then "Before Interaction" else "After Interaction")
  else if JS.includes file "responsive-" then
    ("Responsiveness",
     blanks (replace (replace file "responsive-" EmptyString) ".png" EmptyString))
  else if startsWith file "error-" then ("Error State", "Error")
  else ("Unknown", "General").

(** The file names of the scenarios of src/scenarios/shiny-scenarios.js
    (lines 42, 88, 129, 164, 202 and 240), without the directory.  [i]
    is the loop index. *)
Definition tabShot (tabName : string) : string :=
  "tab-" ++ toLowerCase (hyphenate tabName) ++ ".png".

Definition selectShot (i : nat) : string :=
  "select-input-" ++ JS.toString (i + 1) ++ ".png".

Definition sliderShot (i : nat) : string :=
  "slider-" ++ JS.toString (i + 1) ++ ".png".

Definition plotBefore (i : nat) : string :=
  "plot-" ++ JS.toString (i + 1) ++ "-before.png".

Definition plotAfter (i : nat) : string :=
  "plot-" ++ JS.toString (i + 1) ++ "-after.png".

Definition tableShot (i : nat) : string :=
  "table-" ++ JS.toString (i + 1) ++ "-sorted.png".

(** The file names of src/runners/shiny-test-runner.js (lines 193, 355 and
    396). *)
Definition runnerTabShot (tabName : string) : string :=
  "tab-" ++ hyphenate (toLowerCase tabName) ++ ".png".

Definition runnerSliderShot (i : nat) : string :=
  "controls-slider-" ++ JS.toString (i + 1) ++ ".png".

Definition runnerViewportShot (viewportName : string) : string :=
  "responsive-" ++ hyphenate (toLowerCase viewportName) ++ ".png".

(** The names of the viewports of the runner (lines 374 to 379). *)
Definition runnerViewports : list string :=
  ["Desktop Large"; "Desktop Small"; "Tablet Portrait"; "Mobile"].

(** [v] does not go on a beginning of [pat] that a text before it ends in:
    no proper, non-empty end of [pat] is a beginning of [v]. *)
Definition noBorder (pat v : string) : bool :=
  forallb (fun k => negb (prefix (JS.drop k pat) v)) (seq 1 (String.length pat - 1)).

(** [u] does not end in a proper, non-empty beginning of [pat]. *)
Fixpoint noOverlap (pat u : string) : bool :=
  match u with
  | EmptyString => true
  | String _ u' =>
      negb (prefix u pat && (String.length u <? String.length pat)) && noOverlap pat u'
  end.

End Shots.


(* ===================================================================== *)
(** ** Properties                                                          *)
(* ===================================================================== *)

(** *** C1: a scenario that is open at the next start line *)

(** C1.  The claim says that no entry of the list returned by the generator's
    prepareScenarioResults has status running.  On the log [Logs.interrupted]
    the first scenario is still running when the second start line arrives;
    it is appended as it is, and only the scenario that is open at the end of
    the log is resolved to passed.  The returned list holds an entry with
    status running, whatever the clock. *)
Theorem running_scenario_is_returned :
  forall w : world,
    map outline (fst (Generator.prepareScenarioResults Logs.interrupted w)) =
      [(1, "Tab Navigation", "running"); (2, "Dashboard Controls", "failed")].
Proof. intro w. vm_compute. reflexivity. Qed.

(** *** C2: the concrete scenario of the specification *)

(** C2.  On the log [Logs.declaredFour], prepareScenarioResults of
    report-integration.js returns four scenarios with ids 1 to 4: Tab
    Navigation passed, Dashboard Controls failed with an error that contains
    timeout, and two entries named after the first two names of the default
    pool.  The patterns of the two names are inside the embedded grammar, so
    that this holds for every engine. *)
Theorem declared_four_is_filled_from_the_pool :
  forall (beyond : RegExp.engine) (w : world),
  exists s1 s2 s3 s4 e,
    value (Integration.prepareScenarioResults beyond Logs.declaredFour w)
      = Normal [s1; s2; s3; s4]
    /\ outline s1 = (1, "Tab Navigation", "passed")
    /\ outline s2 = (2, "Dashboard Controls", "failed")
    /\ error s2 = Some e /\ JS.includes e "timeout" = true
    /\ outline s3 = (3, nth 0 Integration.defaultNames EmptyString, "passed")
    /\ outline s4 = (4, nth 1 Integration.defaultNames EmptyString, "passed").
Proof.
  intros beyond w. do 5 eexists. vm_compute. repeat split; reflexivity.
Qed.

(** *** C5: a scenario name that is no pattern *)

(** C5.  The claim says that prepareScenarioResults never throws.  The
    function of report-integration.js pastes each scenario name into the
    text of a pattern; on [Logs.openParenthesis] the name holds an opening
    parenthesis without its closing one, the RegExp constructor rejects the
    pattern, and the function ends with that SyntaxError.  The embedded
    parser reads the whole pattern text, so that no engine is asked. *)
Theorem unbalanced_name_throws :
  forall (beyond : RegExp.engine) (w : world),
    Integration.prepareScenarioResults beyond Logs.openParenthesis w =
      Throw (SyntaxError ("Scenario " ++ JS.quoted "Plot zoom (x2" ++ " completed successfully")).
Proof. intros beyond w. vm_compute. reflexivity. Qed.

(** *** C6: the reason of a failure *)

(** In the state machine of the generator, a failure line that is accepted
    for the current scenario gives it the status failed, the duration 5000
    and the fixed error text. *)
Lemma generator_failure_line (line : string) (st : Generator.parserState)
    (cur : scenario) (w : world) :
  RegExp.match_ line Patterns.scenarioStartRegex = None ->
  Generator.currentScenario st = Some cur ->
  Generator.accepted
    (orElse (RegExp.match_ line Patterns.scenarioCompleteRegex)
            (RegExp.match_ line Patterns.simpleCompleteRegex)) cur line = false ->
  Generator.accepted (RegExp.match_ line Patterns.scenarioFailedRegex) cur line = true ->
  Generator.currentScenario (fst (Generator.processLine line st w)) =
    Some (mkScenario (id cur) (name cur) "failed" (startTime cur) (Some (w 0))
            (Some 5000%N) (steps cur) (warnings cur) (Some "Scenario failed")).
Proof.
  intros H1 H2 H3 H4. unfold Generator.processLine. rewrite H1, H2, H3, H4. reflexivity.
Qed.

(** In report-integration.js, a scenario is failed exactly when it has an
    error, and the error is then the first capture of the failure match, or
    the fixed text when that capture is empty or undefined. *)
Lemma integration_failure {beyond : RegExp.engine}
    (testLog nm : string) (c : nat) (w w' : world) (s : scenario) :
  Integration.namedScenario beyond testLog nm c w = Normal (s, w') ->
  duration s = Some 5000%N
  /\ ((status s = "failed"
       /\ exists m, error s = Some (RegExp.group_or m 1 "Scenario failed"))
      \/ (status s <> "failed" /\ error s = None)).
Proof.
  unfold Integration.namedScenario, bindE.
  destruct (Integration.matchEither beyond testLog _ _ w) as [[isCompleted w1] | e];
    [ | discriminate ].
  destruct (Integration.matchEither beyond testLog _ _ w1) as [[failedMatch w2] | e];
    [ | discriminate ].
  unfold lift, newDate, retE. intro H. injection H as <- _.
  split; [ reflexivity | ].
  destruct failedMatch as [m | ].
  - left. split; [ reflexivity | now exists m ].
  - right. destruct isCompleted; split; try reflexivity; discriminate.
Qed.

(** C6.  The claim says that the error of a failed scenario is the detail of
    the failure line when the line has one.  On [Logs.interrupted] the
    failure line of Dashboard Controls ends in the reason timeout: the
    function of report-integration.js reports that reason, the state machine
    of the generator reports the fixed text instead. *)
Theorem failure_detail_is_dropped :
  forall (beyond : RegExp.engine) (w : world),
    map (fun s => (outline s, duration s, error s))
        (fst (Generator.prepareScenarioResults Logs.interrupted w)) =
      [ ((1, "Tab Navigation", "running"), None, None);
        ((2, "Dashboard Controls", "failed"), Some 5000%N, Some "Scenario failed") ]
    /\ exists l,
         value (Integration.prepareScenarioResults beyond Logs.interrupted w) = Normal l
         /\ map (fun s => (outline s, duration s, error s)) l =
              [ ((1, "Tab Navigation", "warning"), Some 5000%N, None);
                ((2, "Dashboard Controls", "failed"), Some 5000%N, Some "timeout") ].
Proof.
  intros beyond w. split; [ vm_compute; reflexivity | ].
  eexists. split; vm_compute; reflexivity.
Qed.

(** *** C3: the counts of the summary *)

Section Summary.
Import Generator Spec.

Lemma uncounted_push (l : list scenario) (sc : scenario) :
  uncounted (push l sc) = uncounted l + (if counted sc then 0 else 1).
Proof.
  unfold uncounted, push. rewrite filter_app, length_app. simpl.
  destruct (counted sc); reflexivity.
Qed.

Lemma addScenario_balanced (sc : scenario) (r : testResults) :
  balanced r -> balanced (addScenario sc r).
Proof.
  unfold balanced, addScenario. intro H.
  destruct (String.eqb (status sc) "passed") eqn:Hp;
    [ | destruct (String.eqb (status sc) "failed") eqn:Hf;
        [ | destruct (String.eqb (status sc) "warning") eqn:Hw ] ];
    cbn [summary_ scenarios total passed failed warning];
    rewrite uncounted_push; unfold counted; rewrite ?Hp, ?Hf, ?Hw; simpl; lia.
Qed.

Lemma generateSummary_keeps (r : testResults) :
  summary_ (generateSummary r) = summary_ r
  /\ scenarios (generateSummary r) = scenarios r.
Proof.
  unfold generateSummary.
  destruct (Qeq_bool _ _ && _); [ destruct (0 <? _) | ]; split; reflexivity.
Qed.

Lemma perform_balanced (c : call) (r : testResults) :
  balanced r -> balanced (perform r c).
Proof.
  destruct c; simpl; intro H.
  - now apply addScenario_balanced.
  - exact H.
  - exact H.
  - unfold balanced. destruct (generateSummary_keeps r) as [-> ->]. exact H.
Qed.

Lemma fold_perform_balanced (calls : list call) :
  forall r, balanced r -> balanced (fold_left perform calls r).
Proof.
  induction calls as [ | c calls IH]; intros r H; simpl.
  - exact H.
  - apply IH. now apply perform_balanced.
Qed.

(** C3, as the code has it.  After any sequence of calls on a new generator,
    total is the sum of passed, failed and warning plus the number of added
    scenarios whose status is none of these three; the three counts add up
    to total exactly when no such scenario was added. *)
Theorem total_counts_every_scenario :
  forall calls : list call,
    let r := after calls in
    total (summary_ r) =
      passed (summary_ r) + failed (summary_ r) + warning (summary_ r)
      + uncounted (scenarios r).
Proof.
  intro calls. apply (fold_perform_balanced calls). reflexivity.
Qed.

(** C3, the claim as stated, fails.  A scenario with the status success, as
    the test runner records it, is counted in total only.  So is the running
    scenario that the generator's own prepareScenarioResults returns for
    [Logs.interrupted]: with its list added, total is 2 against 0 passed, 1
    failed and 0 warning. *)
Lemma total_exceeds_the_three_counts :
  (let r := addScenario (mkScenario 1 "Tab Navigation" "success" 0 None None [] [] None)
              new in
   total (summary_ r) <> passed (summary_ r) + failed (summary_ r) + warning (summary_ r))
  /\
  (let r := after (map AddScenario
                     (fst (prepareScenarioResults Logs.interrupted Logs.ticking))) in
   total (summary_ r) = 2
   /\ passed (summary_ r) + failed (summary_ r) + warning (summary_ r) = 1).
Proof.
  split.
  - vm_compute. discriminate.
  - vm_compute. split; reflexivity.
Qed.

End Summary.

(** *** C10: the names of the generic entries *)

Section GenericEntries.
Import Integration Spec.

Lemma toString_inj (a b : nat) : JS.toString a = JS.toString b -> a = b.
Proof.
  unfold JS.toString. intro H.
  apply Unsigned.to_uint_inj.
  assert (E : Some (Nat.to_uint a) = Some (Nat.to_uint b)).
  { rewrite <- (NilEmpty.usu (Nat.to_uint a)), <- (NilEmpty.usu (Nat.to_uint b)).
    now rewrite H. }
  now inversion E.
Qed.

Lemma generic_entry (i : nat) (t1 : Z) (t2 : option Z) :
  generic (mkScenario i ("Unknown Scenario " ++ JS.toString (S i)) "passed"
             t1 t2 (Some 5000%N) [] [] None) = true.
Proof.
  unfold generic. cbn [name id]. rewrite String.eqb_refl. simpl andb.
  apply negb_true_iff, String.eqb_neq. intro H.
  simpl in H. apply toString_inj in H. lia.
Qed.

Lemma addGeneric_appends (fuel totalScenarios : nat) :
  forall (acc : list scenario) (c : nat) (w : world),
  exists added,
    fst (fst (addGeneric fuel totalScenarios acc c w)) = (acc ++ added)%list
    /\ forallb generic added = true
    /\ snd (fst (addGeneric fuel totalScenarios acc c w)) = c + length added.
Proof.
  induction fuel as [ | fuel IH]; intros acc c w.
  - exists []. simpl. rewrite app_nil_r. auto.
  - simpl. destruct (length acc <? totalScenarios).
    + unfold bind, newDate.
      match goal with
      | |- context [addGeneric fuel totalScenarios ?a ?c' ?w'] =>
          destruct (IH a c' w') as (added & E1 & E2 & E3)
      end.
      eexists (_ :: added). rewrite E1, E3. unfold push.
      rewrite <- app_assoc. simpl. rewrite generic_entry, E2.
      repeat split. lia.
    + exists []. simpl. rewrite app_nil_r. auto.
Qed.

Lemma defaultsFrom_spec (names : list string) :
  forall (i : nat) (w : world),
    map name (fst (Generator.defaultsFrom names i w)) = names.
Proof.
  induction names as [ | n names IH]; intros i w; simpl.
  - reflexivity.
  - unfold bind, newDate.
    specialize (IH (S i) (fun n0 => w (S (S n0)))).
    destruct (Generator.defaultsFrom names (S i) _) as [more w'] eqn:E.
    simpl in *. now rewrite IH.
Qed.

Lemma createDefaultScenarios_fromPool (w : world) :
  forallb fromPool (fst (createDefaultScenarios w)) = true
  /\ length (fst (createDefaultScenarios w)) = length defaultNames.
Proof.
  pose proof (defaultsFrom_spec defaultNames 1 w) as H.
  unfold createDefaultScenarios. split.
  - apply forallb_forall. intros s Hs. unfold fromPool.
    apply existsb_exists. exists (name s). split.
    + rewrite <- H. now apply in_map.
    + apply String.eqb_refl.
  - rewrite <- (length_map name), H. reflexivity.
Qed.

Lemma addMissing_appends (pool known : list string) (totalScenarios : nat) :
  (forall n, In n pool -> In n defaultNames) ->
  forall (acc : list scenario) (c : nat) (w : world),
  exists added,
    fst (fst (addMissing pool known totalScenarios acc c w)) = (acc ++ added)%list
    /\ forallb fromPool added = true
    /\ (length acc < totalScenarios -> length (acc ++ added) <= totalScenarios).
Proof.
  induction pool as [ | nm pool IH]; intros Hpool acc c w.
  - exists []. simpl. rewrite app_nil_r. repeat split. lia.
  - assert (Hpool' : forall n, In n pool -> In n defaultNames)
      by (intros n Hn; apply Hpool; now right).
    simpl. destruct (negb (existsb (String.eqb nm) known)).
    + unfold bind, newDate. unfold push.
      destruct (totalScenarios <=? length (acc ++ [_])) eqn:Hfull.
      * eexists [_]. simpl. repeat split.
        -- unfold fromPool. simpl name. rewrite andb_true_r.
           apply existsb_exists. exists nm. split; [ apply Hpool; now left | apply String.eqb_refl ].
        -- rewrite length_app. simpl. lia.
      * match goal with
        | |- context [addMissing pool known totalScenarios ?a ?c' ?w'] =>
            destruct (IH Hpool' a c' w') as (added & E1 & E2 & E3)
        end.
        eexists (_ :: added). rewrite E1, <- app_assoc. simpl. repeat split.
        -- rewrite E2, andb_true_r. unfold fromPool. simpl name.
           apply existsb_exists. exists nm. split; [ apply Hpool; now left | apply String.eqb_refl ].
        -- intros _. apply Nat.leb_gt in Hfull. rewrite length_app in Hfull. simpl in Hfull.
           rewrite <- app_assoc in E3. simpl in E3. apply E3.
           rewrite length_app. simpl. lia.
    + apply (IH Hpool').
Qed.

Lemma addGeneric_length (fuel totalScenarios : nat) :
  forall (acc : list scenario) (c : nat) (w : world),
    length acc + fuel = totalScenarios ->
    length (fst (fst (addGeneric fuel totalScenarios acc c w))) = totalScenarios.
Proof.
  induction fuel as [ | fuel IH]; intros acc c w H; simpl.
  - lia.
  - destruct (length acc <? totalScenarios) eqn:E.
    + unfold bind, newDate. apply IH. unfold push. rewrite length_app. simpl. lia.
    + apply Nat.ltb_ge in E. lia.
Qed.

(** What the reconciliation returns: the scenarios of the log, then entries
    from the pool, then generic entries; and how many they are. *)
Lemma reconcile_shape (total : option nat) (parsed : list scenario) (c : nat) (w : world) :
  exists missing generics,
    fst (reconcile total parsed c w) = (parsed ++ missing ++ generics)%list
    /\ forallb fromPool missing = true
    /\ forallb generic generics = true
    /\ length (parsed ++ missing ++ generics)%list =
         (let m := Nat.max (match total with Some n => n | None => 0 end) (length parsed) in
          if m =? 0 then length defaultNames else m).
Proof.
  assert (Hkeep : forall w',
    exists missing generics,
      fst ((if length parsed =? 0 then createDefaultScenarios else ret parsed) w')
        = (parsed ++ missing ++ generics)%list
      /\ forallb fromPool missing = true /\ forallb generic generics = true
      /\ length (parsed ++ missing ++ generics)%list
         = if length parsed =? 0 then length defaultNames else length parsed).
  { intros w'. destruct (length parsed =? 0) eqn:E.
    - apply Nat.eqb_eq in E. destruct parsed; [ | discriminate ].
      destruct (createDefaultScenarios_fromPool w') as [H1 H2].
      exists (fst (createDefaultScenarios w')), []. rewrite app_nil_r. simpl. auto.
    - exists [], []. simpl. rewrite app_nil_r. auto. }
  unfold reconcile, topUp. destruct total as [t | ].
  - destruct (length parsed <? t) eqn:Hlt.
    + apply Nat.ltb_lt in Hlt. unfold bind.
      destruct (addMissing_appends defaultNames (map name parsed) t
                  (fun n H => H) parsed c w) as (missing & E1 & E2 & E3).
      destruct (addMissing defaultNames (map name parsed) t parsed c w) as [[l1 c1] w1].
      simpl in E1. subst l1. simpl fst. simpl snd. specialize (E3 Hlt).
      destruct (addGeneric_appends (t - length (parsed ++ missing)%list) t
                  (parsed ++ missing)%list c1 w1) as (generics & G1 & G2 & _).
      assert (G3 := addGeneric_length (t - length (parsed ++ missing)%list) t
                      (parsed ++ missing)%list c1 w1).
      specialize (G3 ltac:(lia)).
      destruct (addGeneric _ t (parsed ++ missing)%list c1 w1) as [[l2 c2] w2].
      simpl in G1, G3. subst l2. simpl fst. rewrite <- app_assoc in G3. rewrite <- app_assoc.
      rewrite G3.
      replace (Nat.max t (length parsed)) with t by lia.
      destruct (t =? 0) eqn:Ht; [ apply Nat.eqb_eq in Ht; lia | ].
      exists missing, generics. auto.
    + apply Nat.ltb_ge in Hlt. unfold bind, ret at 1.
      destruct (Hkeep w) as (m & g & H1 & H2 & H3 & H4).
      exists m, g. repeat split; try assumption. rewrite H4.
      replace (Nat.max t (length parsed)) with (length parsed) by lia. reflexivity.
  - unfold bind, ret at 1.
    destruct (Hkeep w) as (m & g & H1 & H2 & H3 & H4).
    exists m, g. repeat split; try assumption.
Qed.

(** Three generic entries after the four names of the pool: the ids are 5,
    6 and 7, the numbers of the names 6, 7 and 8. *)
Example generic_entries_of_declaredSeven :
  forall (beyond : RegExp.engine) (w : world),
    Runs.outlines (prepareScenarioResults beyond Logs.declaredSeven w) =
      Normal [ (1, "Navigate Dashboard Tabs", "passed");
               (2, "Test Dashboard Input Controls", "passed");
               (3, "Test Dashboard Plot Interactions", "passed");
               (4, "Test Dashboard Responsiveness", "passed");
               (5, "Unknown Scenario 6", "passed");
               (6, "Unknown Scenario 7", "passed");
               (7, "Unknown Scenario 8", "passed") ].
Proof. intros beyond w. vm_compute. reflexivity. Qed.

(** C10.  Every entry that the reconciliation adds to the scenarios of the
    log comes from the pool of default names or is a generic entry, and the
    name of a generic entry is Unknown Scenario N with N the id of the entry
    plus one, which is not its id. *)
Theorem generic_name_is_id_plus_one :
  forall (total : option nat) (parsed : list scenario) (c : nat) (w : world),
  exists missing generics,
    fst (reconcile total parsed c w) = (parsed ++ missing ++ generics)%list
    /\ forallb fromPool missing = true
    /\ forallb generic generics = true.
Proof.
  intros total parsed c w.
  destruct (reconcile_shape total parsed c w) as (m & g & H1 & H2 & H3 & _).
  exists m, g. auto.
Qed.

End GenericEntries.

(** *** C4: the number of entries after the reconciliation *)

Section Reconciliation.
Import Integration Spec.

Lemma value_lift {A : Type} (c : St A) (w : world) :
  value (lift c w) = Normal (fst (c w)).
Proof. unfold lift, value. now destruct (c w). Qed.

Lemma value_Normal {A : Type} (r : completion (A * world)) (a : A) :
  value r = Normal a -> exists w', r = Normal (a, w').
Proof.
  destruct r as [[a' w'] | e]; simpl; intro H; [ | discriminate ].
  injection H as ->. now exists w'.
Qed.

Lemma createDefaultScenarios_outlines (w : world) :
  map outline (fst (createDefaultScenarios w)) = defaultOutlines.
Proof. reflexivity. Qed.

(** With no scenario of the log and no total to reach, the reconciliation
    returns the default scenarios. *)
Lemma reconcile_nothing (total : option nat) (c : nat) (w : world) :
  Nat.max (match total with Some n => n | None => 0 end) 0 = 0 ->
  map outline (fst (reconcile total [] c w)) = defaultOutlines.
Proof.
  intro H. destruct total as [[ | t] | ]; [ | cbn in H; discriminate | ]; reflexivity.
Qed.

(** C4, as the code has it.  For a log that has neither the word Scenario
    nor a declared total, prepareScenarioResults returns the four default
    scenarios, whatever else the log holds.  For every other log on which
    the scenarios are built without an exception, and whose declared total
    is one that a list can reach, it returns a list that is not empty: its
    length is the larger one of the declared total and the number of
    scenarios that the log names when that number is positive, and the four
    default scenarios are returned when it is zero. *)
Theorem reconciliation_count :
  forall (beyond : RegExp.engine) (testLog : string) (w : world),
    (noScenarioInfo testLog = true ->
     exists out,
       value (prepareScenarioResults beyond testLog w) = Normal out
       /\ map outline out = defaultOutlines)
    /\ (forall (parsed : list scenario) (c : nat),
          noScenarioInfo testLog = false ->
          reachable testLog = true ->
          value (reconstruct beyond testLog w) = Normal (parsed, c) ->
          exists out,
            value (prepareScenarioResults beyond testLog w) = Normal out
            /\ 0 < length out
            /\ (if Nat.max (declared testLog) (length parsed) =? 0
                then map outline out = defaultOutlines
                else length out = Nat.max (declared testLog) (length parsed))).
Proof.
  intros beyond testLog w. unfold prepareScenarioResults. split.
  - intros ->. exists (fst (createDefaultScenarios w)). rewrite value_lift.
    split; [ reflexivity | apply createDefaultScenarios_outlines ].
  - intros parsed c -> _ H.
    apply value_Normal in H. destruct H as [w1 H].
    unfold bindE. rewrite H. cbn [fst snd]. rewrite value_lift.
    exists (fst (reconcile (declaredTotal testLog) parsed c w1)).
    split; [ reflexivity | ].
    destruct (reconcile_shape (declaredTotal testLog) parsed c w1)
      as (m & g & H1 & _ & _ & H4).
    unfold declared. cbv zeta in H4.
    destruct (Nat.max _ (length parsed) =? 0) eqn:E.
    + split; [ rewrite H1, H4; cbn; lia | ].
      apply Nat.eqb_eq in E.
      assert (Hp : parsed = []) by (destruct parsed; [ reflexivity | cbn in E; lia ]).
      subst parsed. now apply reconcile_nothing.
    + apply Nat.eqb_neq in E. rewrite H1, H4. split; [ lia | reflexivity ].
Qed.

(** The theorem at a log without scenario vocabulary, whose one name is no
    pattern, and at the log of the concrete scenario: two scenarios are
    named, four are declared. *)
Lemma reconciliation_count_declaredFour :
  (noScenarioInfo Logs.noVocabulary = true
   /\ noScenarioInfo Logs.declaredFour = false
   /\ reachable Logs.declaredFour = true
   /\ value (reconstruct Logs.strict Logs.declaredFour Logs.ticking)
      = Normal (Logs.namedInDeclaredFour, 3))
  /\ (exists out,
        value (prepareScenarioResults Logs.strict Logs.noVocabulary Logs.ticking) = Normal out
        /\ map outline out = defaultOutlines)
  /\ (exists out,
        value (prepareScenarioResults Logs.strict Logs.declaredFour Logs.ticking) = Normal out
        /\ 0 < length out
        /\ length out = 4).
Proof.
  split; [ repeat split; vm_compute; reflexivity | ]. split.
  - apply (reconciliation_count Logs.strict Logs.noVocabulary Logs.ticking).
    vm_compute. reflexivity.
  - apply (reconciliation_count Logs.strict Logs.declaredFour Logs.ticking)
      with (parsed := Logs.namedInDeclaredFour) (c := 3);
      vm_compute; reflexivity.
Defined.

(** C4, the claim as stated, fails: [Logs.noNames] declares no total and
    names no scenario, and four entries are returned. *)
Lemma defaults_exceed_the_bound :
  declaredTotal Logs.noNames = None
  /\ forall (beyond : RegExp.engine) (w : world),
       value (reconstruct beyond Logs.noNames w) = Normal ([], 1)
       /\ exists out,
            value (prepareScenarioResults beyond Logs.noNames w) = Normal out
            /\ length out = 4
            /\ ~ length out <= Nat.max 0 (length (@nil scenario)).
Proof.
  split; [ reflexivity | ]. intros beyond w. split; [ reflexivity | ].
  eexists. split; [ vm_compute; reflexivity | ]. split; [ reflexivity | simpl; lia ].
Qed.

End Reconciliation.

(** *** C7: the average response time *)

Section AverageResponseTime.
Import Generator Integration SpecMetrics.

Lemma extractErrors_keeps (logContent : string) (fuel : nat) :
  forall (from : nat) (r : testResults) (w : world),
    let r' := fst (extractErrors logContent fuel from r w) in
    scenarios r' = scenarios r
    /\ summary_ r' = summary_ r
    /\ averageResponseTime (metrics_ r') = averageResponseTime (metrics_ r).
Proof.
  induction fuel as [ | fuel IH]; intros from r w; simpl.
  - auto.
  - destruct (RegExp.exec _ _ _) as [m | ]; [ | simpl; auto ].
    unfold bind, newDate.
    match goal with
    | |- context [extractErrors logContent fuel ?f ?r0 ?w0] =>
        destruct (IH f r0 w0) as (H1 & H2 & H3)
    end.
    rewrite H1, H2, H3. auto.
Qed.

Lemma scenarios_addScenario (sc : scenario) (r : testResults) :
  scenarios (addScenario sc r) = push (scenarios r) sc.
Proof.
  unfold addScenario.
  destruct (String.eqb (status sc) "passed"); [ reflexivity | ].
  destruct (String.eqb (status sc) "failed"); [ reflexivity | ].
  destruct (String.eqb (status sc) "warning"); reflexivity.
Qed.

Lemma scenarios_addAll (l : list scenario) :
  forall r, scenarios (fold_left (fun r sc => addScenario sc r) l r) = (scenarios r ++ l)%list.
Proof.
  induction l as [ | sc l IH]; intro r; cbn [fold_left].
  - now rewrite app_nil_r.
  - rewrite IH, scenarios_addScenario. unfold push. now rewrite <- app_assoc.
Qed.

Lemma timed_nonempty (l : list scenario) :
  (0 <? length (filter hasDuration l)) = existsb hasDuration l.
Proof.
  induction l as [ | s l IH]; simpl; [ reflexivity | ].
  destruct (hasDuration s); simpl; [ reflexivity | exact IH ].
Qed.

Lemma existsb_nonempty (l : list scenario) :
  existsb hasDuration l = true -> (0 <? length l) = true.
Proof. destruct l; simpl; [ discriminate | reflexivity ]. Qed.

(** A report of processTestLog: both dates of the run are valid,
    prepareScenarioResults has returned, and the report is the one built
    from its list. *)
Lemma processTestLog_report {readDate : dateReader} {beyond : RegExp.engine}
    (logContent : string) (w : world) (r : testResults) :
  processTestLog readDate beyond logContent w = Some r ->
  exists (w0 w1 : world) (l : list scenario),
    prepareScenarioResults beyond logContent w0 = Normal (l, w1)
    /\ r = generateSummary
             (fst (extractErrors logContent (S (String.length logContent)) 0
                     (addMetrics
                        (mkUpdate (Some (marker logContent Patterns.loadTimeRegex 3000%N))
                                  (Some (marker logContent Patterns.responseTimeRegex 500%N)))
                        (fold_left (fun r sc => addScenario sc r) l new))
                     w1)).
Proof.
  unfold processTestLog. cbn [newDate].
  destruct (timeOf readDate logContent Patterns.startTimeRegex _) as [startTime wa].
  destruct (timeOf readDate logContent Patterns.endTimeRegex wa) as [endTime wb].
  unfold setTiming. destruct startTime; [ | discriminate ]. destruct endTime; [ | discriminate ].
  destruct (prepareScenarioResults beyond logContent wb) as [[l w1] | e] eqn:E;
    [ | discriminate ].
  destruct (reachable logContent); [ cbn [negb] | discriminate ].
  intro H. exists wb, w1, l. split; [ exact E | ].
  destruct (extractErrors logContent _ 0 _ w1) as [r3 w3]. now injection H as <-.
Qed.

(** The average response time of every report of processTestLog, the case
    of a marker of zero included. *)
Lemma average_response_time_of_report {readDate : dateReader} {beyond : RegExp.engine}
    (logContent : string) (w : world) (r : testResults) :
  processTestLog readDate beyond logContent w = Some r ->
  averageResponseTime (metrics_ r) = expectedAverage logContent (scenarios r).
Proof.
  intro H. destruct (processTestLog_report logContent w r H) as (w0 & w1 & l & _ & ->).
  set (r1 := fold_left (fun r sc => addScenario sc r) l new).
  set (u := mkUpdate _ _).
  destruct (extractErrors_keeps logContent (S (String.length logContent)) 0
              (addMetrics u r1) w1) as (K1 & K2 & K3).
  destruct (extractErrors logContent _ 0 (addMetrics u r1) w1) as [r3 w3].
  simpl in K1, K2, K3. cbn [fst].
  assert (Hsc : scenarios r3 = l).
  { rewrite K1. unfold r1. now rewrite scenarios_addAll. }
  assert (Hg : scenarios (generateSummary r3) = l).
  { destruct (generateSummary_keeps r3) as [_ ->]. exact Hsc. }
  rewrite Hg.
  unfold generateSummary. rewrite K3, Hsc, timed_nonempty.
  unfold expectedAverage. unfold marker in *.
  destruct (RegExp.match_ logContent Patterns.responseTimeRegex) as [m | ].
  - destruct (JS.parseInt (capture1 m)) as [ | p] eqn:Ev.
    + cbn [N.eqb Qeq_bool inject_Z Z.of_N Qnum Qden Z.mul andb Z.eqb].
      destruct (existsb hasDuration l) eqn:Et.
      * rewrite (existsb_nonempty l Et). cbn [andb]. reflexivity.
      * cbn [andb]. destruct (0 <? length l); (rewrite K3; reflexivity).
    + change (Qeq_bool (inject_Z (Z.of_N (N.pos p))) 0) with false. cbn [andb N.eqb].
      rewrite K3. reflexivity.
  - change (Qeq_bool (inject_Z (Z.of_N 500)) 0) with false. cbn [andb].
    rewrite K3. reflexivity.
Qed.

(** generateSummary on a report whose average response time is not set. *)
Lemma generateSummary_mean (r : testResults) :
  Qeq_bool (averageResponseTime (metrics_ r)) 0 = true ->
  existsb hasDuration (scenarios r) = true ->
  averageResponseTime (metrics_ (generateSummary r)) = timedMean (scenarios r).
Proof.
  intros H0 Ht. unfold generateSummary.
  rewrite H0, (existsb_nonempty _ Ht), timed_nonempty, Ht. reflexivity.
Qed.

(** C7, as the code has it.  In every report that processTestLog builds,
    whatever the reading of dates and the engine, the average response time
    is the value of the marker when the log has one with a value other than
    zero that parseInt returns as it is written, and the default 500 when
    the log has no marker, whether or not the scenarios carry a duration.
    The mean of the durations is what generateSummary computes for a report
    whose average response time is not set. *)
Theorem average_response_time :
  (forall (readDate : dateReader) (beyond : RegExp.engine)
          (logContent : string) (w : world) (r : testResults),
     processTestLog readDate beyond logContent w = Some r ->
     (forall v, responseTimeMarker logContent = Some v -> v <> 0%N -> exact v = true ->
        averageResponseTime (metrics_ r) = inject_Z (Z.of_N v))
     /\ (responseTimeMarker logContent = None ->
           averageResponseTime (metrics_ r) = 500%Q))
  /\ (forall r : testResults,
        Qeq_bool (averageResponseTime (metrics_ r)) 0 = true ->
        existsb hasDuration (scenarios r) = true ->
        averageResponseTime (metrics_ (generateSummary r)) = timedMean (scenarios r)).
Proof.
  split; [ | exact generateSummary_mean ].
  intros readDate beyond logContent w r H.
  pose proof (average_response_time_of_report logContent w r H) as H3.
  unfold expectedAverage in H3. unfold responseTimeMarker.
  destruct (RegExp.match_ logContent Patterns.responseTimeRegex) as [m | ].
  - split; [ | discriminate ].
    intros v Hv Hnz _. injection Hv as <-.
    destruct (JS.parseInt (capture1 m)) as [ | p]; [ contradiction | exact H3 ].
  - split; [ discriminate | ]. intros _. exact H3.
Qed.

(** The theorem at [Logs.withResponseTime], whose marker gives 250, and at
    the scenarios of [Logs.declaredFour] in a report without metrics. *)
Lemma average_response_time_marker :
  (responseTimeMarker Logs.withResponseTime = Some 250%N
   /\ exists r,
        processTestLog (Logs.always 0) Logs.strict Logs.withResponseTime Logs.ticking
          = Some r
        /\ map outline (scenarios r) = map outline Logs.returnedForDeclaredFour
        /\ averageResponseTime (metrics_ r) = 250%Q)
  /\ averageResponseTime
       (metrics_ (generateSummary
                    (Spec.after (map Spec.AddScenario Logs.returnedForDeclaredFour))))
     = timedMean Logs.returnedForDeclaredFour.
Proof.
  destruct average_response_time as [Hlog Hmean]. split.
  - split; [ vm_compute; reflexivity | ].
    eexists. split; [ vm_compute; reflexivity | ]. split; [ vm_compute; reflexivity | ].
    match goal with
    | |- averageResponseTime (metrics_ ?r) = _ =>
        destruct (Hlog (Logs.always 0) Logs.strict Logs.withResponseTime Logs.ticking r)
          as [H3 _]; [ vm_compute; reflexivity | ]
    end.
    apply (H3 250%N); [ vm_compute; reflexivity | discriminate | reflexivity ].
  - apply (Hmean (Spec.after (map Spec.AddScenario Logs.returnedForDeclaredFour)));
      vm_compute; reflexivity.
Defined.

(** C7, the claim as stated, fails: [Logs.declaredFour] has no marker and
    all four scenarios of the report carry the duration 5000, so that the
    mean is 5000; the report has the default 500.  The log has no date and
    its names are inside the embedded grammar. *)
Lemma default_wins_over_the_mean :
  RegExp.match_ Logs.declaredFour Patterns.responseTimeRegex = None
  /\ forall (readDate : dateReader) (beyond : RegExp.engine),
     exists r,
       processTestLog readDate beyond Logs.declaredFour Logs.ticking = Some r
       /\ map duration (scenarios r) = [Some 5000; Some 5000; Some 5000; Some 5000]%N
       /\ (timedMean (scenarios r) == 5000)%Q
       /\ averageResponseTime (metrics_ r) = 500%Q
       /\ ~ (averageResponseTime (metrics_ r) == timedMean (scenarios r))%Q.
Proof.
  split; [ vm_compute; reflexivity | ]. intros readDate beyond.
  eexists. split; [ vm_compute; reflexivity | ].
  repeat split; try (vm_compute; reflexivity).
  vm_compute. discriminate.
Qed.

(** **** The summary of the reports of processTestLog

    The function of report-integration.js gives every scenario one of the
    three final statuses, so that the sum holds in the reports that
    processTestLog builds. *)

Lemma counted_push (l : list scenario) (s : scenario) :
  forallb Spec.counted l = true -> Spec.counted s = true ->
  forallb Spec.counted (push l s) = true.
Proof.
  intros Hl Hs. unfold push. rewrite forallb_app, Hl. simpl. now rewrite Hs.
Qed.

Lemma defaultsFrom_counted (names : list string) :
  forall (i : nat) (w : world),
    forallb Spec.counted (fst (defaultsFrom names i w)) = true.
Proof.
  induction names as [ | n names IH]; intros i w; simpl.
  - reflexivity.
  - unfold bind, newDate. specialize (IH (S i) (fun k => w (S (S k)))).
    destruct (defaultsFrom names (S i) _) as [more w']. simpl in *. exact IH.
Qed.

Lemma namedScenario_counted {beyond : RegExp.engine}
    (testLog nm : string) (c : nat) (w w' : world) (s : scenario) :
  namedScenario beyond testLog nm c w = Normal (s, w') -> Spec.counted s = true.
Proof.
  unfold namedScenario, bindE.
  destruct (matchEither beyond testLog _ _ w) as [[isCompleted w1] | e]; [ | discriminate ].
  destruct (matchEither beyond testLog _ _ w1) as [[failedMatch w2] | e]; [ | discriminate ].
  unfold lift, newDate, retE. intro H. injection H as <- _.
  destruct failedMatch, isCompleted; reflexivity.
Qed.

Lemma namedScenarios_counted {beyond : RegExp.engine} (testLog : string) (names : list string) :
  forall (acc : list scenario) (c : nat) (w w' : world) (l : list scenario) (c' : nat),
    forallb Spec.counted acc = true ->
    namedScenarios beyond testLog names acc c w = Normal (l, c', w') ->
    forallb Spec.counted l = true.
Proof.
  induction names as [ | nm names IH]; intros acc c w w' l c' Hacc H; simpl in H.
  - unfold retE in H. injection H as <- _ _. exact Hacc.
  - unfold bindE in H.
    destruct (namedScenario beyond testLog nm c w) as [[s w1] | e] eqn:E; [ | discriminate ].
    apply (IH _ _ _ _ _ _ (counted_push acc s Hacc (namedScenario_counted _ _ _ _ _ _ E)) H).
Qed.

Lemma addMissing_counted (pool known : list string) (t : nat) :
  forall (acc : list scenario) (c : nat) (w : world),
    forallb Spec.counted acc = true ->
    forallb Spec.counted (fst (fst (addMissing pool known t acc c w))) = true.
Proof.
  induction pool as [ | nm pool IH]; intros acc c w Hacc; simpl.
  - exact Hacc.
  - destruct (negb (existsb (String.eqb nm) known)); [ | now apply IH ].
    unfold bind, newDate.
    match goal with
    | |- context [push acc ?s] =>
        assert (Hp : forallb Spec.counted (push acc s) = true)
          by (apply counted_push; [ exact Hacc | reflexivity ])
    end.
    destruct (t <=? length (push acc _)); [ exact Hp | now apply IH ].
Qed.

Lemma addGeneric_counted (fuel t : nat) :
  forall (acc : list scenario) (c : nat) (w : world),
    forallb Spec.counted acc = true ->
    forallb Spec.counted (fst (fst (addGeneric fuel t acc c w))) = true.
Proof.
  induction fuel as [ | fuel IH]; intros acc c w Hacc; simpl.
  - exact Hacc.
  - destruct (length acc <? t); [ | exact Hacc ].
    unfold bind, newDate. apply IH. apply counted_push; [ exact Hacc | reflexivity ].
Qed.

Lemma reconcile_counted (total : option nat) (parsed : list scenario) (c : nat) (w : world) :
  forallb Spec.counted parsed = true ->
  forallb Spec.counted (fst (reconcile total parsed c w)) = true.
Proof.
  intro Hp. unfold reconcile, bind.
  assert (Hfilled : forallb Spec.counted (fst (topUp total parsed c w)) = true).
  { unfold topUp. destruct total as [t | ]; [ | exact Hp ].
    destruct (length parsed <? t); [ | exact Hp ].
    unfold bind.
    pose proof (addMissing_counted defaultNames (map name parsed) t parsed c w Hp) as H1.
    destruct (addMissing defaultNames (map name parsed) t parsed c w) as [[l1 c1] w1].
    simpl in H1. simpl fst. simpl snd.
    pose proof (addGeneric_counted (t - length l1) t l1 c1 w1 H1) as H2.
    destruct (addGeneric (t - length l1) t l1 c1 w1) as [[l2 c2] w2]. exact H2. }
  destruct (topUp total parsed c w) as [filled w1].
  simpl in Hfilled. destruct (length filled =? 0).
  - apply defaultsFrom_counted.
  - exact Hfilled.
Qed.

Lemma integration_statuses {beyond : RegExp.engine}
    (testLog : string) (w : world) (l : list scenario) :
  value (prepareScenarioResults beyond testLog w) = Normal l ->
  forallb Spec.counted l = true.
Proof.
  unfold prepareScenarioResults. destruct (noScenarioInfo testLog).
  - rewrite value_lift. intro H. injection H as <-.
    apply (defaultsFrom_counted defaultNames 1 w).
  - unfold bindE, reconstruct.
    destruct (namedScenarios beyond testLog (scenarioNames testLog) [] 1 w)
      as [[[parsed c] w1] | e] eqn:E; [ | discriminate ].
    rewrite value_lift. intro H. injection H as <-.
    apply reconcile_counted.
    exact (namedScenarios_counted testLog _ [] 1 w w1 parsed c eq_refl E).
Qed.

Lemma fold_addScenario (l : list scenario) :
  forall r, fold_left Spec.perform (map Spec.AddScenario l) r
            = fold_left (fun r sc => addScenario sc r) l r.
Proof. induction l as [ | s l IH]; intro r; simpl; [ reflexivity | apply IH ]. Qed.

Lemma processTestLog_summary {readDate : dateReader} {beyond : RegExp.engine}
    (logContent : string) (w : world) (r : testResults) :
  processTestLog readDate beyond logContent w = Some r ->
  total (summary_ r) = passed (summary_ r) + failed (summary_ r) + warning (summary_ r).
Proof.
  intro H. destruct (processTestLog_report logContent w r H) as (w0 & w1 & l & E & ->).
  assert (Hc : forallb Spec.counted l = true)
    by (apply (integration_statuses (beyond := beyond) logContent w0); now rewrite E).
  set (r1 := fold_left (fun r sc => addScenario sc r) l new).
  set (u := mkUpdate _ _).
  destruct (extractErrors_keeps logContent (S (String.length logContent)) 0
              (addMetrics u r1) w1) as (K1 & K2 & _).
  destruct (extractErrors logContent _ 0 (addMetrics u r1) w1) as [r3 w3].
  simpl in K1, K2. cbn [fst].
  destruct (generateSummary_keeps r3) as [-> _]. rewrite K2.
  pose proof (fold_perform_balanced (map Spec.AddScenario l) new eq_refl) as B.
  rewrite fold_addScenario in B. fold r1 in B. unfold Spec.balanced in B.
  unfold r1 in B at 5. rewrite scenarios_addAll in B. simpl in B.
  assert (U : Spec.uncounted l = 0).
  { unfold Spec.uncounted. clear - Hc. induction l as [ | s l IH]; [ reflexivity | ].
    simpl in Hc. apply andb_true_iff in Hc. destruct Hc as [Hs Hl].
    simpl. rewrite Hs. simpl. now apply IH. }
  rewrite U in B. lia.
Qed.

End AverageResponseTime.

(** *** C9: two runs over one log *)

Section TwoRuns.
Import Runs.

Lemma similar_push (l1 l2 : list scenario) (s1 s2 : scenario) :
  similar l1 l2 -> outline s1 = outline s2 -> similar (push l1 s1) (push l2 s2).
Proof.
  unfold similar, push. intros H1 H2. rewrite !map_app. simpl. now rewrite H1, H2.
Qed.

Lemma similar_length (l1 l2 : list scenario) :
  similar l1 l2 -> length l1 = length l2.
Proof.
  unfold similar. intro H. rewrite <- (length_map outline l1), H. apply length_map.
Qed.

Lemma similar_names (l1 l2 : list scenario) :
  similar l1 l2 -> map name l1 = map name l2.
Proof.
  unfold similar. intro H.
  assert (E : forall l, map name l = map (fun o => snd (fst o)) (map outline l))
    by (intro l; rewrite map_map; reflexivity).
  now rewrite (E l1), (E l2), H.
Qed.

Lemma agreeSt_bind {A B : Type} (R : A -> A -> Prop) (S : B -> B -> Prop)
    (c1 c2 : St A) (k1 k2 : A -> St B) (w1 w2 : world) :
  agreeSt R (c1 w1) (c2 w2) ->
  (forall a1 a2 v1 v2, R a1 a2 -> agreeSt S (k1 a1 v1) (k2 a2 v2)) ->
  agreeSt S (bind c1 k1 w1) (bind c2 k2 w2).
Proof.
  unfold agreeSt, bind. intros H K.
  destruct (c1 w1) as [a1 v1], (c2 w2) as [a2 v2]. simpl in H. now apply K.
Qed.

Lemma agree_bind {A B : Type} (R : A -> A -> Prop) (S : B -> B -> Prop)
    (c1 c2 : Ex A) (k1 k2 : A -> Ex B) (w1 w2 : world) :
  agree R (c1 w1) (c2 w2) ->
  (forall a1 a2 v1 v2, R a1 a2 -> agree S (k1 a1 v1) (k2 a2 v2)) ->
  agree S (bindE c1 k1 w1) (bindE c2 k2 w2).
Proof.
  unfold agree, bindE. intros H K.
  destruct (c1 w1) as [[a1 v1] | e1], (c2 w2) as [[a2 v2] | e2]; try contradiction.
  - now apply K.
  - exact H.
Qed.

Lemma agree_lift {A : Type} (R : A -> A -> Prop) (c1 c2 : St A) (w1 w2 : world) :
  agreeSt R (c1 w1) (c2 w2) -> agree R (lift c1 w1) (lift c2 w2).
Proof. unfold agree, agreeSt, lift. now destruct (c1 w1), (c2 w2). Qed.

Lemma agree_outlines (r1 r2 : completion (list scenario * world)) :
  agree similar r1 r2 -> outlines r1 = outlines r2.
Proof.
  unfold agree, outlines, similar.
  destruct r1 as [[l1 v1] | e1], r2 as [[l2 v2] | e2]; try contradiction; intro H; now rewrite H.
Qed.

Lemma defaultsFrom_similar (names : list string) :
  forall (i : nat) (w1 w2 : world),
    agreeSt similar (Generator.defaultsFrom names i w1) (Generator.defaultsFrom names i w2).
Proof.
  induction names as [ | n names IH]; intros i w1 w2; simpl.
  - reflexivity.
  - unfold bind, newDate. specialize (IH (S i) (fun k => w1 (S (S k))) (fun k => w2 (S (S k)))).
    unfold agreeSt in *.
    destruct (Generator.defaultsFrom names (S i) _) as [m1 v1].
    destruct (Generator.defaultsFrom names (S i) _) as [m2 v2].
    simpl in *. unfold similar in *. simpl. now rewrite IH.
Qed.

(** **** The state machine of the generator *)

Lemma outline_fields (s1 s2 : scenario) :
  outline s1 = outline s2 -> id s1 = id s2 /\ name s1 = name s2 /\ status s1 = status s2.
Proof. unfold outline. intro H. now inversion H. Qed.

Lemma current_outline (c1 c2 : scenario) :
  option_map outline (Some c1) = option_map outline (Some c2) -> outline c1 = outline c2.
Proof.
  intro H.
  exact (f_equal (fun o => match o with Some x => x | None => outline c1 end) H).
Qed.

Lemma processLine_similar (line : string) (st1 st2 : Generator.parserState) (w1 w2 : world) :
  similarState st1 st2 ->
  agreeSt similarState (Generator.processLine line st1 w1) (Generator.processLine line st2 w2).
Proof.
  intros (Hc & Hcur & Hid). unfold Generator.processLine, agreeSt.
  destruct (RegExp.match_ line Patterns.scenarioStartRegex) as [startMatch | ].
  - unfold bind, newDate, ret. simpl. unfold similarState. simpl. rewrite Hid.
    repeat split.
    destruct (Generator.currentScenario st1) as [c1 | ],
             (Generator.currentScenario st2) as [c2 | ]; try discriminate.
    + apply similar_push; [ exact Hc | ]. now apply current_outline.
    + exact Hc.
  - destruct (Generator.currentScenario st1) as [c1 | ] eqn:E1,
             (Generator.currentScenario st2) as [c2 | ] eqn:E2; try discriminate.
    2: { simpl. unfold similarState. rewrite E1, E2. auto. }
    assert (Ho : outline c1 = outline c2) by now apply current_outline.
    destruct (outline_fields c1 c2 Ho) as (Ei & En & Es).
    unfold Generator.accepted, Generator.belongsTo. rewrite <- En.
    destruct (match orElse _ _ with Some _ => _ | None => false end).
    { unfold bind, newDate, ret. simpl. unfold similarState, outline. simpl.
      rewrite Ei, Hid. auto. }
    destruct (match RegExp.match_ line Patterns.scenarioFailedRegex with
              | Some _ => _ | None => false end).
    { unfold bind, newDate, ret. simpl. unfold similarState, outline. simpl.
      rewrite Ei, Hid. auto. }
    destruct (RegExp.match_ line Patterns.warningRegex).
    + unfold ret. simpl. unfold similarState, outline. simpl. rewrite Ei, Es, Hid. auto.
    + unfold ret. simpl. unfold similarState. rewrite E1, E2. simpl. rewrite Ho. auto.
Qed.

Lemma processLines_similar (lines : list string) :
  forall (st1 st2 : Generator.parserState) (w1 w2 : world),
    similarState st1 st2 ->
    agreeSt similarState (Generator.processLines lines st1 w1)
                         (Generator.processLines lines st2 w2).
Proof.
  induction lines as [ | line lines IH]; intros st1 st2 w1 w2 H; simpl.
  - exact H.
  - apply (agreeSt_bind similarState similarState).
    + now apply processLine_similar.
    + intros a1 a2 v1 v2 Ha. now apply IH.
Qed.

Lemma finish_similar (st1 st2 : Generator.parserState) (w1 w2 : world) :
  similarState st1 st2 ->
  agreeSt similar (Generator.finish st1 w1) (Generator.finish st2 w2).
Proof.
  intros (Hc & Hcur & Hid). unfold Generator.finish, agreeSt.
  destruct (Generator.currentScenario st1) as [c1 | ],
           (Generator.currentScenario st2) as [c2 | ]; try discriminate.
  - assert (Ho : outline c1 = outline c2) by now apply current_outline.
    destruct (outline_fields c1 c2 Ho) as (Ei & En & Es). rewrite <- Es.
    destruct (String.eqb (status c1) "running").
    + unfold bind, newDate, ret. simpl. apply similar_push; [ exact Hc | ].
      unfold outline. simpl. now rewrite Ei, En.
    + unfold ret. simpl. now apply similar_push.
  - exact Hc.
Qed.

Lemma generator_similar (testLog : string) (w1 w2 : world) :
  agreeSt similar (Generator.prepareScenarioResults testLog w1)
                  (Generator.prepareScenarioResults testLog w2).
Proof.
  unfold Generator.prepareScenarioResults.
  destruct (String.eqb testLog EmptyString); [ apply defaultsFrom_similar | ].
  destruct (String.length testLog <? 300); [ apply defaultsFrom_similar | ].
  destruct (length _ =? 0); [ apply defaultsFrom_similar | ].
  apply (agreeSt_bind similarState similar).
  - apply processLines_similar. repeat split.
  - intros st1 st2 v1 v2 Hst.
    apply (agreeSt_bind similar similar).
    + now apply finish_similar.
    + intros l1 l2 u1 u2 Hl. rewrite (similar_length l1 l2 Hl).
      destruct (length l2 =? 0); [ apply defaultsFrom_similar | exact Hl ].
Qed.

(** **** The function of report-integration.js *)

Lemma matchNew_pure {beyond : RegExp.engine} (testLog p : string) :
  exists r : completion (option RegExp.match_result),
    forall w, Integration.matchNew beyond testLog p w =
              match r with Normal m => Normal (m, w) | Throw e => Throw e end.
Proof.
  unfold Integration.matchNew. destruct (RegExp.RegExp_new p) as [re | | ].
  - now exists (Normal (RegExp.match_ testLog re)).
  - now exists (Throw (SyntaxError p)).
  - destruct (beyond p) as [ | match_with].
    + now exists (Throw (SyntaxError p)).
    + now exists (Normal (match_with testLog)).
Qed.

Lemma matchEither_pure {beyond : RegExp.engine} (testLog p1 p2 : string) :
  exists r : completion (option RegExp.match_result),
    forall w, Integration.matchEither beyond testLog p1 p2 w =
              match r with Normal m => Normal (m, w) | Throw e => Throw e end.
Proof.
  unfold Integration.matchEither, bindE.
  destruct (matchNew_pure (beyond := beyond) testLog p1) as [[m1 | e1] H1].
  - destruct m1 as [m | ].
    + exists (Normal (Some m)). intro w. now rewrite H1.
    + destruct (matchNew_pure (beyond := beyond) testLog p2) as [r2 H2].
      exists r2. intro w. rewrite H1. apply H2.
  - exists (Throw e1). intro w. now rewrite H1.
Qed.

Lemma namedScenario_agree {beyond : RegExp.engine}
    (testLog nm : string) (c : nat) (w1 w2 : world) :
  agree (fun s1 s2 => outline s1 = outline s2)
        (Integration.namedScenario beyond testLog nm c w1)
        (Integration.namedScenario beyond testLog nm c w2).
Proof.
  unfold Integration.namedScenario, bindE.
  destruct (matchEither_pure (beyond := beyond) testLog
              ("Scenario " ++ JS.quoted nm ++ " completed successfully")
              (nm ++ " completed successfully")) as [[isCompleted | e1] H1];
    rewrite !H1; [ | reflexivity ].
  destruct (matchEither_pure (beyond := beyond) testLog
              ("Scenario " ++ JS.quoted nm ++ " failed: (.*)")
              (nm ++ " failed: (.*)")) as [[failedMatch | e2] H2];
    rewrite !H2; [ | reflexivity ].
  reflexivity.
Qed.

Lemma namedScenarios_agree {beyond : RegExp.engine} (testLog : string) (names : list string) :
  forall (acc1 acc2 : list scenario) (c : nat) (w1 w2 : world),
    similar acc1 acc2 ->
    agree similarAcc (Integration.namedScenarios beyond testLog names acc1 c w1)
                     (Integration.namedScenarios beyond testLog names acc2 c w2).
Proof.
  induction names as [ | nm names IH]; intros acc1 acc2 c w1 w2 H; simpl.
  - split; [ exact H | reflexivity ].
  - apply (agree_bind (fun s1 s2 => outline s1 = outline s2) similarAcc).
    + apply namedScenario_agree.
    + intros s1 s2 v1 v2 Hs. apply IH. now apply similar_push.
Qed.

Lemma addMissing_agree (pool known : list string) (t : nat) :
  forall (acc1 acc2 : list scenario) (c : nat) (w1 w2 : world),
    similar acc1 acc2 ->
    agreeSt similarAcc (Integration.addMissing pool known t acc1 c w1)
                       (Integration.addMissing pool known t acc2 c w2).
Proof.
  induction pool as [ | nm pool IH]; intros acc1 acc2 c w1 w2 H; simpl.
  - split; [ exact H | reflexivity ].
  - destruct (negb (existsb (String.eqb nm) known)); [ | now apply IH ].
    unfold bind, newDate.
    match goal with
    | |- agreeSt _ ((if _ <=? length (push _ ?s1) then _ else _) _)
                   ((if _ <=? length (push _ ?s2) then _ else _) _) =>
        assert (Hp : similar (push acc1 s1) (push acc2 s2))
          by (apply similar_push; [ exact H | reflexivity ])
    end.
    rewrite (similar_length _ _ Hp).
    destruct (t <=? length (push acc2 _)).
    + split; [ exact Hp | reflexivity ].
    + now apply IH.
Qed.

Lemma addGeneric_agree (fuel t : nat) :
  forall (acc1 acc2 : list scenario) (c : nat) (w1 w2 : world),
    similar acc1 acc2 ->
    agreeSt similarAcc (Integration.addGeneric fuel t acc1 c w1)
                       (Integration.addGeneric fuel t acc2 c w2).
Proof.
  induction fuel as [ | fuel IH]; intros acc1 acc2 c w1 w2 H; simpl.
  - split; [ exact H | reflexivity ].
  - rewrite (similar_length _ _ H). destruct (length acc2 <? t).
    + unfold bind, newDate. apply IH. apply similar_push; [ exact H | reflexivity ].
    + split; [ exact H | reflexivity ].
Qed.

Lemma reconcile_agree (total : option nat) (l1 l2 : list scenario) (c : nat) (w1 w2 : world) :
  similar l1 l2 ->
  agreeSt similar (Integration.reconcile total l1 c w1) (Integration.reconcile total l2 c w2).
Proof.
  intro H. unfold Integration.reconcile.
  apply (agreeSt_bind similar similar).
  - unfold Integration.topUp. destruct total as [t | ]; [ | exact H ].
    rewrite (similar_length _ _ H), (similar_names _ _ H).
    destruct (length l2 <? t); [ | exact H ].
    apply (agreeSt_bind similarAcc similar).
    + now apply addMissing_agree.
    + intros [m1 c1] [m2 c2] v1 v2 [Hm Hc]. simpl in Hm, Hc. subst c2.
      apply (agreeSt_bind similarAcc similar).
      * simpl. rewrite (similar_length _ _ Hm). now apply addGeneric_agree.
      * intros r1 r2 u1 u2 [Hr _]. exact Hr.
  - intros f1 f2 v1 v2 Hf. rewrite (similar_length _ _ Hf).
    destruct (length f2 =? 0); [ apply defaultsFrom_similar | exact Hf ].
Qed.

Lemma integration_agree {beyond : RegExp.engine} (testLog : string) (w1 w2 : world) :
  agree similar (Integration.prepareScenarioResults beyond testLog w1)
                (Integration.prepareScenarioResults beyond testLog w2).
Proof.
  unfold Integration.prepareScenarioResults.
  destruct (Integration.noScenarioInfo testLog).
  - apply agree_lift, defaultsFrom_similar.
  - apply (agree_bind similarAcc similar).
    + apply namedScenarios_agree. reflexivity.
    + intros [l1 c1] [l2 c2] v1 v2 [Hl Hc]. simpl in Hl, Hc. subst c2.
      apply agree_lift. simpl. now apply reconcile_agree.
Qed.

(** C9.  Two calls of prepareScenarioResults on one log, at whatever times,
    give lists with the same sequence of id, name and status.  This holds
    for the state machine of the generator and for the function of
    report-integration.js, where the two calls may also end in the same
    exception.  It holds for every log, whatever characters its scenario
    names have: what the RegExp constructor and the matcher do with the
    patterns outside the embedded grammar is the engine [beyond], which is
    the same in both calls, and the statement is for every such engine. *)
Theorem same_outlines_on_every_run :
  forall (beyond : RegExp.engine) (testLog : string) (w1 w2 : world),
    map outline (fst (Generator.prepareScenarioResults testLog w1))
      = map outline (fst (Generator.prepareScenarioResults testLog w2))
    /\ outlines (Integration.prepareScenarioResults beyond testLog w1)
       = outlines (Integration.prepareScenarioResults beyond testLog w2).
Proof.
  intros beyond testLog w1 w2. split.
  - apply generator_similar.
  - apply agree_outlines, integration_agree.
Qed.

End TwoRuns.

(** *** C8: the errors of the log *)

Section Errors.
Import RegExp SpecErrors.

Lemma startsWithCI_length (p : string) :
  forall x, startsWithCI p x = true ->
    String.length (JS.drop (String.length p) x) + String.length p = String.length x.
Proof.
  induction p as [ | c p IH]; intros x H; simpl in *.
  - destruct x; simpl; lia.
  - destruct x as [ | a x]; [ discriminate | ].
    apply andb_true_iff in H. destruct H as [_ H]. specialize (IH x H). simpl. lia.
Qed.

Lemma compile_lit (p : string) :
  forall (x : string) (cap : captures) (k : continuation),
    compile true (lit p) x cap k =
      if startsWithCI p x then k (JS.drop (String.length p) x) cap else None.
Proof.
  induction p as [ | c p IH]; intros x cap k.
  - simpl. now destruct x.
  - destruct p as [ | c' p'].
    + cbn [lit compile startsWithCI String.length JS.drop].
      destruct x as [ | a x]; [ reflexivity | ].
      destruct (char_eq true c a); cbn [andb]; [ now destruct x | reflexivity ].
    + change (lit (String c (String c' p'))) with (Seq (Chr c) (lit (String c' p'))).
      cbn [compile]. destruct x as [ | a x]; [ reflexivity | ].
      cbn [startsWithCI]. destruct (char_eq true c a); [ | reflexivity ].
      rewrite IH. reflexivity.
Qed.

Lemma take_length (n : nat) : forall x, n <= String.length x -> String.length (JS.take n x) = n.
Proof.
  induction n as [ | n IH]; intros x H; simpl.
  - now destruct x.
  - destruct x as [ | a x]; simpl in *; [ lia | ]. rewrite IH; lia.
Qed.

(** One attempt of the error pattern at the start of [x]. *)
Lemma compile_errorRegex (x : string) :
  compile true (pattern Patterns.errorRegex) x [] (fun y cap => Some (y, cap)) =
    if startsWithCI "Error:" x then Some (JS.drop 6 x, [])
    else if startsWithCI "failed:" x then Some (JS.drop 7 x, [])
    else None.
Proof.
  change (pattern Patterns.errorRegex) with (Alt (lit "Error:") (lit "failed:")).
  cbn [compile]. rewrite !compile_lit.
  destruct (startsWithCI "Error:" x); [ reflexivity | ].
  destruct (startsWithCI "failed:" x); reflexivity.
Qed.

Lemma char_eq_canon (c a : ascii) :
  char_eq true c a = true -> canonicalize a = canonicalize c.
Proof. unfold char_eq. intro H. apply Ascii.eqb_eq in H. now symmetry. Qed.

Lemma startsWithCI_cons (c : ascii) (p : string) (a : ascii) (x : string) :
  startsWithCI (String c p) (String a x) = char_eq true c a && startsWithCI p x.
Proof. reflexivity. Qed.

Ltac split_prefix H :=
  repeat match type of H with
         | startsWithCI (String _ _) ?x = true =>
             let a := fresh "a" in
             let E := fresh "E" in
             destruct x as [ | a x]; [ discriminate H | ];
             rewrite startsWithCI_cons in H; apply andb_true_iff in H;
             destruct H as [E H]; apply char_eq_canon in E
         end.

Ltac no_occurrence :=
  unfold occursAt; cbn [startsWithCI]; unfold char_eq;
  repeat match goal with
         | E : canonicalize ?a = _ |- _ => rewrite E; clear E
         end;
  vm_compute; reflexivity.

(** After a match, no other match starts inside it. *)
Lemma no_overlap_Error (x : string) (i : nat) :
  startsWithCI "Error:" x = true ->
  occurrences x i = (i :: occurrences (JS.drop 6 x) (i + 6))%list.
Proof.
  intro H. assert (Hx := H). split_prefix H.
  cbn [occurrences JS.drop]. unfold occursAt at 1. rewrite Hx. cbn [orb app].
  replace (i + 6) with (S (S (S (S (S (S i)))))) by lia.
  f_equal.
  repeat match goal with
         | |- context [occursAt (String ?a ?y)] =>
             replace (occursAt (String a y)) with false by (symmetry; no_occurrence)
         end.
  reflexivity.
Qed.

Lemma no_overlap_failed (x : string) (i : nat) :
  startsWithCI "failed:" x = true ->
  occurrences x i = (i :: occurrences (JS.drop 7 x) (i + 7))%list.
Proof.
  intro H. assert (Hx := H). split_prefix H.
  cbn [occurrences JS.drop]. unfold occursAt at 1. rewrite Hx, orb_true_r. cbn [app].
  replace (i + 7) with (S (S (S (S (S (S (S i))))))) by lia.
  f_equal.
  repeat match goal with
         | |- context [occursAt (String ?a ?y)] =>
             replace (occursAt (String a y)) with false by (symmetry; no_occurrence)
         end.
  reflexivity.
Qed.

Lemma search_unfold (re : regexp) (x : string) (i : nat) :
  search re x i =
    match compile (ignoreCase re) (pattern re) x (repeat None (nCaptures re))
            (fun y cap => Some (y, cap)) with
    | Some (y, cap) =>
        Some (mkMatch i (consumed x y) cap (i + String.length (consumed x y)))
    | None =>
        match x with
        | String _ x' => search re x' (S i)
        | EmptyString => None
        end
    end.
Proof. destruct x; reflexivity. Qed.

Lemma consumed_prefix (p x : string) :
  startsWithCI p x = true ->
  String.length (consumed x (JS.drop (String.length p) x)) = String.length p.
Proof.
  intro H. pose proof (startsWithCI_length p x H) as L.
  unfold consumed. rewrite take_length; lia.
Qed.

(** The search finds the first occurrence, and the next search starts after
    every position at which another occurrence could start. *)
Lemma search_errorRegex (x : string) :
  forall i : nat,
    match search Patterns.errorRegex x i with
    | None => occurrences x i = []
    | Some m =>
        exists k len,
          index m = i + k /\ lastIndex m = i + k + len
          /\ k + len <= String.length x /\ 0 < len
          /\ occurrences x i = ((i + k) :: occurrences (JS.drop (k + len) x) (i + k + len))%list
    end.
Proof.
  induction x as [ | a x IH]; intro i; rewrite search_unfold;
    change (ignoreCase Patterns.errorRegex) with true;
    change (repeat None (nCaptures Patterns.errorRegex)) with (@nil (option string));
    rewrite compile_errorRegex.
  - reflexivity.
  - destruct (startsWithCI "Error:" (String a x)) eqn:E1.
    { exists 0, 6. pose proof (startsWithCI_length _ _ E1) as L.
      pose proof (consumed_prefix "Error:" _ E1) as C.
      change (String.length "Error:") with 6 in *. cbn [index lastIndex]. rewrite C.
      rewrite !Nat.add_0_r. repeat split; try lia.
      now apply no_overlap_Error. }
    destruct (startsWithCI "failed:" (String a x)) eqn:E2.
    { exists 0, 7. pose proof (startsWithCI_length _ _ E2) as L.
      pose proof (consumed_prefix "failed:" _ E2) as C.
      change (String.length "failed:") with 7 in *. cbn [index lastIndex]. rewrite C.
      rewrite !Nat.add_0_r. repeat split; try lia.
      now apply no_overlap_failed. }
    specialize (IH (S i)). destruct (search Patterns.errorRegex x (S i)) as [m | ].
    + destruct IH as (k & len & H1 & H2 & H3 & H4 & H5).
      exists (S k), len. cbn [String.length]. repeat split; try lia.
      cbn [occurrences]. unfold occursAt. rewrite E1, E2. cbn [orb app].
      rewrite H5. cbn [Nat.add JS.drop].
      replace (i + S k) with (S i + k) by lia. reflexivity.
    + cbn [occurrences]. unfold occursAt. rewrite E1, E2. exact IH.
Qed.

(** The line of an occurrence, as the loop cuts it out. *)
Lemma upToLF_take (x : string) :
  JS.take (String.length (upToLF x)) x = upToLF x.
Proof.
  induction x as [ | a x IH]; simpl; [ reflexivity | ].
  destruct (Ascii.eqb a JS.LF); simpl; [ reflexivity | now rewrite IH ].
Qed.

Lemma upToLF_length (x : string) : String.length (upToLF x) <= String.length x.
Proof.
  induction x as [ | a x IH]; simpl; [ lia | ].
  destruct (Ascii.eqb a JS.LF); simpl; lia.
Qed.

Lemma prefix_LF (a : ascii) (x : string) :
  prefix (String JS.LF EmptyString) (String a x) = Ascii.eqb a JS.LF.
Proof.
  cbn [prefix]. destruct (ascii_dec JS.LF a) as [E | E].
  - subst a. rewrite Ascii.eqb_refl. now destruct x.
  - symmetry. apply Ascii.eqb_neq. congruence.
Qed.

Lemma indexOfFrom_LF (x : string) :
  forall i : nat,
    JS.indexOfFrom (String JS.LF EmptyString) x i =
      if JS.includes x (String JS.LF EmptyString)
      then Some (i + String.length (upToLF x)) else None.
Proof.
  unfold JS.includes.
  induction x as [ | a x IH]; intro i.
  - reflexivity.
  - cbn [JS.indexOfFrom upToLF]. rewrite prefix_LF.
    destruct (Ascii.eqb a JS.LF).
    + cbn [String.length]. now rewrite Nat.add_0_r.
    + rewrite (IH (S i)), (IH 1).
      destruct (JS.indexOfFrom _ x 0); cbn [String.length]; [ f_equal; lia | reflexivity ].
Qed.

Lemma drop_length (n : nat) :
  forall x, String.length (JS.drop n x) = String.length x - n.
Proof.
  induction n as [ | n IH]; intro x; simpl.
  - lia.
  - destruct x as [ | a x]; simpl; [ reflexivity | apply IH ].
Qed.

Lemma errorLine_spec (logContent : string) (i : nat) :
  i <= String.length logContent ->
  lineBreakAfter logContent i = true ->
  JS.substring logContent (Z.of_nat i)
    (JS.indexOf logContent (String JS.LF EmptyString) i)
  = upToLF (JS.drop i logContent).
Proof.
  unfold lineBreakAfter, JS.indexOf, JS.substring. intros Hi Hlf.
  rewrite indexOfFrom_LF, Hlf.
  pose proof (upToLF_length (JS.drop i logContent)) as L. rewrite drop_length in L.
  rewrite !Nat2Z.id.
  replace (Nat.min i (String.length logContent)) with i by lia.
  set (k := String.length (upToLF (JS.drop i logContent))) in *.
  replace (Nat.min (i + k) (String.length logContent)) with (i + k) by lia.
  replace (Nat.max i (i + k) - Nat.min i (i + k)) with k by lia.
  replace (Nat.min i (i + k)) with i by lia.
  apply upToLF_take.
Qed.

Lemma drop_drop (n m : nat) :
  forall x, JS.drop n (JS.drop m x) = JS.drop (m + n) x.
Proof.
  induction m as [ | m IH]; intro x; simpl.
  - now destruct n, x.
  - destruct x as [ | a x]; simpl; [ now destruct n | apply IH ].
Qed.

(** The loop appends the expected record of every occurrence from [from]
    on, in order. *)
Lemma extractErrors_spec (logContent : string) (fuel : nat) :
  forall (from : nat) (r : Generator.testResults) (w : world),
    from <= String.length logContent ->
    String.length logContent - from < fuel ->
    forallb (lineBreakAfter logContent) (occurrences (JS.drop from logContent) from) = true ->
    map describe
        (Generator.errors (Generator.metrics_
           (fst (Integration.extractErrors logContent fuel from r w))))
    = (map describe (Generator.errors (Generator.metrics_ r))
       ++ map (expectedError logContent) (occurrences (JS.drop from logContent) from))%list.
Proof.
  induction fuel as [ | fuel IH]; intros from r w Hfrom Hfuel Hlf; [ lia | ].
  cbn [Integration.extractErrors]. unfold exec.
  replace (String.length logContent <? from) with false
    by (symmetry; apply Nat.ltb_ge; lia).
  pose proof (search_errorRegex (JS.drop from logContent) from) as Hs.
  destruct (search Patterns.errorRegex (JS.drop from logContent) from) as [m | ].
  - destruct Hs as (k & len & H1 & H2 & H3 & H4 & H5).
    rewrite drop_length in H3. rewrite H5 in Hlf |- *.
    cbn [forallb] in Hlf. apply andb_true_iff in Hlf. destruct Hlf as [Hlf1 Hlf2].
    unfold bind, newDate. rewrite H1, H2.
    rewrite IH.
    + cbn [Generator.addError Generator.metrics_ Generator.errors]. unfold push.
      rewrite map_app, <- app_assoc. f_equal. cbn [map app].
      rewrite drop_drop.
      replace (from + (k + len)) with (from + k + len) by lia.
      f_equal. unfold describe, expectedError. cbn [Generator.message Generator.scenario_].
      rewrite errorLine_spec; [ reflexivity | lia | exact Hlf1 ].
    + lia.
    + lia.
    + rewrite drop_drop in Hlf2.
      replace (from + (k + len)) with (from + k + len) in Hlf2 by lia. exact Hlf2.
  - rewrite Hs. cbn [map]. now rewrite app_nil_r.
Qed.

(** C8, as the code has it.  When a line break follows every occurrence of
    Error: or failed: (letter case apart), the loop of processTestLog appends
    one record per occurrence, in order: its message is the text from the
    occurrence up to the next line break with the white space at both ends
    removed, its scenario is Unknown. *)
Theorem one_error_per_occurrence :
  forall (logContent : string) (r : Generator.testResults) (w : world),
    forallb (lineBreakAfter logContent) (occurrences logContent 0) = true ->
    map describe
        (Generator.errors (Generator.metrics_
           (fst (Integration.extractErrors logContent
                   (S (String.length logContent)) 0 r w))))
    = (map describe (Generator.errors (Generator.metrics_ r))
       ++ map (expectedError logContent) (occurrences logContent 0))%list.
Proof.
  intros logContent r w H.
  apply (extractErrors_spec logContent (S (String.length logContent)) 0 r w); try lia.
  exact H.
Qed.

(** The theorem at [Logs.interrupted], where two lines hold failed: and
    every line ends in a line break. *)
Lemma one_error_per_occurrence_interrupted :
  forallb (lineBreakAfter Logs.interrupted) (occurrences Logs.interrupted 0) = true
  /\ map describe
       (Generator.errors (Generator.metrics_
          (fst (Integration.extractErrors Logs.interrupted
                  (S (String.length Logs.interrupted)) 0 Generator.new Logs.ticking))))
     = (map describe (Generator.errors (Generator.metrics_ Generator.new))
        ++ map (expectedError Logs.interrupted) (occurrences Logs.interrupted 0))%list.
Proof.
  split; [ vm_compute; reflexivity | ].
  apply (one_error_per_occurrence Logs.interrupted Generator.new Logs.ticking).
  vm_compute. reflexivity.
Defined.

(** C8, the claim as stated, fails on [Logs.twoErrors].  The first message
    is cut at its last letter, not at the line break, and the message of the
    occurrence on the last line, which no line break follows, is the text
    before the occurrence instead of the text after it. *)
Lemma last_line_and_blanks_are_lost :
  occurrences Logs.twoErrors 0 = [0; 18]
  /\ map (fun i => upToLF (JS.drop i Logs.twoErrors)) (occurrences Logs.twoErrors 0)
     = ["Error: disk full "; "Error: boom"]
  /\ map describe
       (Generator.errors (Generator.metrics_
          (fst (Integration.extractErrors Logs.twoErrors
                  (S (String.length Logs.twoErrors)) 0 Generator.new Logs.ticking))))
     = [ ("Error: disk full", "Unknown"); ("Error: disk full", "Unknown") ]
  /\ map Generator.message
       (Generator.errors (Generator.metrics_
          (fst (Integration.extractErrors Logs.twoErrors
                  (S (String.length Logs.twoErrors)) 0 Generator.new Logs.ticking))))
     <> map (fun i => upToLF (JS.drop i Logs.twoErrors)) (occurrences Logs.twoErrors 0).
Proof.
  repeat split; try (vm_compute; reflexivity).
  vm_compute. discriminate.
Qed.

End Errors.

(** *** The bounds of the loops

    The matcher of a quantifier, the iteration of matchAll and the loop over
    the error matches are written with a bound on their iterations.  The
    bounds are never reached: a larger one gives the same result. *)

Section Bounds.
Import RegExp.

Lemma RepeatMatcher_local (m : matcher) (gs : list nat) :
  local m ->
  forall (fuel min : nat) (max : option nat) (greedy : bool)
         (x : string) (cap : captures) (c c' : continuation),
    (forall y cc, String.length y <= String.length x -> c y cc = c' y cc) ->
    RepeatMatcher m gs fuel min max greedy x cap c
      = RepeatMatcher m gs fuel min max greedy x cap c'.
Proof.
  intros Hm fuel. induction fuel as [ | fuel IH]; intros min max greedy x cap c c' H.
  - reflexivity.
  - assert (Hx : c x cap = c' x cap) by (apply H; lia).
    assert (Hd : m x (clear_captures gs cap)
                   (fun y capy =>
                      if (min =? 0) && (String.length y =? String.length x) then None
                      else RepeatMatcher m gs fuel (pred min) (option_map pred max)
                             greedy y capy c)
                 = m x (clear_captures gs cap)
                   (fun y capy =>
                      if (min =? 0) && (String.length y =? String.length x) then None
                      else RepeatMatcher m gs fuel (pred min) (option_map pred max)
                             greedy y capy c')).
    { apply Hm. intros y cc Hy.
      destruct ((min =? 0) && (String.length y =? String.length x)); [ reflexivity | ].
      apply IH. intros z cz Hz. apply H. lia. }
    cbn [RepeatMatcher]. cbv zeta.
    destruct max as [[ | n] | ]; [ exact Hx | | ]; rewrite Hd, Hx; reflexivity.
Qed.

Lemma RepeatMatcher_fuel (m : matcher) (gs : list nat) :
  local m ->
  forall (f1 f2 min : nat) (max : option nat) (greedy : bool)
         (x : string) (cap : captures) (c : continuation),
    min + String.length x < f1 ->
    min + String.length x < f2 ->
    RepeatMatcher m gs f1 min max greedy x cap c
      = RepeatMatcher m gs f2 min max greedy x cap c.
Proof.
  intros Hm f1. induction f1 as [ | f1 IH]; intros f2 min max greedy x cap c H1 H2; [ lia | ].
  destruct f2 as [ | f2]; [ lia | ].
  assert (Hd : m x (clear_captures gs cap)
                 (fun y capy =>
                    if (min =? 0) && (String.length y =? String.length x) then None
                    else RepeatMatcher m gs f1 (pred min) (option_map pred max)
                           greedy y capy c)
               = m x (clear_captures gs cap)
                 (fun y capy =>
                    if (min =? 0) && (String.length y =? String.length x) then None
                    else RepeatMatcher m gs f2 (pred min) (option_map pred max)
                           greedy y capy c)).
  { apply Hm. intros y cc Hy.
    destruct (min =? 0) eqn:Emin; cbn [andb].
    - apply Nat.eqb_eq in Emin. subst min.
      destruct (String.length y =? String.length x) eqn:Elen; [ reflexivity | ].
      apply Nat.eqb_neq in Elen. apply IH; simpl; lia.
    - apply Nat.eqb_neq in Emin. apply IH; lia. }
  cbn [RepeatMatcher]. cbv zeta.
  destruct max as [[ | n] | ]; [ reflexivity | | ]; rewrite Hd; reflexivity.
Qed.

Lemma compile_local (ic : bool) (r : regex) : local (compile ic r).
Proof.
  induction r as [ | ch | cs | r1 IH1 r2 IH2 | r1 IH1 r2 IH2 | min max greedy r1 IH1 | i r1 IH1];
    intros x cap k k' H; cbn [compile].
  - apply H. lia.
  - destruct x as [ | a x]; [ reflexivity | ].
    destruct (char_eq ic ch a); [ | reflexivity ]. apply H. simpl. lia.
  - destruct x as [ | a x]; [ reflexivity | ].
    destruct (in_charset cs a); [ | reflexivity ]. apply H. simpl. lia.
  - apply IH1. intros y c Hy. apply IH2. intros z cz Hz. apply H. lia.
  - rewrite (IH1 x cap k k' H), (IH2 x cap k k' H). reflexivity.
  - apply RepeatMatcher_local; assumption.
  - apply IH1. intros y c Hy. apply H. exact Hy.
Qed.

(** The bound that [compile] gives to a quantifier is enough. *)
Lemma quantifier_bound (ic : bool) (r : regex) (min : nat) (max : option nat)
    (greedy : bool) (x : string) (cap : captures) (c : continuation) (extra : nat) :
  RepeatMatcher (compile ic r) (groups_of r) (S (min + String.length x) + extra)
    min max greedy x cap c
  = compile ic (Rep min max greedy r) x cap c.
Proof.
  cbn [compile]. apply RepeatMatcher_fuel; [ apply compile_local | lia | lia ].
Qed.

Lemma search_bounds (re : regexp) (x : string) :
  forall (i : nat) (m : match_result),
    search re x i = Some m ->
    i <= index m /\ lastIndex m = index m + String.length (matched m).
Proof.
  induction x as [ | a x IH]; intros i m; cbn [search];
    destruct (compile _ _ _ _ _) as [[y cap] | ]; intro H; try discriminate.
  - injection H as <-. simpl. lia.
  - injection H as <-. simpl. lia.
  - apply IH in H. lia.
Qed.

(** The bound of [matchAll] is enough. *)
Lemma matchAll_bound (re : regexp) (s : string) :
  forall (f1 f2 from : nat),
    S (String.length s) - from < f1 ->
    S (String.length s) - from < f2 ->
    matchAllFrom re s f1 from = matchAllFrom re s f2 from.
Proof.
  induction f1 as [ | f1 IH]; intros f2 from H1 H2; [ lia | ].
  destruct f2 as [ | f2]; [ lia | ].
  cbn [matchAllFrom]. unfold exec.
  destruct (String.length s <? from) eqn:E; [ reflexivity | ].
  apply Nat.ltb_ge in E.
  destruct (search re (JS.drop from s) from) as [m | ] eqn:Hs; [ | reflexivity ].
  apply search_bounds in Hs. destruct Hs as [Hi Hl].
  f_equal. destruct (matched m) as [ | a t].
  - apply IH; lia.
  - simpl in Hl. apply IH; lia.
Qed.

(** So is the bound of the loop over the error matches. *)
Lemma extractErrors_bound (logContent : string) :
  forall (f1 f2 from : nat) (r : Generator.testResults) (w : world),
    String.length logContent - from < f1 ->
    String.length logContent - from < f2 ->
    Integration.extractErrors logContent f1 from r w
      = Integration.extractErrors logContent f2 from r w.
Proof.
  induction f1 as [ | f1 IH]; intros f2 from r w H1 H2; [ lia | ].
  destruct f2 as [ | f2]; [ lia | ].
  cbn [Integration.extractErrors]. unfold exec.
  destruct (String.length logContent <? from) eqn:E; [ reflexivity | ].
  apply Nat.ltb_ge in E.
  pose proof (search_errorRegex (JS.drop from logContent) from) as Hs.
  destruct (search Patterns.errorRegex (JS.drop from logContent) from) as [m | ];
    [ | reflexivity ].
  destruct Hs as (k & len & _ & Hl & Hk & Hlen & _).
  rewrite drop_length in Hk.
  unfold bind, newDate. apply IH; lia.
Qed.

End Bounds.

(* ===================================================================== *)
(** ** Further properties of the generator's prepareScenarioResults        *)
(* ===================================================================== *)

Section GeneratorList.
Import Generator Shape.

Lemma seq_push (a n : nat) : seq a (S n) = (seq a n ++ [a + n])%list.
Proof. rewrite <- Nat.add_1_r, seq_app. reflexivity. Qed.

Lemma defaultsFrom_list (names : list string) :
  forall (i : nat) (w : world),
    map outline (fst (defaultsFrom names i w))
      = map (fun p => (fst p, snd p, "passed")) (combine (seq i (length names)) names)
    /\ forallb generated (fst (defaultsFrom names i w)) = true
    /\ forallb integrated (fst (defaultsFrom names i w)) = true.
Proof.
  induction names as [ | n names IH]; intros i w; simpl.
  - auto.
  - unfold bind, newDate. specialize (IH (S i) (fun k => w (S (S k)))).
    destruct (defaultsFrom names (S i) _) as [more w']. simpl in *.
    destruct IH as (H1 & H2 & H3). rewrite H1, H2, H3. auto.
Qed.

Lemma outline_ids (l : list scenario) (o : list (nat * string * string)) :
  map outline l = o -> map id l = map (fun x => fst (fst x)) o.
Proof. intros <-. rewrite map_map. reflexivity. Qed.

Lemma createDefaultScenarios_list (w : world) :
  map outline (fst (createDefaultScenarios w))
    = [ (1, "Tab Navigation", "passed"); (2, "Dashboard Controls", "passed");
        (3, "Responsiveness Test", "passed") ].
Proof. apply (defaultsFrom_list defaultNames 1 w). Qed.

Lemma entries_length_current (st : parserState) :
  length (entries st)
    = length (collected st) + match currentScenario st with Some _ => 1 | None => 0 end.
Proof. unfold entries. rewrite length_app. now destruct (currentScenario st). Qed.

Lemma generated_error (s : scenario) (e : string) :
  generated s = true -> error s = Some e -> String.eqb e "Scenario failed" = true.
Proof.
  unfold generated. intros H E. rewrite E in H.
  apply andb_true_iff in H. destruct H as [_ H].
  apply andb_true_iff in H. now destruct H as [H _].
Qed.

Lemma generated_passed (cur : scenario) (t : Z) :
  generated cur = true ->
  generated (mkScenario (id cur) (name cur) "passed" (startTime cur) (Some t)
               (Some 5000%N) (steps cur) (warnings cur) (error cur)) = true.
Proof.
  intro H. unfold generated. cbn [status duration endTime warnings error].
  destruct (error cur) as [e | ] eqn:E; [ | reflexivity ].
  rewrite (generated_error cur e H E). reflexivity.
Qed.

Lemma generated_running (s : scenario) :
  generated s = true -> status s = "running" ->
  duration s = None /\ endTime s = None /\ warnings s = [] /\ error s = None.
Proof.
  unfold generated. intros H E. rewrite E in H. cbn in H.
  destruct (duration s), (endTime s), (warnings s), (error s);
    cbn in H; try discriminate H; try (rewrite andb_false_r in H; discriminate H); auto.
Qed.

Lemma generated_warned (cur : scenario) (x : string) :
  generated cur = true ->
  generated (mkScenario (id cur) (name cur)
               (if String.eqb (status cur) "running" then "warning" else status cur)
               (startTime cur) (endTime cur) (duration cur) (steps cur)
               (push (warnings cur) x) (error cur)) = true.
Proof.
  intro H. destruct (String.eqb (status cur) "running") eqn:Er.
  - apply String.eqb_eq in Er.
    destruct (generated_running cur H Er) as (-> & -> & -> & ->). reflexivity.
  - unfold generated in *. cbn [status duration endTime warnings error].
    rewrite Er in *. unfold push.
    destruct (String.eqb (status cur) "warning").
    + destruct (warnings cur); [ | exact H ].
      rewrite !andb_true_r in H |- *. simpl app.
      apply andb_true_iff in H. destruct H as [H _].
      rewrite andb_false_r in H. discriminate H.
    + destruct (warnings cur); exact H.
Qed.

(** A step on a line keeps the invariant, and adds an entry exactly on a
    start line. *)
Lemma processLine_invariant (line : string) (st : parserState) (w : world) :
  loopInvariant st ->
  loopInvariant (fst (processLine line st w))
  /\ length (entries (fst (processLine line st w)))
     = length (entries st) + (if isStartLine line then 1 else 0).
Proof.
  intros (Hid & Hc & Hg & Hn). unfold processLine, isStartLine.
  destruct (RegExp.match_ line Patterns.scenarioStartRegex) as [startMatch | ]; cbn [found].
  - unfold bind, newDate, ret. cbn [fst].
    assert (E : (match currentScenario st with
                 | Some cur => push (collected st) cur
                 | None => collected st
                 end) = entries st).
    { unfold entries, push. destruct (currentScenario st); [ reflexivity | now rewrite app_nil_r ]. }
    rewrite E.
    match goal with
    | |- loopInvariant (mkState _ (Some ?s0) ?c) /\ _ =>
        change (entries (mkState (entries st) (Some s0) c)) with (entries st ++ [s0])%list;
        unfold loopInvariant;
        change (entries (mkState (entries st) (Some s0) c)) with (entries st ++ [s0])%list
    end.
    cbn [collected currentScenario scenarioIdCounter].
    rewrite length_app, map_app, forallb_app, Hid, Hg, Hc. cbn [length map id].
    repeat split; try lia.
    + rewrite Nat.add_1_r, seq_push. reflexivity.
    + intro H. discriminate.
  - destruct (currentScenario st) as [cur | ] eqn:Ecur.
    2: { unfold ret. cbn [fst]. split; [ | lia ]. unfold loopInvariant. rewrite Ecur. auto. }
    assert (Hen : entries st = (collected st ++ [cur])%list)
      by (unfold entries; now rewrite Ecur).
    assert (Hcur : generated cur = true).
    { rewrite Hen, forallb_app in Hg.
      apply andb_true_iff in Hg. destruct Hg as [_ Hg]. cbn [forallb] in Hg.
      now rewrite andb_true_r in Hg. }
    assert (Hcol : forallb generated (collected st) = true).
    { rewrite Hen, forallb_app in Hg. now apply andb_true_iff in Hg. }
    assert (Step : forall s' : scenario,
               id s' = id cur -> generated s' = true ->
               loopInvariant (mkState (collected st) (Some s') (scenarioIdCounter st))
               /\ length (entries (mkState (collected st) (Some s') (scenarioIdCounter st)))
                  = length (entries st) + 0).
    { intros s' Hid' Hg'.
      change (entries (mkState (collected st) (Some s') (scenarioIdCounter st)))
        with (collected st ++ [s'])%list.
      unfold loopInvariant.
      change (entries (mkState (collected st) (Some s') (scenarioIdCounter st)))
        with (collected st ++ [s'])%list.
      cbn [collected currentScenario scenarioIdCounter].
      rewrite Hen in Hid, Hc. rewrite Hen.
      rewrite !length_app, !map_app, forallb_app in *. cbn [length map forallb] in *.
      rewrite Hid', Hcol, Hg'. repeat split; auto. intro H. discriminate. }
    destruct (accepted _ cur line).
    { unfold bind, newDate, ret. cbn [fst]. apply Step; [ reflexivity | ].
      now apply generated_passed. }
    destruct (accepted _ cur line).
    { unfold bind, newDate, ret. cbn [fst]. apply Step; reflexivity. }
    destruct (RegExp.match_ line Patterns.warningRegex) as [warningMatch | ].
    2: { unfold ret. cbn [fst]. split; [ | lia ].
         unfold loopInvariant. rewrite Ecur. auto. }
    unfold ret. cbn [fst]. apply Step; [ reflexivity | ].
    now apply generated_warned.
Qed.

Lemma processLines_invariant (lines : list string) :
  forall (st : parserState) (w : world),
    loopInvariant st ->
    loopInvariant (fst (processLines lines st w))
    /\ length (entries (fst (processLines lines st w)))
       = length (entries st) + length (filter isStartLine lines).
Proof.
  induction lines as [ | line lines IH]; intros st w H; simpl.
  - split; [ exact H | lia ].
  - unfold bind. destruct (processLine_invariant line st w H) as [H1 H2].
    destruct (processLine line st w) as [st' w']. cbn [fst] in *.
    destruct (IH st' w' H1) as [H3 H4]. split; [ exact H3 | ].
    rewrite H4, H2. destruct (isStartLine line); simpl; lia.
Qed.

(** What [finish] returns: the entries of the state, the last one resolved. *)
Lemma finish_list (st : parserState) (w : world) :
  loopInvariant st ->
  let l := fst (finish st w) in
  map id l = seq 1 (length l)
  /\ length l = length (entries st)
  /\ forallb generated l = true
  /\ (forall pre s, l = (pre ++ [s])%list -> status s <> "running").
Proof.
  intros (Hid & Hc & Hg & Hn). unfold finish, entries in *.
  destruct (currentScenario st) as [cur | ].
  - rewrite map_app, length_app, forallb_app in *. cbn [map length forallb] in *.
    apply andb_true_iff in Hg. destruct Hg as [Hcol Hcur]. rewrite andb_true_r in Hcur.
    destruct (String.eqb (status cur) "running") eqn:Er.
    + unfold bind, newDate, ret, push. cbn [fst].
      rewrite map_app, length_app, forallb_app. cbn [map length forallb id].
      rewrite Hcol, (generated_passed cur (w 0) Hcur). repeat split; auto.
      intros pre s E. apply app_inj_tail in E. destruct E as [_ <-]. discriminate.
    + unfold ret, push. cbn [fst].
      rewrite map_app, length_app, forallb_app. cbn [map length forallb].
      rewrite Hcol, Hcur. repeat split; auto.
      intros pre s E. apply app_inj_tail in E. destruct E as [_ <-].
      now apply String.eqb_neq.
  - rewrite (Hn eq_refl). unfold ret. cbn. repeat split; auto.
    intros pre s E. now destruct pre.
Qed.

Lemma processLine_names (line : string) (st : parserState) (w : world) :
  map name (entries (fst (processLine line st w)))
    = (map name (entries st)
       ++ match RegExp.match_ line Patterns.scenarioStartRegex with
          | Some startMatch => [JS.trim (capture1 startMatch)]
          | None => []
          end)%list.
Proof.
  unfold processLine.
  destruct (RegExp.match_ line Patterns.scenarioStartRegex) as [startMatch | ].
  - unfold bind, newDate, ret, entries, push. cbn [fst collected currentScenario].
    rewrite map_app. cbn [map name].
    destruct (currentScenario st); [ reflexivity | now rewrite app_nil_r ].
  - rewrite app_nil_r.
    destruct (currentScenario st) as [cur | ] eqn:Ecur; [ | reflexivity ].
    assert (Step : forall s' : scenario, name s' = name cur ->
              map name (entries (mkState (collected st) (Some s') (scenarioIdCounter st)))
                = map name (entries st)).
    { intros s' E. unfold entries. cbn [collected currentScenario]. rewrite Ecur.
      rewrite !map_app. cbn [map]. now rewrite E. }
    destruct (accepted _ cur line).
    { unfold bind, newDate, ret. cbn [fst]. now apply Step. }
    destruct (accepted _ cur line).
    { unfold bind, newDate, ret. cbn [fst]. now apply Step. }
    destruct (RegExp.match_ line Patterns.warningRegex) as [warningMatch | ];
      [ | reflexivity ].
    unfold ret. cbn [fst]. now apply Step.
Qed.

Lemma processLines_names (lines : list string) :
  forall (st : parserState) (w : world),
    map name (entries (fst (processLines lines st w)))
      = (map name (entries st)
         ++ flat_map (fun line =>
                        match RegExp.match_ line Patterns.scenarioStartRegex with
                        | Some startMatch => [JS.trim (capture1 startMatch)]
                        | None => []
                        end) lines)%list.
Proof.
  induction lines as [ | line lines IH]; intros st w; simpl.
  - now rewrite app_nil_r.
  - unfold bind. pose proof (processLine_names line st w) as H.
    destruct (processLine line st w) as [st' w']. cbn [fst] in *.
    rewrite IH, H, <- app_assoc. reflexivity.
Qed.

Lemma finish_names (st : parserState) (w : world) :
  map name (fst (finish st w)) = map name (entries st).
Proof.
  unfold finish, entries. destruct (currentScenario st) as [cur | ].
  - destruct (String.eqb (status cur) "running").
    + unfold bind, newDate, ret, push. cbn [fst]. rewrite !map_app. reflexivity.
    + reflexivity.
  - unfold ret. cbn [fst]. now rewrite app_nil_r.
Qed.

Lemma startNames_length (lines : list string) :
  length (flat_map (fun line =>
                      match RegExp.match_ line Patterns.scenarioStartRegex with
                      | Some startMatch => [JS.trim (capture1 startMatch)]
                      | None => []
                      end) lines)
    = length (filter isStartLine lines).
Proof.
  induction lines as [ | line lines IH]; [ reflexivity | ].
  cbn [filter flat_map]. unfold isStartLine at 1. rewrite length_app.
  destruct (RegExp.match_ line Patterns.scenarioStartRegex); cbn [found length];
    rewrite IH; reflexivity.
Qed.

Lemma initial_invariant : loopInvariant (mkState [] None 1).
Proof. unfold loopInvariant, entries. cbn. auto. Qed.

(** The list of the function, in all its branches. *)
Lemma generator_list (testLog : string) (w : world) :
  let l := fst (prepareScenarioResults testLog w) in
  map id l = seq 1 (length l)
  /\ forallb generated l = true
  /\ (forall pre s, l = (pre ++ [s])%list -> status s <> "running")
  /\ length l = (if parsesLines testLog && negb (startLines testLog =? 0)
                 then startLines testLog else 3).
Proof.
  assert (D : forall v,
    let l := fst (createDefaultScenarios v) in
    map id l = seq 1 (length l) /\ forallb generated l = true
    /\ (forall pre s, l = (pre ++ [s])%list -> status s <> "running") /\ length l = 3).
  { intro v. cbv zeta. repeat split; try reflexivity.
    intros pre s E. unfold createDefaultScenarios, defaultNames in E. cbn in E.
    change [?a; ?b; ?c] with ([a; b] ++ [c])%list in E.
    apply app_inj_tail in E. destruct E as [_ <-]. discriminate. }
  unfold prepareScenarioResults, parsesLines, startLines.
  destruct (String.eqb testLog EmptyString); [ apply D | ].
  destruct (String.length testLog <? 300); [ apply D | ].
  destruct (length _ =? 0); [ apply D | ]. cbn [negb andb].
  unfold bind.
  destruct (processLines_invariant (JS.split_newline testLog) (mkState [] None 1) w
              initial_invariant) as [Hinv Hlen].
  destruct (processLines (JS.split_newline testLog) (mkState [] None 1) w) as [st w1].
  cbn [fst] in *.
  destruct (finish_list st w1 Hinv) as (F1 & F2 & F3 & F4).
  destruct (finish st w1) as [result w2]. cbn [fst] in *.
  rewrite Hlen in F2. cbn in F2.
  destruct (length result =? 0) eqn:E.
  - apply Nat.eqb_eq in E. rewrite <- F2, E. cbn. apply D.
  - unfold ret. cbn [fst]. rewrite <- F2, E. cbn. auto.
Qed.

(** X1.  For a log of fewer than 300 characters, the empty one included,
    the generator's prepareScenarioResults returns the three default
    scenarios, all passed, with ids 1 to 3. *)
Theorem short_log_gives_the_defaults :
  forall (testLog : string) (w : world),
    String.length testLog < 300 ->
    map outline (fst (prepareScenarioResults testLog w))
      = [ (1, "Tab Navigation", "passed"); (2, "Dashboard Controls", "passed");
          (3, "Responsiveness Test", "passed") ].
Proof.
  intros testLog w H. unfold prepareScenarioResults.
  destruct (String.eqb testLog EmptyString); [ apply createDefaultScenarios_list | ].
  apply Nat.ltb_lt in H. rewrite H. apply createDefaultScenarios_list.
Qed.

Lemma short_log_gives_the_defaults_declaredFour :
  String.length Logs.declaredFour < 300
  /\ map outline (fst (prepareScenarioResults Logs.declaredFour Logs.ticking))
     = [ (1, "Tab Navigation", "passed"); (2, "Dashboard Controls", "passed");
         (3, "Responsiveness Test", "passed") ].
Proof.
  split; [ vm_compute; lia | ].
  apply (short_log_gives_the_defaults Logs.declaredFour Logs.ticking). vm_compute. lia.
Defined.

(** X2.  The list that the generator's prepareScenarioResults returns is
    never empty, and its ids are 1, 2, 3, ... in the order of the list. *)
Theorem generator_ids_count_from_one :
  forall (testLog : string) (w : world),
    let l := fst (prepareScenarioResults testLog w) in
    0 < length l /\ map id l = seq 1 (length l).
Proof.
  intros testLog w. destruct (generator_list testLog w) as (H1 & _ & _ & H4).
  cbv zeta. split; [ | exact H1 ]. rewrite H4.
  destruct (parsesLines testLog && negb (startLines testLog =? 0)) eqn:E; [ | lia ].
  apply andb_true_iff in E. destruct E as [_ E].
  apply negb_true_iff, Nat.eqb_neq in E. lia.
Qed.

(** X3.  When the generator's prepareScenarioResults reaches its loop over
    the lines, it returns one scenario per line that matches the start
    pattern, in the order of the lines and under the trimmed name of the
    line, whether or not a name comes twice; when no line matches, or the
    loop is not reached, it returns the three defaults. *)
Theorem one_scenario_per_start_line :
  forall (testLog : string) (w : world),
    map name (fst (prepareScenarioResults testLog w))
      = (if parsesLines testLog && negb (startLines testLog =? 0)
         then startNames testLog else defaultNames).
Proof.
  intros testLog w.
  unfold prepareScenarioResults, parsesLines, startLines, startNames.
  destruct (String.eqb testLog EmptyString); [ reflexivity | ].
  destruct (String.length testLog <? 300); [ reflexivity | ].
  destruct (length _ =? 0); [ reflexivity | ]. cbn [negb andb].
  unfold bind.
  pose proof (processLines_names (JS.split_newline testLog) (mkState [] None 1) w) as Hn.
  destruct (processLines (JS.split_newline testLog) (mkState [] None 1) w) as [st w1].
  cbn [fst] in *.
  pose proof (finish_names st w1) as Hf.
  destruct (finish st w1) as [result w2]. cbn [fst] in *.
  rewrite Hn in Hf.
  change (map name (entries (mkState [] None 1))) with (@nil string) in Hf.
  rewrite app_nil_l in Hf.
  rewrite <- startNames_length, <- Hf, length_map.
  destruct (length result =? 0); reflexivity.
Qed.

(** X4.  Every scenario of the generator's list is running, passed, failed
    or warning, and the last one is never running: a running scenario is
    always followed by a later one. *)
Theorem the_last_scenario_is_never_running :
  forall (testLog : string) (w : world),
    let l := fst (prepareScenarioResults testLog w) in
    forallb (fun s => String.eqb (status s) "running" || Spec.counted s) l = true
    /\ (forall pre s, l = (pre ++ [s])%list -> status s <> "running").
Proof.
  intros testLog w. destruct (generator_list testLog w) as (_ & H2 & H3 & _).
  cbv zeta. split; [ | exact H3 ].
  apply forallb_forall. intros s Hs.
  pose proof (proj1 (forallb_forall _ _) H2 s Hs) as G.
  unfold generated in G. unfold Spec.counted.
  destruct (String.eqb (status s) "running"); [ reflexivity | ].
  destruct (String.eqb (status s) "passed"); [ reflexivity | ].
  destruct (String.eqb (status s) "failed"); [ reflexivity | ].
  destruct (String.eqb (status s) "warning"); [ reflexivity | ].
  cbn in G. discriminate.
Qed.

(** X5.  In the list of the generator's prepareScenarioResults a scenario
    carries a duration, always 5000, and an end time exactly when it is
    passed or failed; a warning or running scenario has neither.  A failed
    scenario always has the error text, and a warning scenario at least
    one warning. *)
Theorem duration_only_when_closed :
  forall (testLog : string) (w : world),
    forallb generated (fst (prepareScenarioResults testLog w)) = true.
Proof. intros testLog w. apply (generator_list testLog w). Qed.

End GeneratorList.

(* ===================================================================== *)
(** ** Further properties of report-integration.js                         *)
(* ===================================================================== *)

Section IntegrationList.
Import Integration Shape.

Lemma integrated_push (l : list scenario) (s : scenario) :
  forallb integrated l = true -> integrated s = true ->
  forallb integrated (push l s) = true.
Proof.
  intros Hl Hs. unfold push. rewrite forallb_app, Hl. simpl. now rewrite Hs.
Qed.

Lemma numbered_push (acc : list scenario) (c : nat) (s : scenario) :
  numbered acc c -> id s = c -> integrated s = true ->
  numbered (push acc s) (S c).
Proof.
  intros (H1 & H2 & H3) Hid Hs. unfold numbered, push.
  rewrite map_app, length_app, H1. cbn [map length]. rewrite Hid, H2.
  repeat split.
  - rewrite Nat.add_1_r, seq_push. reflexivity.
  - lia.
  - now apply integrated_push.
Qed.

Lemma namedScenario_shape {beyond : RegExp.engine}
    (testLog nm : string) (c : nat) (w w' : world) (s : scenario) :
  namedScenario beyond testLog nm c w = Normal (s, w') ->
  id s = c /\ name s = nm /\ integrated s = true.
Proof.
  unfold namedScenario, bindE.
  destruct (matchEither beyond testLog _ _ w) as [[isCompleted w1] | e]; [ | discriminate ].
  destruct (matchEither beyond testLog _ _ w1) as [[failedMatch w2] | e]; [ | discriminate ].
  unfold lift, newDate, retE. intro H. injection H as <- _.
  repeat split. destruct failedMatch, isCompleted; reflexivity.
Qed.

Lemma namedScenarios_shape {beyond : RegExp.engine} (testLog : string) (names : list string) :
  forall (acc : list scenario) (c : nat) (w w' : world) (l : list scenario) (c' : nat),
    numbered acc c ->
    namedScenarios beyond testLog names acc c w = Normal (l, c', w') ->
    numbered l c' /\ map name l = (map name acc ++ names)%list.
Proof.
  induction names as [ | nm names IH]; intros acc c w w' l c' Hacc H; simpl in H.
  - unfold retE in H. injection H as <- <- _. rewrite app_nil_r. auto.
  - unfold bindE in H.
    destruct (namedScenario beyond testLog nm c w) as [[s w1] | e] eqn:E; [ | discriminate ].
    destruct (namedScenario_shape (beyond := beyond) _ _ _ _ _ _ E) as (Hid & Hnm & Hs).
    destruct (IH _ _ _ _ _ _ (numbered_push acc c s Hacc Hid Hs) H) as [H1 H2].
    split; [ exact H1 | ]. rewrite H2. unfold push.
    rewrite map_app, <- app_assoc. cbn [map]. rewrite Hnm. reflexivity.
Qed.

Lemma addMissing_shape (pool known : list string) (t : nat) :
  forall (acc : list scenario) (c : nat) (w : world),
    numbered acc c ->
    numbered (fst (fst (addMissing pool known t acc c w)))
             (snd (fst (addMissing pool known t acc c w))).
Proof.
  induction pool as [ | nm pool IH]; intros acc c w Hacc; simpl.
  - exact Hacc.
  - destruct (negb (existsb (String.eqb nm) known)); [ | now apply IH ].
    unfold bind, newDate.
    match goal with
    | |- context [push acc ?s] =>
        assert (Hp : numbered (push acc s) (S c))
          by (apply numbered_push; [ exact Hacc | reflexivity | reflexivity ])
    end.
    destruct (t <=? length (push acc _)); [ exact Hp | now apply IH ].
Qed.

Lemma addGeneric_shape (fuel t : nat) :
  forall (acc : list scenario) (c : nat) (w : world),
    numbered acc c ->
    numbered (fst (fst (addGeneric fuel t acc c w)))
             (snd (fst (addGeneric fuel t acc c w))).
Proof.
  induction fuel as [ | fuel IH]; intros acc c w Hacc; simpl.
  - exact Hacc.
  - destruct (length acc <? t); [ | exact Hacc ].
    unfold bind, newDate. apply IH.
    apply numbered_push; [ exact Hacc | reflexivity | reflexivity ].
Qed.

Lemma defaults_numbered (w : world) :
  numbered (fst (createDefaultScenarios w)) 5.
Proof. repeat split. Qed.

Lemma reconcile_numbered (total : option nat) (parsed : list scenario) (c : nat) (w : world) :
  numbered parsed c ->
  exists c', numbered (fst (reconcile total parsed c w)) c'.
Proof.
  intro Hp. unfold reconcile, bind.
  assert (Hfilled : exists c', numbered (fst (topUp total parsed c w)) c').
  { unfold topUp. destruct total as [t | ]; [ | now exists c ].
    destruct (length parsed <? t); [ | now exists c ].
    unfold bind.
    pose proof (addMissing_shape defaultNames (map name parsed) t parsed c w Hp) as H1.
    destruct (addMissing defaultNames (map name parsed) t parsed c w) as [[l1 c1] w1].
    cbn [fst snd] in *.
    pose proof (addGeneric_shape (t - length l1) t l1 c1 w1 H1) as H2.
    destruct (addGeneric (t - length l1) t l1 c1 w1) as [[l2 c2] w2].
    cbn [fst snd] in *. now exists c2. }
  destruct (topUp total parsed c w) as [filled w1]. cbn [fst] in *.
  destruct (length filled =? 0).
  - exists 5. apply defaults_numbered.
  - exact Hfilled.
Qed.

Lemma integration_numbered {beyond : RegExp.engine}
    (testLog : string) (w : world) (l : list scenario) :
  value (prepareScenarioResults beyond testLog w) = Normal l ->
  exists c, numbered l c.
Proof.
  unfold prepareScenarioResults. destruct (noScenarioInfo testLog).
  - rewrite value_lift. intro H. injection H as <-. exists 5. apply defaults_numbered.
  - unfold bindE, reconstruct.
    destruct (namedScenarios beyond testLog (scenarioNames testLog) [] 1 w)
      as [[[parsed c] w1] | e] eqn:E; [ | discriminate ].
    rewrite value_lift. intro H. injection H as <-. cbn [fst snd].
    apply reconcile_numbered.
    apply (namedScenarios_shape (beyond := beyond) testLog (scenarioNames testLog)
             [] 1 w w1 parsed c);
      [ repeat split | exact E ].
Qed.

(** X6.  Whenever prepareScenarioResults of report-integration.js returns,
    for whatever log and whatever the engine does with the patterns of its
    names, the ids of its list are 1, 2, 3, ... in the order of the list:
    the entries that the reconciliation adds continue the numbering of the
    scenarios of the log. *)
Theorem integration_ids_count_from_one :
  forall (beyond : RegExp.engine) (testLog : string) (w : world) (l : list scenario),
    value (prepareScenarioResults beyond testLog w) = Normal l ->
    map id l = seq 1 (length l).
Proof.
  intros beyond testLog w l H.
  destruct (integration_numbered (beyond := beyond) testLog w l H) as [c Hc].
  apply Hc.
Qed.

(** The theorem at the log of the concrete scenario, and at a log whose
    name is a pattern outside the embedded grammar, for an engine that
    finds it nowhere. *)
Lemma integration_ids_count_from_one_declaredFour :
  (value (prepareScenarioResults Logs.strict Logs.declaredFour Logs.ticking)
     = Normal Logs.returnedForDeclaredFour
   /\ value (prepareScenarioResults Logs.nowhere Logs.priced Logs.ticking)
      = Normal [ mkScenario 1 "cost $5" "warning" 0 (Some 1%Z) (Some 5000%N) [] [] None ])
  /\ map id Logs.returnedForDeclaredFour = seq 1 (length Logs.returnedForDeclaredFour)
  /\ map id [ mkScenario 1 "cost $5" "warning" 0 (Some 1%Z) (Some 5000%N) [] [] None ]
     = seq 1 1.
Proof.
  split; [ split; vm_compute; reflexivity | ]. split.
  - apply (integration_ids_count_from_one Logs.strict Logs.declaredFour Logs.ticking).
    vm_compute. reflexivity.
  - apply (integration_ids_count_from_one Logs.nowhere Logs.priced Logs.ticking).
    vm_compute. reflexivity.
Defined.

(** X7.  Every scenario that prepareScenarioResults of report-integration.js
    returns, for whatever log and whatever the engine does with the patterns
    of its names, is passed, failed or warning, has an end time and the
    duration 5000, no steps and no warnings, and carries an error exactly
    when it is failed. *)
Theorem integration_scenarios_are_closed :
  forall (beyond : RegExp.engine) (testLog : string) (w : world) (l : list scenario),
    value (prepareScenarioResults beyond testLog w) = Normal l ->
    forallb integrated l = true.
Proof.
  intros beyond testLog w l H.
  destruct (integration_numbered (beyond := beyond) testLog w l H) as [c Hc].
  apply Hc.
Qed.

Lemma integration_scenarios_are_closed_interrupted :
  value (prepareScenarioResults Logs.strict Logs.interrupted Logs.ticking)
    = Normal [ mkScenario 1 "Tab Navigation" "warning" 0 (Some 1%Z) (Some 5000%N) [] [] None;
               mkScenario 2 "Dashboard Controls" "failed" 2 (Some 3%Z) (Some 5000%N) [] []
                 (Some "timeout") ]
  /\ forallb integrated
       [ mkScenario 1 "Tab Navigation" "warning" 0 (Some 1%Z) (Some 5000%N) [] [] None;
         mkScenario 2 "Dashboard Controls" "failed" 2 (Some 3%Z) (Some 5000%N) [] []
           (Some "timeout") ] = true.
Proof.
  split; [ vm_compute; reflexivity | ].
  apply (integration_scenarios_are_closed Logs.strict Logs.interrupted Logs.ticking).
  vm_compute. reflexivity.
Defined.

Lemma set_add_NoDup (x : string) (s : list string) :
  NoDup s -> NoDup (set_add x s).
Proof.
  intro H. unfold set_add, push.
  destruct (existsb (String.eqb x) s) eqn:E; [ exact H | ].
  apply NoDup_app; [ exact H | repeat constructor; intros [] | ].
  intros y Hy [Hx | []]. subst y.
  assert (existsb (String.eqb x) s = true); [ | congruence ].
  apply existsb_exists. exists x. split; [ exact Hy | apply String.eqb_refl ].
Qed.

Lemma fold_set_add_NoDup (ms : list RegExp.match_result) :
  forall names : list string,
    NoDup names ->
    NoDup (fold_left (fun names m => set_add (JS.trim (capture1 m)) names) ms names).
Proof.
  induction ms as [ | m ms IH]; intros names H; cbn [fold_left]; [ exact H | ].
  apply IH. now apply set_add_NoDup.
Qed.

Lemma reconcile_keeps (total : option nat) (parsed : list scenario) (c : nat) (w : world) :
  exists rest, fst (reconcile total parsed c w) = (parsed ++ rest)%list.
Proof.
  destruct (reconcile_shape total parsed c w) as (missing & generics & H & _).
  exists (missing ++ generics)%list. exact H.
Qed.

Lemma filter_twice (f g : string -> bool) (l : list string) :
  filter f (filter g l) = filter (fun y => g y && f y) l.
Proof.
  induction l as [ | x l IH]; [ reflexivity | ].
  cbn [filter]. destruct (g x); cbn [filter andb]; [ | exact IH ].
  destruct (f x); now rewrite IH.
Qed.

(** The set of names, filled match by match, holds the names in the order
    of their first places. *)
Lemma fold_set_add_firstPlaces (xs : list string) :
  forall acc : list string,
    fold_left (fun names x => set_add x names) xs acc
    = (acc ++ filter (fun y => negb (existsb (String.eqb y) acc)) (firstPlaces xs))%list.
Proof.
  induction xs as [ | x xs IH]; intro acc; cbn [fold_left firstPlaces filter].
  - now rewrite app_nil_r.
  - rewrite IH. unfold set_add, push.
    destruct (existsb (String.eqb x) acc) eqn:E; cbn [negb].
    + f_equal. rewrite filter_twice. apply filter_ext. intro y.
      destruct (String.eqb y x) eqn:Eyx; [ | reflexivity ].
      apply String.eqb_eq in Eyx. subst y. now rewrite E.
    + rewrite <- app_assoc. cbn [List.app]. f_equal. f_equal.
      rewrite filter_twice. apply filter_ext. intro y.
      rewrite existsb_app. cbn [existsb]. rewrite orb_false_r, negb_orb.
      apply andb_comm.
Qed.

Lemma fold_set_add_map (ms : list RegExp.match_result) :
  forall acc : list string,
    fold_left (fun names m => set_add (JS.trim (capture1 m)) names) ms acc
    = fold_left (fun names x => set_add x names) (map nameOf ms) acc.
Proof. induction ms as [ | m ms IH]; intro acc; [ reflexivity | apply IH ]. Qed.

Lemma scenarioNames_firstPlaces (testLog : string) :
  scenarioNames testLog = firstPlaces (mentions testLog).
Proof.
  unfold scenarioNames, mentions.
  rewrite <- fold_left_app, fold_set_add_map.
  rewrite fold_set_add_firstPlaces, map_app. cbn [List.app existsb negb].
  clear. induction (firstPlaces _) as [ | x l IH]; [ reflexivity | ].
  cbn [filter]. now rewrite IH.
Qed.

(** X8.  When the log has the word Scenario or declares a total, and
    prepareScenarioResults of report-integration.js returns, its list begins
    with one scenario for each name that the log mentions: the trimmed
    first groups of the matches of the start pattern, from left to right,
    then those of the matches of the completion pattern, each name once, at
    its first place.  What the reconciliation adds comes after them. *)
Theorem log_names_come_first :
  forall (beyond : RegExp.engine) (testLog : string) (w : world) (l : list scenario),
    noScenarioInfo testLog = false ->
    value (prepareScenarioResults beyond testLog w) = Normal l ->
    exists rest, map name l = (firstPlaces (mentions testLog) ++ rest)%list.
Proof.
  intros beyond testLog w l Hinfo H.
  rewrite <- scenarioNames_firstPlaces.
  unfold prepareScenarioResults in H. rewrite Hinfo in H.
  unfold bindE, reconstruct in H.
  destruct (namedScenarios beyond testLog (scenarioNames testLog) [] 1 w)
    as [[[parsed c] w1] | e] eqn:E; [ | discriminate ].
  rewrite value_lift in H. injection H as <-. cbn [fst snd].
  destruct (namedScenarios_shape (beyond := beyond) testLog (scenarioNames testLog)
              [] 1 w w1 parsed c) as [_ Hn]; [ repeat split | exact E | ].
  destruct (reconcile_keeps (declaredTotal testLog) parsed c w1) as [rest ->].
  exists (map name rest). rewrite map_app, Hn. reflexivity.
Qed.

(** The theorem at a log that mentions Tab Navigation three times and
    Dashboard Controls once, between its two other places. *)
Lemma log_names_come_first_declaredFour :
  (noScenarioInfo Logs.repeated = false
   /\ mentions Logs.repeated
      = ["Tab Navigation"; "Dashboard Controls"; "Tab Navigation"; "Tab Navigation"]
   /\ value (prepareScenarioResults Logs.strict Logs.repeated Logs.ticking)
      = Normal
          [ mkScenario 1 "Tab Navigation" "passed" 0 (Some 1%Z) (Some 5000%N) [] [] None;
            mkScenario 2 "Dashboard Controls" "warning" 2 (Some 3%Z) (Some 5000%N)
              [] [] None ])
  /\ exists rest,
       ["Tab Navigation"; "Dashboard Controls"]
       = (firstPlaces (mentions Logs.repeated) ++ rest)%list.
Proof.
  split; [ repeat split; vm_compute; reflexivity | ].
  apply (log_names_come_first Logs.strict Logs.repeated Logs.ticking
           [ mkScenario 1 "Tab Navigation" "passed" 0 (Some 1%Z) (Some 5000%N) [] [] None;
             mkScenario 2 "Dashboard Controls" "warning" 2 (Some 3%Z) (Some 5000%N)
               [] [] None ]);
    vm_compute; reflexivity.
Defined.

End IntegrationList.

(* ===================================================================== *)
(** ** The patterns that report-integration.js builds from a name          *)
(* ===================================================================== *)

Section PlainNames.
Import RegExp Integration Plain.

Lemma parse_char (a : ascii) (p : string) (cur : frame) (stack : list frame)
    (q : qstate) (n : nat) :
  special a = false ->
  parse (String a p) cur stack q n = parse p (push_term (Chr a) cur) stack Atom n.
Proof.
  destruct a as [[] [] [] [] [] [] [] []]; intro H;
    (discriminate H || reflexivity).
Qed.

Lemma parse_plain (s : string) :
  forall (rest : string) (cur : frame) (stack : list frame) (q : qstate) (n : nat),
    plain s = true ->
    exists q', parse (s ++ rest) cur stack q n = parse rest (readChars s cur) stack q' n.
Proof.
  induction s as [ | a s IH]; intros rest cur stack q n H.
  - exists q. reflexivity.
  - cbn [plain] in H. apply andb_true_iff in H. destruct H as [Ha Hs].
    apply negb_true_iff in Ha.
    destruct (IH rest (push_term (Chr a) cur) stack Atom n Hs) as [q' Hq'].
    exists q'. cbn [append]. rewrite parse_char by exact Ha. exact Hq'.
Qed.


Lemma plain_pattern (pre nm post : string) :
  plain pre = true -> plain nm = true ->
  (forall cur q, exists re, parse post cur [] q 0 = Pattern re) ->
  exists re, RegExp_new (pre ++ nm ++ post) = Pattern re.
Proof.
  intros Hpre Hnm Hpost. unfold RegExp_new.
  destruct (parse_plain pre (nm ++ post) (mkFrame 0 [] []) [] NoTerm 0 Hpre) as [q1 ->].
  destruct (parse_plain nm post (readChars pre (mkFrame 0 [] [])) [] q1 0 Hnm) as [q2 ->].
  apply Hpost.
Qed.

Lemma matchNew_returns {beyond : RegExp.engine} (testLog p : string) (w : world) :
  (exists re, RegExp_new p = Pattern re) ->
  exists m, matchNew beyond testLog p w = Normal (m, w).
Proof.
  intros [re Hre]. unfold matchNew. rewrite Hre. eexists. reflexivity.
Qed.

Lemma matchEither_returns {beyond : RegExp.engine} (testLog p1 p2 : string) (w : world) :
  (exists re, RegExp_new p1 = Pattern re) ->
  (exists re, RegExp_new p2 = Pattern re) ->
  exists m, matchEither beyond testLog p1 p2 w = Normal (m, w).
Proof.
  intros H1 H2. unfold matchEither, bindE.
  destruct (matchNew_returns (beyond := beyond) testLog p1 w H1) as [m1 ->].
  destruct m1 as [m | ].
  - eexists. reflexivity.
  - apply matchNew_returns. exact H2.
Qed.

Lemma completed_pattern (cur : frame) (q : qstate) :
  exists re, parse " completed successfully" cur [] q 0 = Pattern re.
Proof. eexists. reflexivity. Qed.

Lemma failed_pattern (cur : frame) (q : qstate) :
  exists re, parse " failed: (.*)" cur [] q 0 = Pattern re.
Proof. eexists. reflexivity. Qed.

Lemma quoted_completed_pattern (cur : frame) (q : qstate) :
  exists re, parse (String JS.dquote " completed successfully") cur [] q 0 = Pattern re.
Proof. eexists. reflexivity. Qed.

Lemma quoted_failed_pattern (cur : frame) (q : qstate) :
  exists re, parse (String JS.dquote " failed: (.*)") cur [] q 0 = Pattern re.
Proof. eexists. reflexivity. Qed.

Lemma namedScenario_returns {beyond : RegExp.engine} (testLog nm : string) (c : nat) (w : world) :
  plain nm = true ->
  exists s w', namedScenario beyond testLog nm c w = Normal (s, w').
Proof.
  intro Hnm. unfold namedScenario, bindE.
  assert (Hq : forall post,
             ("Scenario " ++ JS.quoted nm ++ post)%string
             = (String.append (String.append "Scenario " (String JS.dquote EmptyString))
                  (nm ++ String JS.dquote post))%string).
  { intro post. unfold JS.quoted. cbn [append]. do 10 f_equal.
    clear. induction nm as [ | a nm IH]; [ reflexivity | ].
    cbn [append]. f_equal. exact IH. }
  destruct (matchEither_returns (beyond := beyond) testLog
              ("Scenario " ++ JS.quoted nm ++ " completed successfully")
              (nm ++ " completed successfully") w) as [m1 ->].
  { rewrite Hq. apply plain_pattern;
      [ reflexivity | exact Hnm | apply quoted_completed_pattern ]. }
  { apply (plain_pattern EmptyString nm);
      [ reflexivity | exact Hnm | apply completed_pattern ]. }
  destruct (matchEither_returns (beyond := beyond) testLog
              ("Scenario " ++ JS.quoted nm ++ " failed: (.*)")
              (nm ++ " failed: (.*)") w) as [m2 ->].
  { rewrite Hq. apply plain_pattern;
      [ reflexivity | exact Hnm | apply quoted_failed_pattern ]. }
  { apply (plain_pattern EmptyString nm);
      [ reflexivity | exact Hnm | apply failed_pattern ]. }
  eexists. eexists. reflexivity.
Qed.

Lemma namedScenarios_return {beyond : RegExp.engine} (testLog : string) (names : list string) :
  forallb plain names = true ->
  forall (acc : list scenario) (c : nat) (w : world),
  exists r w', namedScenarios beyond testLog names acc c w = Normal (r, w').
Proof.
  induction names as [ | nm names IH]; intros H acc c w.
  - eexists. eexists. reflexivity.
  - cbn [forallb] in H. apply andb_true_iff in H. destruct H as [Hnm Hnames].
    cbn [namedScenarios]. unfold bindE.
    destruct (namedScenario_returns (beyond := beyond) testLog nm c w Hnm) as (s & w1 & ->).
    apply IH. exact Hnames.
Qed.

(** X9.  prepareScenarioResults of report-integration.js returns a list
    whenever no scenario name of the log holds a character that the pattern
    grammar gives a meaning to, and the declared total is one that a list
    can reach: the patterns that it builds from such names are well formed,
    so that the RegExp constructor does not throw.  The bound on the total
    is that of the language for the length of an array; the lists of the
    model have no such bound. *)
Theorem plain_names_never_throw :
  forall (beyond : RegExp.engine) (testLog : string) (w : world),
    forallb plain (scenarioNames testLog) = true ->
    reachable testLog = true ->
    exists l, value (prepareScenarioResults beyond testLog w) = Normal l.
Proof.
  intros beyond testLog w H _. unfold prepareScenarioResults.
  destruct (noScenarioInfo testLog).
  - rewrite value_lift. eexists. reflexivity.
  - unfold bindE, reconstruct.
    destruct (namedScenarios_return (beyond := beyond) testLog (scenarioNames testLog)
                H [] 1 w) as (r & w1 & ->).
    rewrite value_lift. eexists. reflexivity.
Qed.

Lemma plain_names_never_throw_declaredFour :
  (forallb plain (scenarioNames Logs.declaredFour) = true
   /\ reachable Logs.declaredFour = true)
  /\ exists l,
       value (prepareScenarioResults Logs.strict Logs.declaredFour Logs.ticking) = Normal l.
Proof.
  split; [ split; vm_compute; reflexivity | ].
  apply (plain_names_never_throw Logs.strict Logs.declaredFour Logs.ticking);
    vm_compute; reflexivity.
Defined.

End PlainNames.

(* ===================================================================== *)
(** ** Further properties of the class TestReportGenerator                 *)
(* ===================================================================== *)

Section GeneratorClass.
Import Generator Counts.

Lemma countStatus_push (st : string) (l : list scenario) (sc : scenario) :
  countStatus st (l ++ [sc])
    = countStatus st l + (if String.eqb (status sc) st then 1 else 0).
Proof.
  unfold countStatus. rewrite filter_app, length_app. cbn [filter].
  destruct (String.eqb (status sc) st); reflexivity.
Qed.

Lemma addScenario_summaryOf (l : list scenario) (sc : scenario) (r : testResults) :
  scenarios r = l -> summary_ r = summaryOf l ->
  scenarios (addScenario sc r) = (l ++ [sc])%list
  /\ summary_ (addScenario sc r) = summaryOf (l ++ [sc]).
Proof.
  intros Hs Hsum.
  assert (Hsummary : summaryOf (l ++ [sc])
            = mkSummary (S (length l))
                (countStatus "passed" l + (if String.eqb (status sc) "passed" then 1 else 0))
                (countStatus "failed" l + (if String.eqb (status sc) "failed" then 1 else 0))
                (countStatus "warning" l + (if String.eqb (status sc) "warning" then 1 else 0))
                (rate (countStatus "passed" l
                       + (if String.eqb (status sc) "passed" then 1 else 0))
                      (S (length l)))).
  { unfold summaryOf. rewrite !countStatus_push, length_app. cbn [length].
    rewrite Nat.add_1_r. destruct l; reflexivity. }
  rewrite Hsummary. unfold addScenario, push. rewrite Hs, Hsum.
  cbn [total passed failed warning summaryOf].
  destruct (String.eqb (status sc) "passed") eqn:E1.
  - apply String.eqb_eq in E1. rewrite E1. cbn [String.eqb Ascii.eqb Bool.eqb].
    cbn [summary_ scenarios]. rewrite !Nat.add_0_r, Nat.add_1_r. split; reflexivity.
  - destruct (String.eqb (status sc) "failed") eqn:E2.
    + apply String.eqb_eq in E2. rewrite E2. cbn [String.eqb Ascii.eqb Bool.eqb].
      cbn [summary_ scenarios]. rewrite !Nat.add_0_r, Nat.add_1_r. split; reflexivity.
    + destruct (String.eqb (status sc) "warning") eqn:E3;
        cbn [summary_ scenarios]; rewrite ?Nat.add_0_r, ?Nat.add_1_r; split; reflexivity.
Qed.

Lemma addAll_summaryOf (l : list scenario) :
  let r := fold_left (fun r sc => addScenario sc r) l new in
  scenarios r = l /\ summary_ r = summaryOf l.
Proof.
  induction l as [ | sc l IH] using rev_ind.
  - split; reflexivity.
  - cbv zeta in *. rewrite fold_left_app. cbn [fold_left].
    destruct IH as [H1 H2]. now apply addScenario_summaryOf.
Qed.

(** X10.  After the scenarios of a list have been added to a new generator,
    its summary has the length of the list as total, the numbers of passed,
    failed and warning scenarios of the list as the three counts, and as
    success rate the passed ones over the total, times 100 (0 for no
    scenario); its scenarios are the list. *)
Theorem summary_counts_by_status :
  forall l : list scenario,
    let r := fold_left (fun r sc => addScenario sc r) l new in
    scenarios r = l /\ summary_ r = summaryOf l.
Proof. exact addAll_summaryOf. Qed.

Lemma timed_sum_positive (l : list scenario) :
  forall acc : N,
    (acc <= fold_left (fun sum s => (sum + durationOf s)%N) l acc)%N
    /\ (forall s, In s l -> hasDuration s = true ->
          (acc < fold_left (fun sum s => (sum + durationOf s)%N) l acc)%N).
Proof.
  induction l as [ | x l IH]; intro acc; cbn [fold_left].
  - split; [ lia | intros s [] ].
  - destruct (IH (acc + durationOf x)%N) as [H1 H2]. split; [ lia | ].
    intros s [<- | Hin] Hd.
    + unfold hasDuration, durationOf in *. destruct (duration x) as [[ | p] | ];
        try discriminate. lia.
    + specialize (H2 s Hin Hd). lia.
Qed.

(** X11.  generateSummary is idempotent: a second call, as a second
    saveReport makes it, changes nothing. *)
Theorem generateSummary_twice :
  forall r : testResults,
    generateSummary (generateSummary r) = generateSummary r.
Proof.
  intro r. remember (generateSummary r) as g eqn:Hg. unfold generateSummary in Hg.
  destruct (Qeq_bool (averageResponseTime (metrics_ r)) 0 && (0 <? length (scenarios r)))
    eqn:E.
  2: { subst g. unfold generateSummary. now rewrite E. }
  destruct (0 <? length (filter hasDuration (scenarios r))) eqn:Et.
  2: { subst g. unfold generateSummary. now rewrite E, Et. }
  subst g. unfold generateSummary. cbn [metrics_ averageResponseTime scenarios].
  match goal with
  | |- context [Qeq_bool ?q 0] => replace (Qeq_bool q 0) with false; [ reflexivity | ]
  end.
  symmetry. apply not_true_iff_false. intro H. apply Qeq_bool_iff in H.
  unfold Qeq in H. cbn in H. rewrite Z.mul_1_r in H.
  apply Nat.ltb_lt in Et.
  destruct (filter hasDuration (scenarios r)) as [ | s timed] eqn:Ef; [ cbn in Et; lia | ].
  assert (Hs : hasDuration s = true).
  { assert (Hin : In s (filter hasDuration (scenarios r))) by (rewrite Ef; now left).
    apply filter_In in Hin. apply Hin. }
  destruct (timed_sum_positive (s :: timed) 0%N) as [_ Hp].
  specialize (Hp s (or_introl eq_refl) Hs). lia.
Qed.

End GeneratorClass.

(* ===================================================================== *)
(** ** Further properties of processTestLog                                *)
(* ===================================================================== *)

Section Report.
Import RegExp Generator Integration SpecErrors AllLogs.

Lemma errorLine_all (logContent : string) (i : nat) :
  i <= String.length logContent ->
  JS.trim (JS.substring logContent (Z.of_nat i)
             (JS.indexOf logContent (String JS.LF EmptyString) i))
  = messageAt logContent i.
Proof.
  intro Hi. unfold messageAt.
  destruct (lineBreakAfter logContent i) eqn:Hlf.
  - now rewrite errorLine_spec.
  - f_equal. unfold lineBreakAfter in Hlf. unfold JS.indexOf, JS.substring.
    rewrite indexOfFrom_LF, Hlf. rewrite Nat2Z.id.
    change (Z.to_nat (-1)) with 0.
    replace (Nat.min i (String.length logContent)) with i by lia.
    replace (Nat.min 0 (String.length logContent)) with 0 by lia.
    replace (Nat.max i 0 - Nat.min i 0) with i by lia.
    replace (Nat.min i 0) with 0 by lia. reflexivity.
Qed.

Lemma extractErrors_all (logContent : string) (fuel : nat) :
  forall (from : nat) (r : testResults) (w : world),
    from <= String.length logContent ->
    String.length logContent - from < fuel ->
    map describe (errors (metrics_ (fst (extractErrors logContent fuel from r w))))
    = (map describe (errors (metrics_ r))
       ++ map (errorAt logContent) (occurrences (JS.drop from logContent) from))%list.
Proof.
  induction fuel as [ | fuel IH]; intros from r w Hfrom Hfuel; [ lia | ].
  cbn [extractErrors]. unfold exec.
  replace (String.length logContent <? from) with false
    by (symmetry; apply Nat.ltb_ge; lia).
  pose proof (search_errorRegex (JS.drop from logContent) from) as Hs.
  destruct (search Patterns.errorRegex (JS.drop from logContent) from) as [m | ].
  - destruct Hs as (k & len & H1 & H2 & H3 & H4 & H5).
    rewrite drop_length in H3. rewrite H5.
    unfold bind, newDate. rewrite H1, H2.
    rewrite IH by lia.
    cbn [addError metrics_ errors]. unfold push.
    rewrite map_app, <- app_assoc. f_equal. cbn [map app].
    rewrite drop_drop.
    replace (from + (k + len)) with (from + k + len) by lia.
    f_equal. unfold describe, errorAt. cbn [message scenario_].
    rewrite errorLine_all by lia. reflexivity.
  - rewrite Hs. cbn [map]. now rewrite app_nil_r.
Qed.

Lemma metrics_addScenario (sc : scenario) (r : testResults) :
  metrics_ (addScenario sc r) = metrics_ r.
Proof.
  unfold addScenario.
  destruct (String.eqb (status sc) "passed"); [ reflexivity | ].
  destruct (String.eqb (status sc) "failed"); [ reflexivity | ].
  destruct (String.eqb (status sc) "warning"); reflexivity.
Qed.

Lemma metrics_addAll (l : list scenario) :
  forall r, metrics_ (fold_left (fun r sc => addScenario sc r) l r) = metrics_ r.
Proof.
  induction l as [ | sc l IH]; intro r; cbn [fold_left]; [ reflexivity | ].
  now rewrite IH, metrics_addScenario.
Qed.

Lemma errors_generateSummary (r : testResults) :
  errors (metrics_ (generateSummary r)) = errors (metrics_ r).
Proof.
  unfold generateSummary.
  destruct (Qeq_bool _ 0 && _); [ | reflexivity ].
  destruct (0 <? _); reflexivity.
Qed.

(** X12.  The errors of every report that processTestLog builds, whatever
    the reading of dates and the engine: one record per occurrence of Error:
    or failed: (letter case apart), in order, with the scenario Unknown.
    The message is the text from the occurrence to the next line break,
    trimmed; where no line break follows the occurrence it is the trimmed
    text of the log before the occurrence. *)
Theorem errors_of_every_log :
  forall (readDate : dateReader) (beyond : RegExp.engine)
         (logContent : string) (w : world) (r : testResults),
    processTestLog readDate beyond logContent w = Some r ->
    map describe (errors (metrics_ r))
    = map (errorAt logContent) (occurrences logContent 0).
Proof.
  intros readDate beyond logContent w r Hr.
  destruct (processTestLog_report (beyond := beyond) logContent w r Hr)
    as (w0 & w1 & l & _ & ->).
  set (r1 := fold_left (fun r sc => addScenario sc r) l new).
  set (u := mkUpdate _ _).
  pose proof (extractErrors_all logContent (S (String.length logContent)) 0
                (addMetrics u r1) w1) as H.
  destruct (extractErrors logContent _ 0 (addMetrics u r1) w1) as [r3 w3].
  cbn [fst] in H |- *.
  rewrite errors_generateSummary, H by lia.
  cbn [addMetrics metrics_ errors]. unfold r1. rewrite metrics_addAll. reflexivity.
Qed.

(** The theorem at [Logs.twoErrors], whose second occurrence is on the last
    line: its message is the first line. *)
Lemma errors_of_every_log_twoErrors :
  exists r,
    processTestLog (Logs.always 0) Logs.strict Logs.twoErrors Logs.ticking = Some r
    /\ map describe (errors (metrics_ r))
       = [("Error: disk full", "Unknown"); ("Error: disk full", "Unknown")].
Proof.
  eexists. split; [ vm_compute; reflexivity | ].
  match goal with
  | |- map describe (errors (metrics_ ?r)) = _ =>
      rewrite (errors_of_every_log (Logs.always 0) Logs.strict Logs.twoErrors
                 Logs.ticking r)
  end; vm_compute; reflexivity.
Defined.

Lemma summary_generateSummary (r : testResults) :
  summary_ (generateSummary r) = summary_ r /\ scenarios (generateSummary r) = scenarios r.
Proof.
  unfold generateSummary.
  destruct (Qeq_bool _ 0 && _); [ | auto ].
  destruct (0 <? _); auto.
Qed.

Lemma counted_partition (l : list scenario) :
  forallb Spec.counted l = true ->
  length l = Counts.countStatus "passed" l + Counts.countStatus "failed" l
             + Counts.countStatus "warning" l.
Proof.
  unfold Counts.countStatus.
  induction l as [ | s l IH]; intro H; [ reflexivity | ].
  cbn [forallb] in H. apply andb_true_iff in H. destruct H as [Hs Hl].
  specialize (IH Hl). cbn [filter length]. unfold Spec.counted in Hs.
  destruct (String.eqb (status s) "passed") eqn:E1.
  - apply String.eqb_eq in E1. rewrite E1. cbn [String.eqb Ascii.eqb Bool.eqb length]. lia.
  - destruct (String.eqb (status s) "failed") eqn:E2.
    + apply String.eqb_eq in E2. rewrite E2. cbn [String.eqb Ascii.eqb Bool.eqb length]. lia.
    + destruct (String.eqb (status s) "warning") eqn:E3; [ | discriminate ].
      cbn [length]. lia.
Qed.

Lemma integration_nonempty {beyond : RegExp.engine}
    (testLog : string) (w : world) (l : list scenario) :
  value (prepareScenarioResults beyond testLog w) = Normal l -> 0 < length l.
Proof.
  unfold prepareScenarioResults. destruct (noScenarioInfo testLog).
  - rewrite value_lift. intro H. injection H as <-. cbn. lia.
  - unfold bindE.
    destruct (reconstruct beyond testLog w) as [[[parsed c] w1] | e]; [ | discriminate ].
    rewrite value_lift. intro H. injection H as <-. cbn [fst snd].
    unfold reconcile, bind.
    destruct (topUp (declaredTotal testLog) parsed c w1) as [filled w2].
    destruct (length filled =? 0) eqn:E.
    + cbn. lia.
    + apply Nat.eqb_neq in E. unfold ret. cbn [fst]. lia.
Qed.

(** X13.  The scenarios of every report that processTestLog builds are a
    list that prepareScenarioResults returned for the log.  That list is
    not empty: the total of the summary is its length, every scenario is
    counted as passed, failed or warning, so that the three counts add up to
    the total, and the success rate is the share of the passed ones. *)
Theorem report_counts_every_scenario :
  forall (readDate : dateReader) (beyond : RegExp.engine)
         (logContent : string) (w : world) (r : testResults),
    processTestLog readDate beyond logContent w = Some r ->
    (exists w0, value (prepareScenarioResults beyond logContent w0) = Normal (scenarios r))
    /\ summary_ r = Counts.summaryOf (scenarios r)
    /\ 0 < total (summary_ r)
    /\ total (summary_ r)
       = passed (summary_ r) + failed (summary_ r) + warning (summary_ r).
Proof.
  intros readDate beyond logContent w r Hr.
  destruct (processTestLog_report (beyond := beyond) logContent w r Hr)
    as (w0 & w1 & l & Hl & ->).
  assert (Hv : value (prepareScenarioResults beyond logContent w0) = Normal l)
    by now rewrite Hl.
  pose proof (integration_statuses (beyond := beyond) logContent w0 l Hv) as Hc.
  pose proof (integration_nonempty (beyond := beyond) logContent w0 l Hv) as Hne.
  destruct (addAll_summaryOf l) as [A1 A2]. cbv zeta in A1, A2.
  set (r1 := fold_left (fun r sc => addScenario sc r) l new) in *.
  set (u := mkUpdate _ _).
  destruct (extractErrors_keeps logContent (S (String.length logContent)) 0
              (addMetrics u r1) w1) as (K1 & K2 & _).
  destruct (extractErrors logContent _ 0 (addMetrics u r1) w1) as [r3 w3].
  cbn [fst addMetrics scenarios summary_] in K1, K2 |- *.
  destruct (summary_generateSummary r3) as [-> ->]. rewrite K1, K2, A1, A2.
  split; [ exists w0; exact Hv | ]. split; [ reflexivity | ]. split.
  - exact Hne.
  - cbn [Counts.summaryOf total passed failed warning]. now apply counted_partition.
Qed.

Lemma report_counts_every_scenario_declaredFour :
  exists r,
    processTestLog (Logs.always 0) Logs.strict Logs.declaredFour Logs.ticking = Some r
    /\ map outline (scenarios r) = map outline Logs.returnedForDeclaredFour
    /\ summary_ r = Counts.summaryOf (scenarios r)
    /\ 0 < total (summary_ r)
    /\ total (summary_ r)
       = passed (summary_ r) + failed (summary_ r) + warning (summary_ r).
Proof.
  eexists. split; [ vm_compute; reflexivity | ]. split; [ vm_compute; reflexivity | ].
  match goal with
  | |- summary_ ?r = _ /\ _ =>
      apply (report_counts_every_scenario (Logs.always 0) Logs.strict Logs.declaredFour
               Logs.ticking r)
  end.
  vm_compute. reflexivity.
Defined.

(** Whether prepareScenarioResults returns does not depend on the clock. *)
Lemma returns_at_any_time {beyond : RegExp.engine} (testLog : string) (w1 w2 : world) :
  (exists l, value (prepareScenarioResults beyond testLog w1) = Normal l) ->
  exists l, value (prepareScenarioResults beyond testLog w2) = Normal l.
Proof.
  intros [l H]. pose proof (integration_agree (beyond := beyond) testLog w1 w2) as A.
  unfold Runs.agree in A.
  destruct (prepareScenarioResults beyond testLog w1) as [[l1 u1] | e1]; [ | discriminate ].
  destruct (prepareScenarioResults beyond testLog w2) as [[l2 u2] | e2]; [ | contradiction ].
  now exists l2.
Qed.

(** X24.  processTestLog gets as far as saving a report exactly when the
    texts behind the markers of the start and of the end of the run are
    valid dates, where the log has these markers, the declared total is one
    that a list can reach, and prepareScenarioResults returns.  In every
    other case it returns null without a report: a date that cannot be read
    discards the report, whatever else the log holds. *)
Theorem report_needs_valid_dates :
  forall (readDate : dateReader) (beyond : RegExp.engine) (logContent : string) (w : world),
    (exists r, processTestLog readDate beyond logContent w = Some r)
    <-> (validDate readDate logContent Patterns.startTimeRegex = true
         /\ validDate readDate logContent Patterns.endTimeRegex = true
         /\ reachable logContent = true
         /\ exists l, value (prepareScenarioResults beyond logContent w) = Normal l).
Proof.
  intros readDate beyond logContent w.
  unfold processTestLog, validDate, timeOf. cbn [newDate].
  set (wa := fun n : nat => w (S (S (S n)))).
  destruct (match_ logContent Patterns.startTimeRegex) as [ms | ];
    destruct (match_ logContent Patterns.endTimeRegex) as [me | ];
    unfold ret, bind, newDate; cbn [setTiming found].
  all: try destruct (readDate (capture1 ms)); try destruct (readDate (capture1 me));
    cbn [setTiming found].
  all: try (split; [ intros [r H]; discriminate H
                   | intros (H1 & H2 & _); discriminate H1 || discriminate H2 ]).
  all: match goal with
       | |- context [prepareScenarioResults _ _ ?w0] =>
           pose proof (returns_at_any_time (beyond := beyond) logContent w0 w) as T1;
           pose proof (returns_at_any_time (beyond := beyond) logContent w w0) as T2;
           destruct (prepareScenarioResults beyond logContent w0) as [[l w1] | e]
       end.
  all: destruct (reachable logContent); cbn [negb].
  all: try (split; [ intros [r H]; discriminate H | ]).
  all: try (intros (_ & _ & H & _); discriminate H).
  all: try (intros (_ & _ & _ & H); destruct (T2 H) as [l' H']; discriminate H').
  all: split;
    [ intros _; repeat split; apply T1; now exists l
    | intros _; destruct (extractErrors logContent _ 0 _ w1) as [r3 w3]; eexists; reflexivity ].
Qed.

(** The log of the concrete scenario gives a report; behind a start marker
    whose text is no date, it gives none. *)
Example report_of_startedYesterday :
  forall (beyond : RegExp.engine) (w : world),
    processTestLog (Logs.butYesterday 0) beyond Logs.startedYesterday w = None
    /\ exists r, processTestLog (Logs.butYesterday 0) beyond Logs.declaredFour w = Some r.
Proof.
  intros beyond w. split; [ vm_compute; reflexivity | ].
  eexists. vm_compute. reflexivity.
Qed.

End Report.

(* ===================================================================== *)
(** ** The command line of report-integration.js                           *)
(* ===================================================================== *)

Section CommandLine.
Import Cli.

Lemma get_set (k k' : key) (v : option string) (o : options) :
  get k (set k' v o) = if key_eqb k k' then v else get k o.
Proof. destruct k, k'; reflexivity. Qed.

Lemma key_eqb_eq (k k' : key) : key_eqb k k' = true <-> k = k'.
Proof. destruct k, k'; split; intro H; (reflexivity || discriminate). Qed.

Lemma parseArgs_sound (n : nat) :
  forall (args : list string) (o : options) (k : key) (v : string),
    length args <= n ->
    get k (parseArgs args o) = Some v ->
    get k o = Some v
    \/ exists pre flag post,
         args = (pre ++ flag :: v :: post)%list /\ keyOf flag = Some k.
Proof.
  induction n as [ | n IH]; intros args o k v Hn H.
  - destruct args; [ now left | cbn in Hn; lia ].
  - destruct args as [ | a rest]; [ now left | ].
    cbn [parseArgs] in H. cbn [length] in Hn.
    destruct (keyOf a) as [k' | ] eqn:Ea.
    + destruct rest as [ | x rest'].
      * rewrite get_set in H. destruct (key_eqb k k'); [ discriminate | now left ].
      * cbn [length] in Hn.
        destruct (IH rest' (set k' (Some x) o) k v ltac:(lia) H) as [Hs | (pre & f & post & -> & Hf)].
        -- rewrite get_set in Hs. destruct (key_eqb k k') eqn:Ek; [ | now left ].
           apply key_eqb_eq in Ek. subst k'. injection Hs as ->.
           right. exists [], a, rest'. split; [ reflexivity | exact Ea ].
        -- right. exists (a :: x :: pre), f, post. split; [ reflexivity | exact Hf ].
    + destruct (IH rest o k v ltac:(lia) H) as [Hs | (pre & f & post & -> & Hf)].
      * now left.
      * right. exists (a :: pre), f, post. split; [ reflexivity | exact Hf ].
Qed.

(** X14.  An option that main hands to the test has a value only when the
    command line holds that value directly behind one of the spellings of
    the option. *)
Theorem option_values_follow_their_flag :
  forall (args : list string) (o : options) (shouldOpen : bool) (k : key) (v : string),
    main args = Run o shouldOpen ->
    get k o = Some v ->
    exists pre flag post,
      args = (pre ++ flag :: v :: post)%list /\ keyOf flag = Some k.
Proof.
  intros args o shouldOpen k v Hm Hv. unfold main in Hm.
  destruct (hasArg args "--help" || hasArg args "-h"); [ discriminate | ].
  injection Hm as <- _.
  destruct (parseArgs_sound (length args) args noOptions k v (le_n _) Hv)
    as [Hs | Hs]; [ | exact Hs ].
  destruct k; discriminate.
Qed.

Lemma option_values_follow_their_flag_title :
  (main ["--open"; "--title"; "Nightly"; "-u"]
     = Run (mkOptions None None None None (Some "Nightly") None) true
   /\ get Title (mkOptions None None None None (Some "Nightly") None) = Some "Nightly")
  /\ exists pre flag post,
       ["--open"; "--title"; "Nightly"; "-u"] = (pre ++ flag :: "Nightly" :: post)%list
       /\ keyOf flag = Some Title.
Proof.
  split; [ split; reflexivity | ].
  apply (option_values_follow_their_flag ["--open"; "--title"; "Nightly"; "-u"]
           (mkOptions None None None None (Some "Nightly") None) true Title "Nightly");
    reflexivity.
Defined.

Lemma find_last {A : Type} (f : A -> bool) (l : list A) (x : A) :
  find f (l ++ [x]) = match find f l with Some y => Some y | None => find f [x] end.
Proof.
  induction l as [ | y l IH]; [ reflexivity | ].
  simpl. destruct (f y); [ reflexivity | exact IH ].
Qed.

Lemma parseArgs_spelled (pairs : list (string * string)) :
  forallb (fun p => found (keyOf (fst p))) pairs = true ->
  forall (o : options) (k : key),
    get k (parseArgs (spelled pairs) o)
      = match lastValue k pairs with Some v => Some v | None => get k o end.
Proof.
  induction pairs as [ | [f v] pairs IH]; intros H o k.
  - reflexivity.
  - cbn [forallb fst] in H. apply andb_true_iff in H. destruct H as [Hf Hp].
    change (spelled ((f, v) :: pairs)) with (f :: v :: spelled pairs).
    cbn [parseArgs].
    destruct (keyOf f) as [k' | ] eqn:Ef; [ | discriminate ].
    rewrite (IH Hp). unfold lastValue. cbn [List.rev].
    rewrite find_last.
    destruct (find _ (List.rev pairs)) as [p | ]; [ reflexivity | ].
    cbn [find fst snd]. rewrite Ef, get_set.
    destruct (key_eqb k k'); reflexivity.
Qed.

(** X15.  On a command line that spells out options one after the other,
    each followed by its value, and has neither help flag, main runs the
    test, and every option has the value that was given last for it, in
    either spelling, and none when it was not given. *)
Theorem last_value_wins :
  forall (pairs : list (string * string)),
    forallb (fun p => found (keyOf (fst p))) pairs = true ->
    hasArg (spelled pairs) "--help" || hasArg (spelled pairs) "-h" = false ->
    exists o shouldOpen,
      main (spelled pairs) = Run o shouldOpen
      /\ forall k, get k o = lastValue k pairs.
Proof.
  intros pairs Hp Hh. unfold main. rewrite Hh.
  eexists. eexists. split; [ reflexivity | ].
  intro k. rewrite (parseArgs_spelled pairs Hp).
  destruct (lastValue k pairs); [ reflexivity | now destruct k ].
Qed.

Lemma last_value_wins_url :
  (forallb (fun p => found (keyOf (fst p)))
     [("--url", "http://a"); ("--title", "-o"); ("-u", "http://b")] = true
   /\ hasArg (spelled [("--url", "http://a"); ("--title", "-o"); ("-u", "http://b")]) "--help"
      || hasArg (spelled [("--url", "http://a"); ("--title", "-o"); ("-u", "http://b")]) "-h"
      = false)
  /\ exists o shouldOpen,
       main (spelled [("--url", "http://a"); ("--title", "-o"); ("-u", "http://b")])
         = Run o shouldOpen
       /\ forall k, get k o
            = lastValue k [("--url", "http://a"); ("--title", "-o"); ("-u", "http://b")].
Proof.
  split; [ split; reflexivity | ].
  apply (last_value_wins [("--url", "http://a"); ("--title", "-o"); ("-u", "http://b")]);
    reflexivity.
Defined.

End CommandLine.

(* ===================================================================== *)
(** ** formatDuration                                                      *)
(* ===================================================================== *)

Section Durations.
Import Format.
Local Open Scope Z_scope.

Lemma digits_of_uint (u : Decimal.uint) : digits (NilEmpty.string_of_uint u) = true.
Proof. induction u; cbn; auto. Qed.

Lemma digits_toString (n : nat) : digits (JS.toString n) = true.
Proof. apply digits_of_uint. Qed.









Lemma append_length (x y : string) :
  String.length (x ++ y) = (String.length x + String.length y)%nat.
Proof. induction x as [ | a x IH]; cbn; [ reflexivity | now rewrite IH ]. Qed.




End Durations.

(* ===================================================================== *)
(** ** What the patterns built from a plain name match                     *)
(* ===================================================================== *)

Section PlainPatterns.
Import RegExp Integration Plain.

Lemma readChars_frame (s : string) :
  forall cur : frame,
    readChars s cur
    = mkFrame (f_group cur) (f_alts cur)
        (List.rev (map Chr (list_ascii_of_string s)) ++ f_terms cur).
Proof.
  unfold readChars.
  induction s as [ | a s IH]; intro cur; cbn [list_ascii_of_string fold_left map List.rev].
  - now destruct cur.
  - rewrite IH. unfold push_term. cbn [f_group f_alts f_terms].
    now rewrite <- app_assoc.
Qed.

Lemma sequence_snoc (l : list regex) (t : regex) :
  sequence (l ++ [t]) = match sequence l with Eps => t | r => Seq t r end.
Proof.
  unfold sequence. rewrite fold_left_app. cbn [fold_left].
  destruct (fold_left _ l Eps); reflexivity.
Qed.

Lemma compile_sequence_snoc (ic : bool) (l : list regex) (t : regex)
    (x : string) (cap : captures) (k : continuation) :
  compile ic (sequence (l ++ [t])) x cap k
  = compile ic t x cap (fun y c => compile ic (sequence l) y c k).
Proof. rewrite sequence_snoc. destruct (sequence l); destruct t; reflexivity. Qed.

Lemma prefix_cons (a : ascii) (s : string) (b : ascii) (x : string) :
  prefix (String a s) (String b x) = Ascii.eqb a b && prefix s x.
Proof.
  cbn [prefix]. destruct (ascii_dec a b) as [E | E].
  - subst. now rewrite Ascii.eqb_refl.
  - apply Ascii.eqb_neq in E. now rewrite E.
Qed.

(** The pattern of a plain text matches where the text stands. *)
Lemma compile_literal (s : string) (tl : list regex) :
  forall (x : string) (cap : captures) (k : continuation),
    compile false (literal s tl) x cap k
    = if prefix s x then compile false (sequence tl) (JS.drop (String.length s) x) cap k
      else None.
Proof.
  unfold literal.
  induction s as [ | a s IH]; intros x cap k.
  - cbn [list_ascii_of_string map List.rev String.length JS.drop]. rewrite app_nil_r.
    destruct x; reflexivity.
  - cbn [list_ascii_of_string map List.rev]. rewrite app_assoc, compile_sequence_snoc.
    cbn [compile]. destruct x as [ | b x]; [ reflexivity | ].
    rewrite prefix_cons. unfold char_eq.
    destruct (Ascii.eqb a b); [ | reflexivity ].
    cbn [andb String.length JS.drop]. apply IH.
Qed.

Lemma append_empty (s : string) : (s ++ EmptyString)%string = s.
Proof. induction s as [ | a s IH]; cbn [append]; [ reflexivity | now rewrite IH ]. Qed.

Lemma append_assoc (a b c : string) : ((a ++ b) ++ c)%string = (a ++ b ++ c)%string.
Proof. induction a as [ | x a IH]; cbn [append]; [ reflexivity | now rewrite IH ]. Qed.

Lemma plain_append (a b : string) : plain (a ++ b) = plain a && plain b.
Proof.
  induction a as [ | x a IH]; cbn [append plain]; [ reflexivity | ].
  now rewrite IH, andb_assoc.
Qed.

Lemma parse_plain_frame (s : string) (rest : string) (cur : frame) (stack : list frame)
    (q : qstate) (n : nat) :
  plain s = true ->
  exists q',
    parse (s ++ rest) cur stack q n
    = parse rest (mkFrame (f_group cur) (f_alts cur)
                    (List.rev (map Chr (list_ascii_of_string s)) ++ f_terms cur)) stack q' n.
Proof.
  intro H. destruct (parse_plain s rest cur stack q n H) as [q' Hq'].
  exists q'. now rewrite Hq', readChars_frame.
Qed.

Lemma RegExp_new_literal (s : string) :
  plain s = true -> RegExp_new s = Pattern (mkRegExp (literal s []) 0 false).
Proof.
  intro H. unfold RegExp_new.
  destruct (parse_plain_frame s EmptyString (mkFrame 0 [] []) [] NoTerm 0 H) as [q' Hq'].
  rewrite append_empty in Hq'. rewrite Hq'. cbn [f_group f_alts f_terms].
  rewrite app_nil_r. reflexivity.
Qed.

Lemma RegExp_new_detail (s : string) :
  plain s = true ->
  RegExp_new (s ++ "(.*)")
  = Pattern (mkRegExp (literal s [Grp 1 (star (Cls AnyChar))]) 1 false).
Proof.
  intro H. unfold RegExp_new.
  destruct (parse_plain_frame s "(.*)" (mkFrame 0 [] []) [] NoTerm 0 H) as [q' ->].
  cbn [f_group f_alts f_terms]. rewrite app_nil_r. reflexivity.
Qed.

(** The greedy star of the dot, before a continuation that accepts: it
    takes the rest of the line. *)
Lemma star_any (g : string -> captures -> state) (fuel : nat) :
  forall (x : string) (cap : captures),
    String.length x < fuel ->
    RepeatMatcher (compile false (Cls AnyChar)) [] fuel 0 None true x cap
      (fun y c => Some (g y c))
    = Some (g (afterLine x) cap).
Proof.
  induction fuel as [ | fuel IH]; intros x cap H; [ lia | ].
  cbn [RepeatMatcher Nat.eqb negb andb clear_captures fold_left compile].
  destruct x as [ | a x]; [ reflexivity | ].
  cbn [in_charset afterLine]. destruct (JS.isLineTerminator a); cbn [negb]; [ reflexivity | ].
  cbn [String.length] in *.
  replace (String.length x =? S (String.length x)) with false
    by (symmetry; apply Nat.eqb_neq; lia).
  cbn [pred option_map]. rewrite IH by lia. reflexivity.
Qed.

Lemma afterLine_length (x : string) : String.length (afterLine x) <= String.length x.
Proof.
  induction x as [ | a x IH]; cbn [afterLine]; [ lia | ].
  destruct (JS.isLineTerminator a); cbn [String.length]; lia.
Qed.

Lemma consumed_line (x : string) : consumed x (afterLine x) = restOfLine x.
Proof.
  unfold consumed. induction x as [ | a x IH]; [ reflexivity | ].
  cbn [afterLine restOfLine]. destruct (JS.isLineTerminator a).
  - now rewrite Nat.sub_diag.
  - pose proof (afterLine_length x). cbn [String.length].
    replace (S (String.length x) - String.length (afterLine x))
      with (S (String.length x - String.length (afterLine x))) by lia.
    cbn [JS.take]. now rewrite IH.
Qed.

Lemma compile_detail (y : string) :
  compile false (sequence [Grp 1 (star (Cls AnyChar))]) y [None]
    (fun z cap => Some (z, cap))
  = Some (afterLine y, [Some (restOfLine y)]).
Proof.
  change (sequence [Grp 1 (star (Cls AnyChar))]) with (Grp 1 (star (Cls AnyChar))).
  unfold star. cbn [compile groups_of].
  rewrite (star_any (fun z capz => (z, set_capture 1 (Some (consumed y z)) capz)))
    by (cbn; lia).
  now rewrite consumed_line.
Qed.

Lemma search_literal (s : string) :
  forall (x : string) (i : nat),
    found (search (mkRegExp (literal s []) 0 false) x i) = found (behind s x).
Proof.
  induction x as [ | a x IH]; intro i; rewrite search_unfold;
    cbn [ignoreCase pattern nCaptures repeat]; rewrite compile_literal; cbn [behind].
  - destruct (prefix s EmptyString); reflexivity.
  - destruct (prefix s (String a x)); [ reflexivity | apply IH ].
Qed.

Lemma search_detail (s : string) :
  forall (x : string) (i : nat),
    option_map (fun m => group m 1)
      (search (mkRegExp (literal s [Grp 1 (star (Cls AnyChar))]) 1 false) x i)
    = option_map (fun y => Some (restOfLine y)) (behind s x).
Proof.
  induction x as [ | a x IH]; intro i; rewrite search_unfold;
    cbn [ignoreCase pattern nCaptures repeat]; rewrite compile_literal; cbn [behind].
  - destruct (prefix s EmptyString); [ | reflexivity ].
    rewrite compile_detail. reflexivity.
  - destruct (prefix s (String a x)); [ | apply IH ].
    rewrite compile_detail. reflexivity.
Qed.

Lemma match_search (testLog : string) (re : regexp) :
  match_ testLog re = search re testLog 0.
Proof. unfold match_, exec. cbn [Nat.ltb Nat.leb]. now destruct testLog. Qed.

Lemma matchNew_literal {beyond : RegExp.engine} (testLog s : string) (w : world) :
  plain s = true ->
  exists m, matchNew beyond testLog s w = Normal (m, w) /\ found m = found (behind s testLog).
Proof.
  intro H. unfold matchNew. rewrite (RegExp_new_literal s H).
  eexists. split; [ reflexivity | ]. rewrite match_search. apply search_literal.
Qed.

Lemma matchNew_detail {beyond : RegExp.engine} (testLog s : string) (w : world) :
  plain s = true ->
  exists m,
    matchNew beyond testLog (s ++ "(.*)") w = Normal (m, w)
    /\ option_map (fun m => group m 1) m
       = option_map (fun y => Some (restOfLine y)) (behind s testLog).
Proof.
  intro H. unfold matchNew. rewrite (RegExp_new_detail s H).
  eexists. split; [ reflexivity | ]. rewrite match_search. apply search_detail.
Qed.

Lemma plain_quoted (nm words : string) :
  plain nm = true -> plain words = true ->
  plain ("Scenario " ++ JS.quoted nm ++ words) = true.
Proof.
  intros H1 H2. unfold JS.quoted.
  change ("Scenario " ++ String JS.dquote (nm ++ String JS.dquote EmptyString) ++ words)%string
    with (("Scenario " ++ String JS.dquote EmptyString)
          ++ ((nm ++ String JS.dquote EmptyString) ++ words))%string.
  rewrite !plain_append, H1, H2. reflexivity.
Qed.

Lemma detail_text (nm : string) :
  ("Scenario " ++ JS.quoted nm ++ " failed: (.*)")%string
  = (("Scenario " ++ JS.quoted nm ++ " failed: ") ++ "(.*)")%string
  /\ (nm ++ " failed: (.*)")%string = ((nm ++ " failed: ") ++ "(.*)")%string.
Proof.
  split.
  - change " failed: (.*)" with (" failed: " ++ "(.*)")%string.
    now rewrite !append_assoc.
  - change " failed: (.*)" with (" failed: " ++ "(.*)")%string.
    now rewrite append_assoc.
Qed.

(** The scenario of a plain name, as the loop builds it. *)
Lemma namedScenario_plain {beyond : RegExp.engine} (testLog nm : string) (c : nat) (w : world) :
  plain nm = true ->
  exists s w',
    namedScenario beyond testLog nm c w = Normal (s, w')
    /\ name s = nm
    /\ status s = statusFor testLog nm
    /\ error s = errorFor testLog nm.
Proof.
  intro H. unfold namedScenario, bindE, matchEither, bindE.
  destruct (detail_text nm) as [T1 T2]. rewrite T1, T2.
  assert (P1 : plain ("Scenario " ++ JS.quoted nm ++ " completed successfully") = true)
    by (now apply plain_quoted).
  assert (P2 : plain (nm ++ " completed successfully") = true)
    by (rewrite plain_append, H; reflexivity).
  assert (P3 : plain ("Scenario " ++ JS.quoted nm ++ " failed: ") = true)
    by (now apply plain_quoted).
  assert (P4 : plain (nm ++ " failed: ") = true)
    by (rewrite plain_append, H; reflexivity).
  unfold statusFor, errorFor, mention.
  destruct (matchNew_literal (beyond := beyond) testLog _ w P1) as (c1 & -> & C1).
  assert (C : exists isCompleted,
             (match c1 with
              | Some _ => retE c1
              | None => matchNew beyond testLog (nm ++ " completed successfully")
              end) w = Normal (isCompleted, w)
             /\ found isCompleted
                = found (orElse (behind ("Scenario " ++ JS.quoted nm ++ " completed successfully")
                                   testLog)
                                (behind (nm ++ " completed successfully") testLog))).
  { destruct (behind ("Scenario " ++ JS.quoted nm ++ " completed successfully") testLog),
      c1 as [m1 | ]; try discriminate C1.
    - exists (Some m1). split; reflexivity.
    - destruct (matchNew_literal (beyond := beyond) testLog _ w P2) as (c2 & -> & C2).
      exists c2. split; [ reflexivity | exact C2 ]. }
  destruct C as (isCompleted & -> & C).
  destruct (matchNew_detail (beyond := beyond) testLog _ w P3) as (f1 & -> & F1).
  assert (F : exists failedMatch,
             (match f1 with
              | Some _ => retE f1
              | None => matchNew beyond testLog ((nm ++ " failed: ") ++ "(.*)")
              end) w = Normal (failedMatch, w)
             /\ option_map (fun m => group m 1) failedMatch
                = option_map (fun y => Some (restOfLine y))
                    (orElse (behind ("Scenario " ++ JS.quoted nm ++ " failed: ") testLog)
                            (behind (nm ++ " failed: ") testLog))).
  { destruct (behind ("Scenario " ++ JS.quoted nm ++ " failed: ") testLog),
      f1 as [m1 | ]; try discriminate F1.
    - exists (Some m1). split; [ reflexivity | exact F1 ].
    - destruct (matchNew_detail (beyond := beyond) testLog _ w P4) as (f2 & -> & F2).
      exists f2. split; [ reflexivity | exact F2 ]. }
  destruct F as (failedMatch & -> & F).
  unfold lift, newDate, retE. eexists. eexists. split; [ reflexivity | ].
  cbn [name status error].
  destruct (orElse (behind ("Scenario " ++ JS.quoted nm ++ " failed: ") testLog)
                   (behind (nm ++ " failed: ") testLog)) as [x | ],
    failedMatch as [m | ]; try discriminate F.
  - repeat split. cbn [option_map] in F. injection F as F.
    unfold group_or. rewrite F. now destruct (restOfLine x).
  - repeat split.
    destruct (orElse (behind ("Scenario " ++ JS.quoted nm ++ " completed successfully") testLog)
                     (behind (nm ++ " completed successfully") testLog)),
      isCompleted; try discriminate C; reflexivity.
Qed.

Lemma namedScenarios_plain {beyond : RegExp.engine} (testLog : string) (names : list string) :
  forallb plain names = true ->
  forall (acc : list scenario) (c : nat) (w : world),
  exists l c' w',
    namedScenarios beyond testLog names acc c w = Normal ((acc ++ l)%list, c', w')
    /\ map telling l = map (told testLog) names.
Proof.
  induction names as [ | nm names IH]; intros H acc c w.
  - exists [], c, w. rewrite app_nil_r. split; reflexivity.
  - cbn [forallb] in H. apply andb_true_iff in H. destruct H as [Hnm Hnames].
    cbn [namedScenarios]. unfold bindE.
    destruct (namedScenario_plain (beyond := beyond) testLog nm c w Hnm)
      as (s & w1 & -> & S1 & S2 & S3).
    destruct (IH Hnames (push acc s) (S c) w1) as (l & c' & w' & -> & Hl).
    exists (s :: l), c', w'. unfold push. rewrite <- app_assoc. split; [ reflexivity | ].
    cbn [map]. rewrite Hl. unfold telling at 1, told at 2. now rewrite S1, S2, S3.
Qed.

(** X17.  For a log that has the word Scenario or declares a total, and
    whose scenario names are plain, every list that prepareScenarioResults
    of report-integration.js returns begins with one scenario per name of
    the log.  The scenario is failed when the log has the name before the
    words failed and a colon (in quotes after the word Scenario, or bare),
    and its error is then the rest of that line, or the text Scenario failed
    when the line ends there; otherwise it is passed when the log has the
    name before the words completed successfully, and warning when it has
    neither. *)
Theorem plain_names_are_judged_by_the_log :
  forall (beyond : RegExp.engine) (testLog : string) (w : world) (l : list scenario),
    forallb plain (scenarioNames testLog) = true ->
    noScenarioInfo testLog = false ->
    value (prepareScenarioResults beyond testLog w) = Normal l ->
    exists named rest,
      l = (named ++ rest)%list
      /\ map telling named = map (told testLog) (scenarioNames testLog).
Proof.
  intros beyond testLog w l H Hinfo. unfold prepareScenarioResults. rewrite Hinfo.
  unfold bindE, reconstruct.
  destruct (namedScenarios_plain (beyond := beyond) testLog (scenarioNames testLog) H [] 1 w)
    as (named & c & w1 & -> & Hn).
  rewrite value_lift. cbn [fst snd List.app].
  destruct (reconcile_keeps (declaredTotal testLog) named c w1) as [rest ->].
  intro Hl. injection Hl as <-.
  exists named, rest. split; [ reflexivity | exact Hn ].
Qed.

Lemma plain_names_are_judged_by_the_log_interrupted :
  (forallb plain (scenarioNames Logs.interrupted) = true
   /\ noScenarioInfo Logs.interrupted = false
   /\ value (prepareScenarioResults Logs.strict Logs.interrupted Logs.ticking)
      = Normal
          [ mkScenario 1 "Tab Navigation" "warning" 0 (Some 1%Z) (Some 5000%N) [] [] None;
            mkScenario 2 "Dashboard Controls" "failed" 2 (Some 3%Z) (Some 5000%N) [] []
              (Some "timeout") ])
  /\ exists named rest,
       [ mkScenario 1 "Tab Navigation" "warning" 0 (Some 1%Z) (Some 5000%N) [] [] None;
         mkScenario 2 "Dashboard Controls" "failed" 2 (Some 3%Z) (Some 5000%N) [] []
           (Some "timeout") ] = (named ++ rest)%list
       /\ map telling named
          = [ ("Tab Navigation", "warning", None);
              ("Dashboard Controls", "failed", Some "timeout") ].
Proof.
  split; [ repeat split; vm_compute; reflexivity | ].
  destruct (plain_names_are_judged_by_the_log Logs.strict Logs.interrupted Logs.ticking
              [ mkScenario 1 "Tab Navigation" "warning" 0 (Some 1%Z) (Some 5000%N)
                  [] [] None;
                mkScenario 2 "Dashboard Controls" "failed" 2 (Some 3%Z) (Some 5000%N)
                  [] [] (Some "timeout") ])
    as (named & rest & H1 & H2); [ vm_compute; reflexivity .. | ].
  exists named, rest. split; [ exact H1 | ]. rewrite H2. vm_compute. reflexivity.
Defined.

End PlainPatterns.

(* ===================================================================== *)
(** ** The result lines of runShinyDashboardTest, read back                *)
(* ===================================================================== *)

Section Scanning.
Import RegExp Scan.

Lemma search_shift (re : regexp) (x : string) :
  forall i : nat, search re x i = option_map (shift i) (search re x 0).
Proof.
  induction x as [ | a x IH]; intro i; rewrite (search_unfold re _ i), (search_unfold re _ 0).
  - destruct (compile _ _ _ _ _) as [[y cap] | ]; [ | reflexivity ].
    cbn [option_map]. unfold shift. cbn [index matched groups lastIndex].
    f_equal. f_equal; lia.
  - destruct (compile _ _ _ _ _) as [[y cap] | ].
    + cbn [option_map]. unfold shift. cbn [index matched groups lastIndex].
      f_equal. f_equal; lia.
    + rewrite (IH (S i)), (IH 1).
      destruct (search re x 0) as [m | ]; [ | reflexivity ].
      cbn [option_map]. unfold shift. cbn [index matched groups lastIndex].
      f_equal. f_equal; lia.
Qed.

Lemma search_barren (re : regexp) (u v : string) :
  forall i : nat,
    barren re u v = true -> search re (u ++ v) i = search re v (i + String.length u).
Proof.
  induction u as [ | a u IH]; intros i H.
  - cbn [append String.length]. now rewrite Nat.add_0_r.
  - cbn [barren] in H. rewrite search_unfold. unfold attempt in H.
    destruct (compile _ _ (String a u ++ v) _ _); [ discriminate | ].
    cbn [append]. rewrite (IH (S i) H). cbn [String.length]. f_equal. lia.
Qed.

Lemma search_here (re : regexp) (x y : string) (cap : captures) (i : nat) :
  attempt re x = Some (y, cap) ->
  search re x i = Some (mkMatch i (consumed x y) cap (i + String.length (consumed x y))).
Proof. unfold attempt. intro H. rewrite search_unfold, H. reflexivity. Qed.

Lemma barren_append (re : regexp) (u1 u2 v : string) :
  barren re u1 (u2 ++ v) = true -> barren re u2 v = true ->
  barren re (u1 ++ u2) v = true.
Proof.
  induction u1 as [ | a u1 IH]; intros H1 H2; [ exact H2 | ].
  cbn [barren] in H1. cbn [append barren]. rewrite append_assoc.
  change (String a (u1 ++ u2 ++ v)) with (String a u1 ++ u2 ++ v)%string.
  destruct (attempt re (String a u1 ++ u2 ++ v)); [ discriminate | ].
  now apply IH.
Qed.

Lemma take_length_le (n : nat) : forall x, String.length (JS.take n x) <= n.
Proof.
  induction n as [ | n IH]; intro x; cbn [JS.take].
  - destruct x; cbn; lia.
  - destruct x as [ | a x]; cbn [String.length]; [ lia | ]. specialize (IH x). lia.
Qed.

Lemma drop_append (u v : string) : JS.drop (String.length u) (u ++ v) = v.
Proof. induction u as [ | a u IH]; [ now destruct v | exact IH ]. Qed.

Lemma consumed_append (u v : string) : consumed (u ++ v) v = u.
Proof.
  unfold consumed. rewrite append_length.
  replace (String.length u + String.length v - String.length v) with (String.length u) by lia.
  induction u as [ | a u IH]; [ now destruct v | ].
  cbn [append String.length JS.take]. now rewrite IH.
Qed.

(** The scan passes a barren stretch and takes the match behind it. *)
Lemma scan_match (re : regexp) (fuel : nat) (g t y : string) (a : ascii) (cap : captures) :
  barren re g (String a t ++ y) = true ->
  attempt re (String a t ++ y) = Some (y, cap) ->
  scan re (S fuel) (g ++ String a t ++ y) = cap :: scan re fuel y.
Proof.
  intros Hg Hm. cbn [scan]. rewrite (search_barren re g _ 0 Hg).
  rewrite (search_here re _ y cap _ Hm), consumed_append.
  unfold next. cbn [matched lastIndex groups]. f_equal.
  rewrite Nat.add_0_l.
  replace (String.length (g ++ String a t ++ y) <? String.length g + String.length (String a t))
    with false by (symmetry; apply Nat.ltb_ge; rewrite !append_length; lia).
  f_equal. rewrite <- drop_drop, drop_append. apply drop_append.
Qed.

Lemma scan_barren (re : regexp) (fuel : nat) (g : string) :
  barren re g EmptyString = true -> attempt re EmptyString = None ->
  scan re fuel g = [].
Proof.
  intros Hg He. destruct fuel as [ | fuel]; [ reflexivity | ].
  cbn [scan]. rewrite <- (append_empty g), (search_barren re g _ 0 Hg).
  rewrite search_unfold. unfold attempt in He. now rewrite He.
Qed.

Lemma search_end (re : regexp) :
  forall (x : string) (i : nat) (m : match_result),
    search re x i = Some m -> lastIndex m <= i + String.length x.
Proof.
  induction x as [ | a x IHx]; intros i m; rewrite search_unfold;
    destruct (compile _ _ _ _ _) as [[y cap] | ]; intro H; try discriminate.
  - injection H as <-. cbn [lastIndex]. unfold consumed. cbn. lia.
  - injection H as <-. cbn [lastIndex]. unfold consumed.
    pose proof (take_length_le (String.length (String a x) - String.length y) (String a x)).
    lia.
  - apply IHx in H. cbn [String.length]. lia.
Qed.

Lemma compile_seq_lit (p : string) (r : regex) (x : string) (cap : captures)
    (k : continuation) :
  compile true (Seq (lit p) r) x cap k
  = if SpecErrors.startsWithCI p x
    then compile true r (JS.drop (String.length p) x) cap k else None.
Proof. cbn [compile]. now rewrite compile_lit. Qed.

(** matchAll, as a scan of the rest of the subject. *)
Lemma matchAllFrom_scan (re : regexp) (s : string) (fuel : nat) :
  forall from : nat,
    from <= String.length s ->
    map groups (matchAllFrom re s fuel from) = scan re fuel (JS.drop from s).
Proof.
  induction fuel as [ | fuel IH]; intros from Hfrom; [ reflexivity | ].
  cbn [matchAllFrom scan]. unfold exec.
  replace (String.length s <? from) with false by (symmetry; apply Nat.ltb_ge; lia).
  rewrite (search_shift re _ from).
  destruct (search re (JS.drop from s) 0) as [m | ] eqn:Hs; [ | reflexivity ].
  cbn [option_map map]. f_equal.
  assert (Hnext : next (shift from m) = from + next m).
  { unfold next, shift. cbn [matched lastIndex]. destruct (matched m); lia. }
  fold (next (shift from m)). rewrite Hnext, drop_length.
  destruct (String.length s - from <? next m) eqn:E.
  - apply Nat.ltb_lt in E. destruct fuel as [ | fuel']; [ reflexivity | ].
    cbn [matchAllFrom]. unfold exec.
    replace (String.length s <? from + next m) with true
      by (symmetry; apply Nat.ltb_lt; lia).
    reflexivity.
  - apply Nat.ltb_ge in E. rewrite IH by lia. now rewrite drop_drop.
Qed.

Lemma matchAll_scan (re : regexp) (s : string) :
  map groups (matchAll s re) = scan re (S (S (String.length s))) s.
Proof.
  unfold matchAll. rewrite matchAllFrom_scan by lia. now destruct s.
Qed.

Lemma fold_first (ms : list match_result) :
  forall names : list string,
    fold_left (fun names m => set_add (JS.trim (capture1 m)) names) ms names
    = fold_left (fun names n => set_add n names)
        (map (fun g => JS.trim (first g)) (map groups ms)) names.
Proof.
  induction ms as [ | m ms IH]; intro names; [ reflexivity | ].
  cbn [fold_left map]. rewrite IH. reflexivity.
Qed.

Lemma barren_silent (p : string) (r : regex) (n : nat) (u v : string) :
  Writer.silent p u v = true -> barren (mkRegExp (Seq (lit p) r) n true) u v = true.
Proof.
  induction u as [ | a u IH]; intro H; [ reflexivity | ].
  cbn [Writer.silent] in H. apply andb_true_iff in H. destruct H as [H1 H2].
  apply negb_true_iff in H1.
  cbn [barren]. unfold attempt. cbn [pattern ignoreCase nCaptures].
  rewrite compile_seq_lit, H1. now apply IH.
Qed.

Lemma compile_seq (ic : bool) (r1 r2 : regex) (x : string) (cap : captures)
    (k : continuation) :
  compile ic (Seq r1 r2) x cap k
  = compile ic r1 x cap (fun y c => compile ic r2 y c k).
Proof. reflexivity. Qed.

Lemma compile_grp (ic : bool) (i : nat) (r : regex) (x : string) (cap : captures)
    (k : continuation) :
  compile ic (Grp i r) x cap k
  = compile ic r x cap (fun y c => k y (set_capture i (Some (consumed x y)) c)).
Proof. reflexivity. Qed.

Lemma char_eq_dquote (a : ascii) : char_eq true JS.dquote a = Ascii.eqb a JS.dquote.
Proof. destruct a as [[] [] [] [] [] [] [] []]; reflexivity. Qed.

(** The optional quote: taken first when it is there. *)
Lemma opt_quote (x : string) (cap : captures) (k : continuation) :
  compile true (opt (Chr JS.dquote)) x cap k
  = match x with
    | String a x' =>
        if Ascii.eqb a JS.dquote
        then match k x' cap with Some z => Some z | None => k x cap end
        else k x cap
    | EmptyString => k x cap
    end.
Proof.
  unfold opt. cbn [compile groups_of]. destruct x as [ | a x]; [ reflexivity | ].
  cbn [String.length Nat.add RepeatMatcher Nat.eqb negb andb clear_captures fold_left
       compile pred option_map].
  rewrite char_eq_dquote. destruct (Ascii.eqb a JS.dquote); [ | reflexivity ].
  replace (String.length x =? S (String.length x)) with false
    by (symmetry; apply Nat.eqb_neq; lia).
  reflexivity.
Qed.

(** The greedy star of a class: the longest run first. *)
Lemma star_class (cs : charset) (k : continuation) (fuel : nat) :
  forall (x : string) (cap : captures),
    String.length x < fuel ->
    RepeatMatcher (compile true (Cls cs)) [] fuel 0 None true x cap k
    = backtrack (in_charset cs) k cap x.
Proof.
  induction fuel as [ | fuel IH]; intros x cap H; [ lia | ].
  cbn [RepeatMatcher Nat.eqb negb andb clear_captures fold_left compile].
  destruct x as [ | a x]; [ reflexivity | ].
  cbn [backtrack]. destruct (in_charset cs a); [ | reflexivity ].
  cbn [String.length] in *.
  replace (String.length x =? S (String.length x)) with false
    by (symmetry; apply Nat.eqb_neq; lia).
  cbn [pred option_map]. rewrite IH by lia. reflexivity.
Qed.

Lemma compile_star_class (cs : charset) (x : string) (cap : captures) (k : continuation) :
  compile true (star (Cls cs)) x cap k = backtrack (in_charset cs) k cap x.
Proof. unfold star. cbn [compile groups_of]. apply star_class. cbn. lia. Qed.

End Scanning.

Section ResultLines.
Import RegExp Scan Writer SpecErrors.

Lemma char_eq_refl (c : ascii) : char_eq true c c = true.
Proof. unfold char_eq. apply Ascii.eqb_refl. Qed.

Lemma startsWithCI_self (p R : string) : startsWithCI p (p ++ R) = true.
Proof.
  induction p as [ | c p IH]; [ reflexivity | ].
  cbn [append startsWithCI]. now rewrite char_eq_refl, IH.
Qed.

(** A text that [p] has no character of, letter case apart, ends every
    attempt to read [p]. *)
Lemma startsWithCI_stop (c : ascii) (p : string) :
  forallb (fun c' => negb (char_eq true c' c)) (list_ascii_of_string p) = true ->
  forall u v : string,
    startsWithCI p (u ++ String c v) = startsWithCI p (u ++ String c EmptyString).
Proof.
  induction p as [ | c' p IH]; intros H u v; [ reflexivity | ].
  cbn [list_ascii_of_string forallb] in H. apply andb_true_iff in H. destruct H as [Hc Hp].
  apply negb_true_iff in Hc.
  destruct u as [ | a u]; cbn [append startsWithCI].
  - now rewrite Hc.
  - now rewrite (IH Hp u v).
Qed.

Lemma silent_stop (c : ascii) (p : string) :
  forallb (fun c' => negb (char_eq true c' c)) (list_ascii_of_string p) = true ->
  forall u v : string,
    silent p u (String c EmptyString) = true -> silent p u (String c v) = true.
Proof.
  intros Hp u v. induction u as [ | a u IH]; intro H; [ reflexivity | ].
  cbn [silent] in *. apply andb_true_iff in H. destruct H as [H1 H2].
  rewrite (startsWithCI_stop c p Hp (String a u) v), H1. now apply IH.
Qed.

Lemma silent_append (p u1 u2 v : string) :
  silent p (u1 ++ u2) v = silent p u1 (u2 ++ v) && silent p u2 v.
Proof.
  induction u1 as [ | a u1 IH]; [ reflexivity | ].
  cbn [append silent]. rewrite IH, append_assoc, andb_assoc. reflexivity.
Qed.

Lemma quoted_append (A W : string) :
  (JS.quoted A ++ W)%string = String JS.dquote (A ++ String JS.dquote W).
Proof.
  unfold JS.quoted. cbn [append]. f_equal. now rewrite append_assoc.
Qed.

Lemma keep_noQuote (a : ascii) :
  in_charset (NoneOf [JS.dquote]) a = negb (Ascii.eqb a JS.dquote).
Proof. cbn [in_charset existsb]. now rewrite orb_false_r. Qed.

(** The star takes a text without a quote up to the quote, when the
    continuation accepts there. *)
Lemma backtrack_takes (k : continuation) (cap : captures) (z : state) (S : string) :
  k (String JS.dquote S) cap = Some z ->
  forall A : string,
    noQuote A = true ->
    backtrack (in_charset (NoneOf [JS.dquote])) k cap (A ++ String JS.dquote S) = Some z.
Proof.
  intros Hk A. induction A as [ | a A IH]; intro H.
  - cbn [append backtrack]. rewrite keep_noQuote, Ascii.eqb_refl. exact Hk.
  - cbn [noQuote] in H. apply andb_true_iff in H. destruct H as [Ha HA].
    cbn [append backtrack]. rewrite keep_noQuote, Ha, (IH HA). reflexivity.
Qed.

(** It fails when the continuation accepts nowhere on the way back. *)
Lemma backtrack_none (k : continuation) (cap : captures) (S : string) :
  forall B : string,
    noQuote B = true ->
    (forall s1 s2, B = (s1 ++ s2)%string -> k (s2 ++ String JS.dquote S) cap = None) ->
    backtrack (in_charset (NoneOf [JS.dquote])) k cap (B ++ String JS.dquote S) = None.
Proof.
  induction B as [ | a B IH]; intros H Hk.
  - cbn [append backtrack]. rewrite keep_noQuote, Ascii.eqb_refl.
    apply (Hk EmptyString EmptyString). reflexivity.
  - cbn [noQuote] in H. apply andb_true_iff in H. destruct H as [Ha HB].
    cbn [append backtrack]. rewrite keep_noQuote, Ha. cbn [negb].
    rewrite (IH HB).
    + apply (Hk EmptyString (String a B)). reflexivity.
    + intros s1 s2 E. apply (Hk (String a s1) s2). cbn [append]. now rewrite E.
Qed.

(** The completion pattern at a completion line of the log. *)
Lemma attempt_completed (A R : string) :
  noQuote A = true ->
  attempt Patterns.scenarioCompleteRegex
    ("Scenario " ++ JS.quoted A ++ " completed successfully" ++ R)
  = Some (R, [Some A]).
Proof.
  intro HA. unfold attempt, Patterns.scenarioCompleteRegex.
  cbn [pattern ignoreCase nCaptures repeat].
  rewrite compile_seq, compile_lit, startsWithCI_self, drop_append.
  rewrite quoted_append, compile_seq, opt_quote, Ascii.eqb_refl.
  assert (E : compile true
                (Seq (Grp 1 (star (Cls (NoneOf [JS.dquote]))))
                     (Seq (opt (Chr JS.dquote)) (lit " completed successfully")))
                (A ++ String JS.dquote (" completed successfully" ++ R)) [None]
                (fun y cap => Some (y, cap))
              = Some (R, [Some A])).
  { rewrite compile_seq, compile_grp, compile_star_class.
    apply backtrack_takes; [ | exact HA ].
    rewrite consumed_append. cbn [set_capture].
    rewrite compile_seq, opt_quote, Ascii.eqb_refl.
    rewrite compile_lit, startsWithCI_self, drop_append. reflexivity. }
  rewrite E. reflexivity.
Qed.

Lemma silent_here (p : string) (a : ascii) (u v : string) :
  silent p (String a u) v = true -> startsWithCI p (String a u ++ v) = false.
Proof.
  cbn [silent]. intro H. apply andb_true_iff in H. destruct H as [H _].
  now apply negb_true_iff in H.
Qed.

Lemma silent_suffix (p s1 s2 v : string) :
  silent p (s1 ++ s2) v = true -> silent p s2 v = true.
Proof. rewrite silent_append. intro H. now apply andb_true_iff in H. Qed.

Lemma noQuote_append (s1 s2 : string) : noQuote (s1 ++ s2) = noQuote s1 && noQuote s2.
Proof.
  induction s1 as [ | a s1 IH]; [ reflexivity | ].
  cbn [append noQuote]. now rewrite IH, andb_assoc.
Qed.

(** The completion pattern at a failure line of the log. *)
Lemma attempt_failed (B F : string) :
  noQuote B = true ->
  silent " completed successfully" B (String JS.dquote EmptyString) = true ->
  attempt Patterns.scenarioCompleteRegex ("Scenario " ++ JS.quoted B ++ " failed: " ++ F)
  = None.
Proof.
  intros HB Hs. unfold attempt, Patterns.scenarioCompleteRegex.
  cbn [pattern ignoreCase nCaptures repeat].
  rewrite compile_seq, compile_lit, startsWithCI_self, drop_append.
  rewrite quoted_append.
  assert (Hsilent : silent " completed successfully" B
                      (String JS.dquote (" failed: " ++ F)) = true)
    by (apply silent_stop; [ reflexivity | exact Hs ]).
  (* the end of the pattern accepts nowhere from the name on *)
  assert (K : forall (s1 s2 : string) (cap : captures),
             B = (s1 ++ s2)%string ->
             compile true (Seq (opt (Chr JS.dquote)) (lit " completed successfully"))
               (s2 ++ String JS.dquote (" failed: " ++ F)) cap
               (fun y c => Some (y, c)) = None).
  { intros s1 s2 cap E. rewrite compile_seq, opt_quote.
    destruct s2 as [ | a s2].
    - cbn [append]. rewrite Ascii.eqb_refl, !compile_lit. reflexivity.
    - rewrite E, noQuote_append in HB. apply andb_true_iff in HB. destruct HB as [_ HB].
      cbn [noQuote] in HB. apply andb_true_iff in HB. destruct HB as [Ha _].
      apply negb_true_iff in Ha. cbn [append]. rewrite Ha, compile_lit.
      rewrite E in Hsilent. apply silent_suffix, silent_here in Hsilent.
      cbn [append] in Hsilent. now rewrite Hsilent. }
  rewrite compile_seq, opt_quote, Ascii.eqb_refl.
  assert (E1 : compile true
                 (Seq (Grp 1 (star (Cls (NoneOf [JS.dquote]))))
                      (Seq (opt (Chr JS.dquote)) (lit " completed successfully")))
                 (B ++ String JS.dquote (" failed: " ++ F)) [None]
                 (fun y cap => Some (y, cap)) = None).
  { rewrite compile_seq, compile_grp, compile_star_class.
    apply backtrack_none; [ exact HB | ].
    intros s1 s2 E. now apply (K s1 s2). }
  rewrite E1.
  rewrite compile_seq, compile_grp, compile_star_class.
  cbn [backtrack]. rewrite keep_noQuote, Ascii.eqb_refl. cbn [negb].
  change (String JS.dquote (B ++ String JS.dquote (" failed: " ++ F)))
    with (EmptyString ++ String JS.dquote (B ++ String JS.dquote (" failed: " ++ F)))%string
    at 1.
  assert (Hfalse : startsWithCI " completed successfully"
                     (B ++ String JS.dquote (" failed: " ++ F)) = false).
  { destruct B as [ | b B]; [ reflexivity | ]. now apply silent_here in Hsilent. }
  rewrite compile_seq, opt_quote. cbn [append]. rewrite Ascii.eqb_refl.
  rewrite !compile_lit. cbn [append] in Hfalse. rewrite Hfalse. reflexivity.
Qed.

Lemma silent_line (p c1 A W E R : string) :
  (forall v, silent p c1 v = true) ->
  forallb (fun c' => negb (char_eq true c' JS.dquote)) (list_ascii_of_string p) = true ->
  silent p A (String JS.dquote EmptyString) = true ->
  (forall v, silent p (String JS.dquote W) v = true) ->
  forallb (fun c' => negb (char_eq true c' JS.LF)) (list_ascii_of_string p) = true ->
  silent p E (String JS.LF EmptyString) = true ->
  (forall v, silent p (String JS.LF EmptyString) v = true) ->
  silent p (c1 ++ A ++ String JS.dquote W ++ E ++ String JS.LF EmptyString) R = true.
Proof.
  intros H1 Hq HA HW Hl HE Hn.
  rewrite !silent_append, H1, HW, Hn.
  cbn [append]. rewrite (silent_stop JS.dquote p Hq A _ HA).
  rewrite (silent_stop JS.LF p Hl E _ HE). reflexivity.
Qed.

(** The texts of the two kinds of lines, cut into their parts. *)
Lemma completed_text (A : string) :
  (("Scenario " ++ JS.quoted A ++ " completed successfully") ++ String JS.LF EmptyString)%string
  = (("Scenario " ++ String JS.dquote EmptyString) ++ A
     ++ String JS.dquote " completed successfully" ++ EmptyString
     ++ String JS.LF EmptyString)%string.
Proof.
  rewrite !append_assoc, quoted_append. cbn [append]. rewrite ?append_assoc.
  reflexivity.
Qed.

Lemma failed_text (B E : string) :
  (("Scenario " ++ JS.quoted B ++ " failed: " ++ E) ++ String JS.LF EmptyString)%string
  = (("Scenario " ++ String JS.dquote EmptyString) ++ B
     ++ String JS.dquote " failed: " ++ E ++ String JS.LF EmptyString)%string.
Proof.
  rewrite !append_assoc, quoted_append. cbn [append]. rewrite ?append_assoc.
  reflexivity.
Qed.

Lemma clean_parts (o : outcome) :
  clean o = true ->
  Plain.plain (o_name o) = true /\ noQuote (o_name o) = true
  /\ quiet (o_name o) (String JS.dquote EmptyString) = true
  /\ (succeeded o = false ->
      silent " completed successfully" (o_name o) (String JS.dquote EmptyString) = true
      /\ quiet (errorText o) (String JS.LF EmptyString) = true).
Proof.
  unfold clean. intro H.
  apply andb_true_iff in H. destruct H as [H H4].
  apply andb_true_iff in H. destruct H as [H H3].
  apply andb_true_iff in H. destruct H as [H1 H2].
  split; [ exact H1 | ]. split; [ exact H2 | ]. split; [ exact H3 | ].
  intro Hs. rewrite Hs in H4. cbn [orb] in H4. now apply andb_true_iff in H4.
Qed.

Lemma quiet_parts (u v : string) :
  quiet u v = true ->
  silent "Scenario " u v = true /\ silent "Running scenario: " u v = true.
Proof. unfold quiet. intro H. now apply andb_true_iff in H. Qed.

(** No start line begins in a result line. *)
Lemma line_barren_start (o : outcome) (R : string) :
  clean o = true ->
  barren Patterns.scenarioStartRegex (resultLine o ++ String JS.LF EmptyString) R = true.
Proof.
  intro H. destruct (clean_parts o H) as (_ & _ & Hq & Hf).
  apply quiet_parts in Hq. destruct Hq as [_ Hq].
  apply barren_silent. unfold resultLine.
  destruct (succeeded o).
  - rewrite completed_text. apply silent_line; try reflexivity. exact Hq.
  - destruct (Hf eq_refl) as [_ He]. apply quiet_parts in He. destruct He as [_ He].
    rewrite failed_text. apply silent_line; try reflexivity; assumption.
Qed.

Lemma barren_cons (re : regexp) (a : ascii) (u v : string) :
  barren re (String a u) v
  = match attempt re (String a u ++ v) with Some _ => false | None => barren re u v end.
Proof. reflexivity. Qed.

(** No completion is found in a failure line. *)
Lemma line_barren_failed (o : outcome) (R : string) :
  clean o = true -> succeeded o = false ->
  barren Patterns.scenarioCompleteRegex (resultLine o ++ String JS.LF EmptyString) R = true.
Proof.
  intros H Hs. destruct (clean_parts o H) as (_ & Hn & Hq & Hf).
  apply quiet_parts in Hq. destruct Hq as [Hq _].
  destruct (Hf Hs) as [Hc He]. apply quiet_parts in He. destruct He as [He _].
  unfold resultLine. rewrite Hs.
  set (T := (("cenario " ++ String JS.dquote EmptyString) ++ o_name o
             ++ String JS.dquote " failed: " ++ errorText o
             ++ String JS.LF EmptyString)%string).
  assert (Et : (("Scenario " ++ JS.quoted (o_name o) ++ " failed: " ++ errorText o)
                ++ String JS.LF EmptyString)%string = String "S" T)
    by (rewrite failed_text; reflexivity).
  rewrite Et, barren_cons, <- Et, !append_assoc.
  rewrite (attempt_failed _ _ Hn Hc).
  apply barren_silent. unfold T. apply silent_line; try reflexivity; assumption.
Qed.

Lemma resultLines_cons (o : outcome) (os : list outcome) (later : string) :
  resultLines (o :: os) later
  = ((resultLine o ++ String JS.LF EmptyString) ++ resultLines os later)%string.
Proof. cbn [resultLines]. now rewrite append_assoc. Qed.

Lemma lines_barren_start (later : string) :
  barren Patterns.scenarioStartRegex later EmptyString = true ->
  forall os : list outcome,
    forallb clean os = true ->
    barren Patterns.scenarioStartRegex (resultLines os later) EmptyString = true.
Proof.
  intros Hl os. induction os as [ | o os IH]; intro H; [ exact Hl | ].
  cbn [forallb] in H. apply andb_true_iff in H. destruct H as [Ho Hos].
  rewrite resultLines_cons. apply barren_append; [ | now apply IH ].
  now apply line_barren_start.
Qed.

(** The scan for completions finds the completion lines, one after the
    other. *)
Lemma scan_lines (later : string) :
  barren Patterns.scenarioCompleteRegex later EmptyString = true ->
  forall (os : list outcome) (g : string) (fuel : nat),
    forallb clean os = true ->
    length (filter succeeded os) <= fuel ->
    barren Patterns.scenarioCompleteRegex g (resultLines os later) = true ->
    scan Patterns.scenarioCompleteRegex fuel (g ++ resultLines os later)
    = map (fun o => [Some (o_name o)]) (filter succeeded os).
Proof.
  intros Hl os. induction os as [ | o os IH]; intros g fuel H Hfuel Hg.
  - cbn [resultLines filter map]. apply scan_barren; [ | reflexivity ].
    apply barren_append; [ now rewrite append_empty | exact Hl ].
  - cbn [forallb] in H. apply andb_true_iff in H. destruct H as [Ho Hos].
    cbn [filter] in *. destruct (succeeded o) eqn:Hs.
    + destruct fuel as [ | fuel]; [ cbn in Hfuel; lia | ]. cbn [length] in Hfuel.
      destruct (clean_parts o Ho) as (_ & Hn & _).
      cbn [resultLines] in *. unfold resultLine in *. rewrite Hs in *.
      set (t := ("cenario " ++ JS.quoted (o_name o) ++ " completed successfully")%string)
        in *.
      change ("Scenario " ++ JS.quoted (o_name o) ++ " completed successfully")%string
        with (String "S" t) in *.
      assert (A : attempt Patterns.scenarioCompleteRegex
                    (String "S" t ++ String JS.LF (resultLines os later))
                  = Some (String JS.LF (resultLines os later), [Some (o_name o)])).
      { rewrite <- (attempt_completed (o_name o) (String JS.LF (resultLines os later)) Hn).
        unfold t. cbn [append]. now rewrite !append_assoc. }
      rewrite (scan_match _ fuel g t _ "S" _ Hg A). cbn [map]. f_equal.
      change (String JS.LF (resultLines os later))
        with (String JS.LF EmptyString ++ resultLines os later)%string.
      apply IH; [ exact Hos | lia | ].
      apply barren_silent. reflexivity.
    + rewrite resultLines_cons in Hg |- *. rewrite <- append_assoc.
      apply IH; [ exact Hos | exact Hfuel | ].
      apply barren_append; [ exact Hg | now apply line_barren_failed ].
Qed.

Lemma prefix_self (sub v : string) : prefix sub (sub ++ v) = true.
Proof.
  induction sub as [ | c sub IH]; [ now destruct v | ].
  cbn [append prefix]. destruct (ascii_dec c c); [ exact IH | congruence ].
Qed.

Lemma includes_within (sub v : string) :
  forall u : string, JS.includes (u ++ sub ++ v) sub = true.
Proof.
  unfold JS.includes.
  assert (H : forall u i, exists j, JS.indexOfFrom sub (u ++ sub ++ v) i = Some j).
  { assert (U : forall s i,
               JS.indexOfFrom sub s i
               = if prefix sub s then Some i
                 else match s with
                      | String _ s' => JS.indexOfFrom sub s' (S i)
                      | EmptyString => None
                      end) by (intros [ | ? ?] ?; reflexivity).
    induction u as [ | a u IH]; intro i; rewrite U.
    - cbn [append]. rewrite prefix_self. now exists i.
    - cbn [append].
      destruct (prefix sub (String a (u ++ sub ++ v))); [ now exists i | apply IH ]. }
  intro u. destruct (H u 0) as [j ->]. reflexivity.
Qed.

Lemma plain_trimStart (s : string) : Plain.plain s = true -> Plain.plain (JS.trimStart s) = true.
Proof.
  induction s as [ | a s IH]; intro H; [ reflexivity | ].
  cbn [JS.trimStart]. destruct (JS.isWhiteSpace a); [ | exact H ].
  cbn [Plain.plain] in H. apply andb_true_iff in H. now apply IH.
Qed.

Lemma plain_trimEnd (s : string) : Plain.plain s = true -> Plain.plain (JS.trimEnd s) = true.
Proof.
  induction s as [ | a s IH]; intro H; [ reflexivity | ].
  cbn [Plain.plain] in H. apply andb_true_iff in H. destruct H as [Ha Hs].
  cbn [JS.trimEnd]. specialize (IH Hs).
  destruct (JS.trimEnd s) as [ | b t].
  - destruct (JS.isWhiteSpace a); [ reflexivity | ]. cbn [Plain.plain]. now rewrite Ha.
  - cbn [Plain.plain] in *. now rewrite Ha, IH.
Qed.

Lemma plain_trim (s : string) : Plain.plain s = true -> Plain.plain (JS.trim s) = true.
Proof. intro H. unfold JS.trim. now apply plain_trimEnd, plain_trimStart. Qed.

Lemma fold_set_add_forallb (P : string -> bool) (l : list string) :
  forallb P l = true ->
  forall acc : list string,
    forallb P acc = true ->
    forallb P (fold_left (fun acc n => set_add n acc) l acc) = true.
Proof.
  induction l as [ | x l IH]; intros H acc Hacc; [ exact Hacc | ].
  cbn [forallb] in H. apply andb_true_iff in H. destruct H as [Hx Hl].
  cbn [fold_left]. apply (IH Hl). unfold set_add, push.
  destruct (existsb (String.eqb x) acc); [ exact Hacc | ].
  rewrite forallb_app, Hacc. cbn [forallb]. now rewrite Hx.
Qed.

Lemma resultLines_length (later : string) (os : list outcome) :
  length os <= String.length (resultLines os later).
Proof.
  induction os as [ | o os IH]; [ cbn; lia | ].
  cbn [resultLines length]. rewrite append_length. cbn [String.length]. lia.
Qed.

Lemma filter_length {A : Type} (f : A -> bool) (l : list A) :
  length (filter f l) <= length l.
Proof.
  induction l as [ | x l IH]; [ reflexivity | ].
  cbn [filter]. destruct (f x); cbn [length]; lia.
Qed.

(** The names that prepareScenarioResults takes from a log that ends in
    result lines. *)
Lemma names_of_result_lines (before later : string) (outcomes : list outcome) :
  quiet before (String JS.LF EmptyString) = true ->
  quiet later EmptyString = true ->
  forallb clean outcomes = true ->
  Integration.scenarioNames (before ++ String JS.LF (resultLines outcomes later))
  = distinct (completedNames outcomes).
Proof.
  intros Hb Hl Hc.
  apply quiet_parts in Hb. destruct Hb as [Hb1 Hb2].
  apply quiet_parts in Hl. destruct Hl as [Hl1 Hl2].
  set (log := (before ++ String JS.LF (resultLines outcomes later))%string).
  assert (Elog : log = ((before ++ String JS.LF EmptyString)
                        ++ resultLines outcomes later)%string)
    by (unfold log; now rewrite append_assoc).
  unfold Integration.scenarioNames.
  (* no start line *)
  assert (S0 : matchAll log Patterns.scenarioStartRegex = []).
  { apply (map_eq_nil groups). rewrite matchAll_scan. apply scan_barren; [ | reflexivity ].
    rewrite Elog. apply barren_append.
    - rewrite append_empty. apply barren_append.
      + apply barren_silent. cbn [append].
        apply silent_stop; [ reflexivity | exact Hb2 ].
      + apply barren_silent. reflexivity.
    - apply lines_barren_start; [ | exact Hc ]. now apply barren_silent. }
  rewrite S0. cbn [fold_left].
  rewrite fold_first, matchAll_scan, Elog.
  rewrite scan_lines.
  - unfold distinct, completedNames. rewrite !map_map. reflexivity.
  - now apply barren_silent.
  - exact Hc.
  - pose proof (filter_length succeeded outcomes).
    pose proof (resultLines_length later outcomes).
    rewrite append_length. lia.
  - apply barren_append.
    + apply barren_silent. cbn [append]. apply silent_stop; [ reflexivity | exact Hb1 ].
    + apply barren_silent. reflexivity.
Qed.

Lemma addMissing_passed (pool known : list string) (t : nat) :
  forall (acc : list scenario) (c : nat) (w : world),
  exists added,
    fst (fst (Integration.addMissing pool known t acc c w)) = (acc ++ added)%list
    /\ forallb (fun s => String.eqb (status s) "passed") added = true.
Proof.
  induction pool as [ | nm pool IH]; intros acc c w.
  - exists []. cbn. now rewrite app_nil_r.
  - cbn [Integration.addMissing].
    destruct (negb (existsb (String.eqb nm) known)); [ | apply IH ].
    unfold bind, newDate, push.
    destruct (t <=? length (acc ++ [_])).
    + eexists [_]. cbn [fst ret]. split; reflexivity.
    + match goal with
      | |- context [Integration.addMissing pool known t ?a ?c' ?w'] =>
          destruct (IH a c' w') as (added & E1 & E2)
      end.
      eexists (_ :: added). rewrite E1, <- app_assoc. cbn [List.app forallb status].
      split; [ reflexivity | exact E2 ].
Qed.

Lemma addGeneric_passed (fuel t : nat) :
  forall (acc : list scenario) (c : nat) (w : world),
  exists added,
    fst (fst (Integration.addGeneric fuel t acc c w)) = (acc ++ added)%list
    /\ forallb (fun s => String.eqb (status s) "passed") added = true.
Proof.
  induction fuel as [ | fuel IH]; intros acc c w.
  - exists []. cbn. now rewrite app_nil_r.
  - cbn [Integration.addGeneric]. destruct (length acc <? t).
    + unfold bind, newDate, push.
      match goal with
      | |- context [Integration.addGeneric fuel t ?a ?c' ?w'] =>
          destruct (IH a c' w') as (added & E1 & E2)
      end.
      eexists (_ :: added). rewrite E1, <- app_assoc. cbn [List.app forallb status].
      split; [ reflexivity | exact E2 ].
    + exists []. cbn. now rewrite app_nil_r.
Qed.

Lemma reconcile_madeUp (total : option nat) (parsed : list scenario) (c : nat) (w : world) :
  exists rest,
    fst (Integration.reconcile total parsed c w) = (parsed ++ rest)%list
    /\ forallb madeUp rest = true.
Proof.
  assert (P : exists rest,
             fst (Integration.reconcile total parsed c w) = (parsed ++ rest)%list
             /\ forallb (fun s => String.eqb (status s) "passed") rest = true).
  { unfold Integration.reconcile, bind.
    assert (T : exists rest,
               fst (Integration.topUp total parsed c w) = (parsed ++ rest)%list
               /\ forallb (fun s => String.eqb (status s) "passed") rest = true).
    { unfold Integration.topUp. destruct total as [t | ].
      - destruct (length parsed <? t).
        + unfold bind.
          destruct (addMissing_passed Integration.defaultNames (map name parsed) t parsed c w)
            as (m & M1 & M2).
          destruct (Integration.addMissing _ _ t parsed c w) as [[l1 c1] w1].
          cbn [fst snd] in *. subst l1.
          destruct (addGeneric_passed (t - length (parsed ++ m)%list) t (parsed ++ m)%list c1 w1)
            as (g & G1 & G2).
          destruct (Integration.addGeneric _ t (parsed ++ m)%list c1 w1) as [[l2 c2] w2].
          cbn [fst snd ret] in *. subst l2.
          exists (m ++ g)%list. rewrite app_assoc, forallb_app, M2, G2. auto.
        + exists []. cbn. now rewrite app_nil_r.
      - exists []. cbn. now rewrite app_nil_r. }
    destruct T as (rest & T1 & T2).
    destruct (Integration.topUp total parsed c w) as [filled w1]. cbn [fst] in T1. subst filled.
    destruct (length (parsed ++ rest)%list =? 0) eqn:E.
    - apply Nat.eqb_eq in E. rewrite length_app in E.
      destruct parsed; [ | cbn in E; lia ].
      exists (fst (Integration.createDefaultScenarios w1)). split; reflexivity.
    - exists rest. auto. }
  destruct P as (rest & P1 & P2).
  destruct (reconcile_shape total parsed c w) as (m & g & S1 & S2 & S3 & _).
  rewrite P1 in S1. apply app_inv_head in S1. subst rest.
  exists (m ++ g)%list. split; [ exact P1 | ].
  rewrite forallb_app in *. apply andb_true_iff in P2. destruct P2 as [Pm Pg].
  apply andb_true_iff. split; apply forallb_forall; intros s Hs; unfold madeUp.
  - rewrite (proj1 (forallb_forall _ _) Pm s Hs), (proj1 (forallb_forall _ _) S2 s Hs).
    reflexivity.
  - rewrite (proj1 (forallb_forall _ _) Pg s Hs), (proj1 (forallb_forall _ _) S3 s Hs).
    now rewrite orb_true_r.
Qed.

Lemma parse_uint (u : Decimal.uint) :
  forall acc : N,
    fold_left (fun acc a => (10 * acc + (N_of_ascii a - 48))%N)
      (list_ascii_of_string (NilEmpty.string_of_uint u)) acc
    = N.of_nat (Nat.of_uint_acc u (N.to_nat acc)).
Proof.
  induction u; intro acc;
    cbn [NilEmpty.string_of_uint list_ascii_of_string fold_left Nat.of_uint_acc];
    try (rewrite IHu; f_equal; f_equal; rewrite Nat.tail_mul_spec;
         change (N_of_ascii _ - 48)%N with 0%N || change (N_of_ascii _ - 48)%N with 1%N
         || change (N_of_ascii _ - 48)%N with 2%N || change (N_of_ascii _ - 48)%N with 3%N
         || change (N_of_ascii _ - 48)%N with 4%N || change (N_of_ascii _ - 48)%N with 5%N
         || change (N_of_ascii _ - 48)%N with 6%N || change (N_of_ascii _ - 48)%N with 7%N
         || change (N_of_ascii _ - 48)%N with 8%N || change (N_of_ascii _ - 48)%N with 9%N;
         lia).
  now rewrite Nnat.N2Nat.id.
Qed.

(** parseInt reads back what the template literal wrote. *)
Lemma parseInt_toString (n : nat) : N.to_nat (JS.parseInt (JS.toString n)) = n.
Proof.
  unfold JS.parseInt, JS.toString. rewrite parse_uint, Nnat.Nat2N.id.
  change (Nat.of_uint_acc (Nat.to_uint n) (N.to_nat 0)) with (Nat.of_uint (Nat.to_uint n)).
  apply Unsigned.of_to.
Qed.

Lemma toString_nonempty (n : nat) : exists a s, JS.toString n = String a s.
Proof.
  unfold JS.toString.
  destruct (NilEmpty.string_of_uint (Nat.to_uint n)) as [ | a s] eqn:E; [ | eauto ].
  exfalso.
  pose proof (NilEmpty.usu (Nat.to_uint n)) as H. rewrite E in H. cbn in H.
  injection H as H.
  pose proof (Unsigned.to_of (Nat.to_uint n)) as T. rewrite Unsigned.of_to in T.
  rewrite <- H in T. cbn in T. discriminate.
Qed.

Lemma compile_lit_cs (p : string) :
  forall (x : string) (cap : captures) (k : continuation),
    compile false (lit p) x cap k
    = if prefix p x then k (JS.drop (String.length p) x) cap else None.
Proof.
  induction p as [ | c p IH]; intros x cap k.
  - cbn. now destruct x.
  - destruct x as [ | a x].
    + destruct p; reflexivity.
    + rewrite prefix_cons. destruct p as [ | c' p'].
      * cbn [lit compile String.length JS.drop]. unfold char_eq.
        destruct (Ascii.eqb c a); [ now destruct x | reflexivity ].
      * change (lit (String c (String c' p'))) with (Seq (Chr c) (lit (String c' p'))).
        cbn [compile]. unfold char_eq.
        destruct (Ascii.eqb c a); [ | reflexivity ].
        rewrite IH. reflexivity.
Qed.

Lemma prefix_startsWithCI (p : string) :
  forall x : string, prefix p x = true -> startsWithCI p x = true.
Proof.
  induction p as [ | c p IH]; intros x H; [ reflexivity | ].
  destruct x as [ | a x]; [ discriminate | ].
  rewrite prefix_cons in H. apply andb_true_iff in H. destruct H as [Hc Hp].
  apply Ascii.eqb_eq in Hc. subst a.
  cbn [startsWithCI]. now rewrite char_eq_refl, (IH x Hp).
Qed.

(** An attempt to read [p] is decided within the length of [p]. *)
Lemma startsWithCI_cut (p : string) :
  forall x v : string,
    String.length p <= String.length x ->
    startsWithCI p (x ++ v) = startsWithCI p x.
Proof.
  induction p as [ | c p IH]; intros x v H; [ reflexivity | ].
  destruct x as [ | a x]; [ cbn in H; lia | ].
  cbn [append startsWithCI]. cbn [String.length] in H. rewrite (IH x v); [ reflexivity | lia ].
Qed.

Lemma barren_cs (p : string) (r : regex) (n : nat) (t v : string) :
  String.length p <= String.length t ->
  forall u : string,
    silent p u t = true ->
    barren (mkRegExp (Seq (lit p) r) n false) u (t ++ v) = true.
Proof.
  intros Hlen u. induction u as [ | a u IH]; intro H; [ reflexivity | ].
  cbn [silent] in H. apply andb_true_iff in H. destruct H as [H1 H2].
  apply negb_true_iff in H1.
  cbn [barren]. unfold attempt. cbn [pattern ignoreCase nCaptures compile].
  rewrite compile_lit_cs.
  destruct (prefix p (String a u ++ t ++ v)) eqn:E; [ | now apply IH ].
  apply prefix_startsWithCI in E. rewrite <- append_assoc, startsWithCI_cut in E.
  - congruence.
  - rewrite append_length. lia.
Qed.

Lemma star_class_cs (cs : charset) (k : continuation) (fuel : nat) :
  forall (x : string) (cap : captures),
    String.length x < fuel ->
    RepeatMatcher (compile false (Cls cs)) [] fuel 0 None true x cap k
    = backtrack (in_charset cs) k cap x.
Proof.
  induction fuel as [ | fuel IH]; intros x cap H; [ lia | ].
  cbn [RepeatMatcher Nat.eqb negb andb clear_captures fold_left compile].
  destruct x as [ | a x]; [ reflexivity | ].
  cbn [backtrack]. destruct (in_charset cs a); [ | reflexivity ].
  cbn [String.length] in *.
  replace (String.length x =? S (String.length x)) with false
    by (symmetry; apply Nat.eqb_neq; lia).
  cbn [pred option_map]. rewrite IH by lia. reflexivity.
Qed.

Lemma repeat_once (m : matcher) (gs : list nat) (fuel : nat) (x : string)
    (cap : captures) (k : continuation) :
  RepeatMatcher m gs (S fuel) 1 None true x cap k
  = m x (clear_captures gs cap)
      (fun y capy => RepeatMatcher m gs fuel 0 None true y capy k).
Proof. reflexivity. Qed.

Lemma compile_cls (ic : bool) (cs : charset) (a : ascii) (x : string) (cap : captures)
    (k : continuation) :
  compile ic (Cls cs) (String a x) cap k = if in_charset cs a then k x cap else None.
Proof. reflexivity. Qed.

(** One or more digits: the first one, then the longest run. *)
Lemma plus_digits (x : string) (cap : captures) (k : continuation) :
  compile false (plus (Cls Digit)) x cap k
  = match x with
    | String a x' => if JS.isDigit a then backtrack JS.isDigit k cap x' else None
    | EmptyString => None
    end.
Proof.
  destruct x as [ | a x]; [ reflexivity | ].
  unfold plus.
  change (compile false (Rep 1 None true (Cls Digit)) (String a x) cap k)
    with (RepeatMatcher (compile false (Cls Digit)) []
            (S (S (S (String.length x)))) 1 None true (String a x) cap k).
  rewrite repeat_once.
  change (clear_captures [] cap) with cap. rewrite compile_cls.
  change (in_charset Digit a) with (JS.isDigit a).
  destruct (JS.isDigit a); [ | reflexivity ].
  apply (star_class_cs Digit). lia.
Qed.

Lemma backtrack_run (keep : ascii -> bool) (k : continuation) (cap : captures)
    (z : state) (c : ascii) (R : string) :
  keep c = false ->
  k (String c R) cap = Some z ->
  forall A : string,
    forallb keep (list_ascii_of_string A) = true ->
    backtrack keep k cap (A ++ String c R) = Some z.
Proof.
  intros Hc Hk A. induction A as [ | a A IH]; intro H.
  - cbn [append backtrack]. now rewrite Hc.
  - cbn [list_ascii_of_string forallb] in H. apply andb_true_iff in H. destruct H as [Ha HA].
    cbn [append backtrack]. now rewrite Ha, (IH HA).
Qed.

Lemma digits_keep (s : string) :
  Format.digits s = true -> forallb JS.isDigit (list_ascii_of_string s) = true.
Proof.
  induction s as [ | a s IH]; intro H; [ reflexivity | ].
  cbn [Format.digits] in H. apply andb_true_iff in H. destruct H as [Ha Hs].
  cbn [list_ascii_of_string forallb]. now rewrite Ha, (IH Hs).
Qed.

(** The total pattern at the line that declares the total. *)
Lemma attempt_total (n : nat) (R : string) :
  attempt Patterns.totalScenariosRegex (totalLine n ++ String JS.LF R)
  = Some (String JS.LF R, [Some (JS.toString n)]).
Proof.
  unfold attempt, Patterns.totalScenariosRegex, totalLine.
  cbn [pattern ignoreCase nCaptures repeat].
  rewrite append_assoc, compile_seq, compile_lit_cs, prefix_self, drop_append.
  rewrite compile_grp, plus_digits.
  pose proof (digits_toString n) as D.
  destruct (toString_nonempty n) as (a & s & E). rewrite E in *.
  cbn [Format.digits] in D. apply andb_true_iff in D. destruct D as [Da Ds].
  cbn [append]. rewrite Da.
  apply backtrack_run; [ reflexivity | | now apply digits_keep ].
  change (String a (s ++ String JS.LF R)) with (String a s ++ String JS.LF R)%string.
  rewrite consumed_append. reflexivity.
Qed.

(** The total that the log declares is the number of the outcomes. *)
Lemma declared_total (head R : string) (n : nat) :
  silent "Total scenarios: " head (totalLine n) = true ->
  Integration.declaredTotal (head ++ totalLine n ++ String JS.LF R) = Some n.
Proof.
  intro H. unfold Integration.declaredTotal.
  rewrite match_search.
  rewrite (search_barren Patterns.totalScenariosRegex head _ 0).
  - rewrite (search_here _ _ _ _ _ (attempt_total n R)).
    unfold capture1, group. cbn [groups nth Nat.sub]. now rewrite parseInt_toString.
  - apply barren_cs; [ | exact H ].
    unfold totalLine. rewrite append_length. cbn. lia.
Qed.

Lemma distinct_length (l : list string) : length (distinct l) <= length l.
Proof.
  unfold distinct.
  assert (G : forall acc, length (fold_left (fun acc n => set_add n acc) l acc)
                          <= length acc + length l).
  { induction l as [ | x l IH]; intro acc; cbn [fold_left length]; [ lia | ].
    etransitivity; [ apply IH | ].
    unfold set_add, push. destruct (existsb _ acc); [ lia | ].
    rewrite length_app. cbn. lia. }
  apply (G []).
Qed.

(** X18.  A log that ends in the result lines of runShinyDashboardTest, read
    back by prepareScenarioResults of report-integration.js.  When the log
    is quiet before these lines and behind them, declares no total of its
    own before, and the names and error texts are clean, the list has as
    many scenarios as the run had outcomes (four when it had none).  It
    begins with one scenario for each name that was written as completed,
    each once; the name of an outcome that was written as failed is not
    among them.  Every other scenario of the list is made up: it is passed
    and has a name of the pool of defaults or a generic name.  Clean names
    give patterns inside the embedded grammar, so that this holds for every
    engine. *)
Theorem written_results_are_read_back :
  forall (beyond : RegExp.engine) (head later : string) (outcomes : list outcome)
         (w : world),
    fresh head (length outcomes) = true ->
    quiet later EmptyString = true ->
    forallb clean outcomes = true ->
    exists named rest,
      value (Integration.prepareScenarioResults beyond
               (head ++ totalLine (length outcomes)
                ++ String JS.LF (resultLines outcomes later)) w)
        = Normal (named ++ rest)%list
      /\ map name named = distinct (completedNames outcomes)
      /\ forallb madeUp rest = true
      /\ length (named ++ rest)%list
         = (if length outcomes =? 0 then 4 else length outcomes).
Proof.
  intros beyond head later outcomes w Hf Hl Hc.
  unfold fresh in Hf. apply andb_true_iff in Hf. destruct Hf as [Hb Ht].
  pose proof (names_of_result_lines (head ++ totalLine (length outcomes)) later outcomes
                Hb Hl Hc) as Hn.
  rewrite append_assoc in Hn.
  pose proof (declared_total head (resultLines outcomes later) (length outcomes) Ht) as Hd.
  set (log := (head ++ totalLine (length outcomes)
               ++ String JS.LF (resultLines outcomes later))%string) in *.
  assert (Hinfo : Integration.noScenarioInfo log = false).
  { unfold Integration.noScenarioInfo, Integration.declaredTotal in *.
    destruct (match_ log Patterns.totalScenariosRegex); [ | discriminate ].
    cbn [found negb]. apply andb_false_r. }
  unfold Integration.prepareScenarioResults. rewrite Hinfo.
  unfold bindE, Integration.reconstruct. rewrite Hn, Hd.
  assert (Hp : forallb Plain.plain (distinct (completedNames outcomes)) = true).
  { apply fold_set_add_forallb; [ | reflexivity ].
    unfold completedNames. apply forallb_forall. intros n Hin.
    apply in_map_iff in Hin. destruct Hin as (o & <- & Ho).
    apply filter_In in Ho. destruct Ho as [Ho _].
    apply plain_trim.
    apply (clean_parts o (proj1 (forallb_forall _ _) Hc o Ho)). }
  destruct (namedScenarios_return (beyond := beyond) log _ Hp [] 1 w) as ([parsed c] & w1 & E).
  rewrite E. rewrite value_lift. cbn [fst snd].
  destruct (namedScenarios_shape (beyond := beyond) log (distinct (completedNames outcomes))
              [] 1 w w1 parsed c) as [_ Hs];
    [ repeat split | exact E | ].
  cbn [map List.app] in Hs.
  destruct (reconcile_madeUp (Some (length outcomes)) parsed c w1) as (rest & R1 & R2).
  destruct (reconcile_shape (Some (length outcomes)) parsed c w1)
    as (m & g & S1 & _ & _ & S4).
  rewrite R1 in S1. apply app_inv_head in S1. subst rest. rewrite R1.
  exists parsed, (m ++ g)%list. repeat split; try assumption.
  rewrite S4. cbv zeta.
  assert (L : length parsed <= length outcomes).
  { rewrite <- (length_map name), Hs.
    etransitivity; [ apply distinct_length | ].
    unfold completedNames. rewrite length_map. apply filter_length. }
  replace (Nat.max (length outcomes) (length parsed)) with (length outcomes) by lia.
  reflexivity.
Qed.

(** The theorem at the log of a run of two scenarios: the first one is
    read back, the one that failed is replaced by a passed scenario of the
    pool. *)
Lemma written_results_are_read_back_sample :
  (fresh Sample.head (length Sample.twoOutcomes) = true
   /\ quiet Sample.closing EmptyString = true
   /\ forallb clean Sample.twoOutcomes = true)
  /\ exists named rest,
       value (Integration.prepareScenarioResults Logs.strict Sample.written Logs.ticking)
         = Normal (named ++ rest)%list
       /\ map name named = ["Tab Navigation"]
       /\ forallb madeUp rest = true
       /\ length (named ++ rest)%list = 2.
Proof.
  split; [ repeat split; vm_compute; reflexivity | ].
  destruct (written_results_are_read_back Logs.strict Sample.head Sample.closing
              Sample.twoOutcomes Logs.ticking) as (named & rest & H1 & H2 & H3 & H4);
    [ vm_compute; reflexivity .. | ].
  exists named, rest. split; [ exact H1 | ]. split; [ | split; [ exact H3 | exact H4 ] ].
  rewrite H2. vm_compute. reflexivity.
Defined.

End ResultLines.

(* ===================================================================== *)
(** ** The console lines of a run, read by the generator                   *)
(* ===================================================================== *)

Section Console.
Import RegExp Scan Writer Transcript SpecErrors.

Lemma splitLF_line (l : string) :
  noLF l = true ->
  forall acc rest : string,
    JS.splitLF acc (l ++ String JS.LF rest) = (acc ++ l)%string :: JS.splitLF EmptyString rest.
Proof.
  induction l as [ | a l IH]; intros H acc rest.
  - cbn [append JS.splitLF]. rewrite Ascii.eqb_refl. now rewrite append_empty.
  - cbn [noLF] in H. apply andb_true_iff in H. destruct H as [Ha Hl].
    apply negb_true_iff in Ha. cbn [append JS.splitLF]. rewrite Ha, (IH Hl).
    now rewrite append_assoc.
Qed.

Lemma splitLF_last (l : string) :
  noLF l = true -> forall acc : string, JS.splitLF acc l = [(acc ++ l)%string].
Proof.
  induction l as [ | a l IH]; intros H acc.
  - cbn [JS.splitLF]. now rewrite append_empty.
  - cbn [noLF] in H. apply andb_true_iff in H. destruct H as [Ha Hl].
    apply negb_true_iff in Ha. cbn [JS.splitLF]. rewrite Ha, (IH Hl).
    now rewrite append_assoc.
Qed.

(** split is the inverse of join on lines without a line break. *)
Lemma split_join (lines : list string) :
  lines <> [] -> forallb noLF lines = true ->
  JS.split_newline (joinLF lines) = lines.
Proof.
  unfold JS.split_newline.
  induction lines as [ | l lines IH]; intros Hne H; [ contradiction | ].
  cbn [forallb] in H. apply andb_true_iff in H. destruct H as [Hl Hls].
  destruct lines as [ | l' lines].
  - cbn [joinLF]. now rewrite splitLF_last.
  - change (joinLF (l :: l' :: lines)) with (l ++ String JS.LF (joinLF (l' :: lines)))%string.
    rewrite splitLF_line by exact Hl. cbn [append]. f_equal.
    apply IH; [ discriminate | exact Hls ].
Qed.

Lemma silent_parts (p c1 A W E R : string) :
  (forall v, silent p c1 v = true) ->
  forallb (fun c' => negb (char_eq true c' JS.dquote)) (list_ascii_of_string p) = true ->
  silent p A (String JS.dquote EmptyString) = true ->
  (forall v, silent p (String JS.dquote W) v = true) ->
  silent p E R = true ->
  silent p (c1 ++ A ++ String JS.dquote W ++ E) R = true.
Proof.
  intros H1 Hq HA HW HE.
  rewrite !silent_append, H1, HW, HE.
  cbn [append]. rewrite (silent_stop JS.dquote p Hq A _ HA). reflexivity.
Qed.

Lemma completed_line (A : string) :
  ("Scenario " ++ JS.quoted A ++ " completed successfully")%string
  = (("Scenario " ++ String JS.dquote EmptyString) ++ A
     ++ String JS.dquote " completed successfully" ++ EmptyString)%string.
Proof.
  rewrite ?append_assoc, quoted_append. cbn [append]. rewrite ?append_assoc, ?append_empty.
  reflexivity.
Qed.

Lemma failed_line (B E : string) :
  ("Scenario " ++ JS.quoted B ++ " failed: " ++ E)%string
  = (("Scenario " ++ String JS.dquote EmptyString) ++ B
     ++ String JS.dquote " failed:" ++ String " " E)%string.
Proof.
  rewrite ?append_assoc, quoted_append. cbn [append]. rewrite ?append_assoc.
  reflexivity.
Qed.

Lemma tidy_parts (o : outcome) :
  tidy o = true ->
  noQuote (o_name o) = true /\ noBreak (o_name o) = true
  /\ quiet (o_name o) (String JS.dquote EmptyString) = true
  /\ (succeeded o = false ->
      silent " completed successfully" (o_name o) (String JS.dquote EmptyString) = true
      /\ noLF (errorText o) = true
      /\ quiet (errorText o) EmptyString = true
      /\ silent " completed successfully" (String " " (errorText o)) EmptyString = true).
Proof.
  unfold tidy. intro H.
  apply andb_true_iff in H. destruct H as [H H4].
  apply andb_true_iff in H. destruct H as [H H3].
  apply andb_true_iff in H. destruct H as [H1 H2].
  split; [ exact H1 | ]. split; [ exact H2 | ]. split; [ exact H3 | ].
  intro Hs. rewrite Hs in H4. cbn [orb] in H4.
  apply andb_true_iff in H4. destruct H4 as [H4 H8].
  apply andb_true_iff in H4. destruct H4 as [H4 H7].
  apply andb_true_iff in H4. destruct H4 as [H5 H6]. auto.
Qed.

(** A search that finds nothing in a barren text. *)
Lemma match_barren (re : regexp) (line : string) :
  barren re line EmptyString = true -> attempt re EmptyString = None ->
  match_ line re = None.
Proof.
  intros Hb He. rewrite match_search, <- (append_empty line), (search_barren re line _ 0 Hb).
  rewrite search_unfold. unfold attempt in He. now rewrite He.
Qed.

Lemma match_here (re : regexp) (line y : string) (cap : captures) :
  attempt re line = Some (y, cap) ->
  exists m, match_ line re = Some m /\ groups m = cap.
Proof.
  intro H. rewrite match_search, (search_here re line y cap 0 H).
  eexists. split; reflexivity.
Qed.

Lemma capture1_groups (m : match_result) (s : string) :
  groups m = [Some s] -> capture1 m = s.
Proof. unfold capture1, group. intros ->. reflexivity. Qed.

(** The star takes a whole text that it keeps. *)
Lemma backtrack_to_end (keep : ascii -> bool) (k : continuation) (cap : captures)
    (z : state) :
  k EmptyString cap = Some z ->
  forall A : string,
    forallb keep (list_ascii_of_string A) = true ->
    backtrack keep k cap A = Some z.
Proof.
  intros Hk A. induction A as [ | a A IH]; intro H; [ exact Hk | ].
  cbn [list_ascii_of_string forallb] in H. apply andb_true_iff in H. destruct H as [Ha HA].
  cbn [backtrack]. now rewrite Ha, (IH HA).
Qed.

Lemma backtrack_fails (keep : ascii -> bool) (k : continuation) (cap : captures) :
  forall y : string,
    (forall s1 s2, y = (s1 ++ s2)%string -> k s2 cap = None) ->
    backtrack keep k cap y = None.
Proof.
  induction y as [ | a y IH]; intro Hk.
  - cbn [backtrack]. apply (Hk EmptyString EmptyString). reflexivity.
  - cbn [backtrack]. rewrite IH.
    + destruct (keep a); apply (Hk EmptyString (String a y)); reflexivity.
    + intros s1 s2 E. apply (Hk (String a s1) s2). cbn [append]. now rewrite E.
Qed.

Lemma noBreak_keep (A : string) :
  noBreak A = true -> forallb (in_charset AnyChar) (list_ascii_of_string A) = true.
Proof.
  induction A as [ | a A IH]; intro H; [ reflexivity | ].
  cbn [noBreak] in H. apply andb_true_iff in H. destruct H as [Ha HA].
  cbn [list_ascii_of_string forallb in_charset]. now rewrite Ha, (IH HA).
Qed.

(** The start line of a scenario. *)
Lemma start_line (o : outcome) :
  noBreak (o_name o) = true ->
  exists m,
    match_ (startLine o) Patterns.scenarioStartRegex = Some m /\ capture1 m = o_name o.
Proof.
  intro H.
  destruct (match_here Patterns.scenarioStartRegex (startLine o) EmptyString [Some (o_name o)])
    as (m & M1 & M2).
  - unfold attempt, Patterns.scenarioStartRegex, startLine.
    cbn [pattern ignoreCase nCaptures repeat].
    rewrite compile_seq_lit, startsWithCI_self, drop_append.
    rewrite compile_grp, compile_star_class.
    apply backtrack_to_end; [ | now apply noBreak_keep ].
    rewrite <- (append_empty (o_name o)) at 1. rewrite consumed_append. reflexivity.
  - exists m. split; [ exact M1 | now apply capture1_groups ].
Qed.

Lemma silent_blank (p E : string) :
  startsWithCI p (String " " EmptyString) = false ->
  forallb (fun c' => negb (char_eq true c' " ")) (list_ascii_of_string p) = true ->
  silent p E EmptyString = true ->
  silent p (String " " E) EmptyString = true.
Proof.
  intros H0 Hp HE. cbn [silent]. rewrite HE, andb_true_r.
  apply negb_true_iff.
  change (String " " E ++ EmptyString)%string with (EmptyString ++ String " " (E ++ EmptyString))%string.
  rewrite (startsWithCI_stop " " p Hp EmptyString _). exact H0.
Qed.

(** A result line is no start line. *)
Lemma result_line_start (o : outcome) :
  tidy o = true -> match_ (resultLine o) Patterns.scenarioStartRegex = None.
Proof.
  intro H. destruct (tidy_parts o H) as (_ & _ & Hq & Hf).
  apply quiet_parts in Hq. destruct Hq as [_ Hq].
  apply match_barren; [ | reflexivity ].
  apply barren_silent. unfold resultLine.
  destruct (succeeded o).
  - rewrite completed_line. apply silent_parts; try reflexivity. exact Hq.
  - destruct (Hf eq_refl) as (_ & _ & He & _).
    apply quiet_parts in He. destruct He as [_ He].
    rewrite failed_line. apply silent_parts; try reflexivity; assumption.
Qed.

Lemma completed_line_match (o : outcome) :
  tidy o = true -> succeeded o = true ->
  exists m,
    match_ (resultLine o) Patterns.scenarioCompleteRegex = Some m
    /\ capture1 m = o_name o.
Proof.
  intros H Hs. destruct (tidy_parts o H) as (Hn & _).
  destruct (match_here Patterns.scenarioCompleteRegex (resultLine o) EmptyString
              [Some (o_name o)]) as (m & M1 & M2).
  - unfold resultLine. rewrite Hs.
    rewrite <- (append_empty " completed successfully").
    now apply attempt_completed.
  - exists m. split; [ exact M1 | now apply capture1_groups ].
Qed.

Lemma failed_line_complete (o : outcome) :
  tidy o = true -> succeeded o = false ->
  match_ (resultLine o) Patterns.scenarioCompleteRegex = None.
Proof.
  intros H Hs. destruct (tidy_parts o H) as (Hn & _ & Hq & Hf).
  apply quiet_parts in Hq. destruct Hq as [Hq _].
  destruct (Hf Hs) as (Hc & _ & He & _). apply quiet_parts in He. destruct He as [He _].
  apply match_barren; [ | reflexivity ].
  unfold resultLine. rewrite Hs.
  set (T := (("cenario " ++ String JS.dquote EmptyString) ++ o_name o
             ++ String JS.dquote " failed:" ++ String " " (errorText o))%string).
  assert (Et : ("Scenario " ++ JS.quoted (o_name o) ++ " failed: " ++ errorText o)%string
               = String "S" T)
    by (rewrite failed_line; reflexivity).
  rewrite Et, barren_cons, <- Et, append_empty.
  rewrite (attempt_failed _ _ Hn Hc).
  apply barren_silent. unfold T. apply silent_parts; try reflexivity; assumption.
Qed.

(** The simple completion pattern finds nothing where the words of a
    completion do not stand. *)
Lemma simple_none (x : string) :
  silent " completed successfully" x EmptyString = true ->
  forall i : nat, search Patterns.simpleCompleteRegex x i = None.
Proof.
  assert (A : forall y, silent " completed successfully" y EmptyString = true ->
                attempt Patterns.simpleCompleteRegex y = None).
  { intros y Hy. unfold attempt, Patterns.simpleCompleteRegex.
    cbn [pattern ignoreCase nCaptures repeat].
    rewrite compile_seq, compile_grp, compile_star_class.
    apply backtrack_fails. intros s1 s2 E. rewrite compile_lit.
    destruct s2 as [ | a s2]; [ reflexivity | ].
    rewrite E in Hy. apply silent_suffix, silent_here in Hy.
    rewrite append_empty in Hy. now rewrite Hy. }
  induction x as [ | a x IH]; intros H i; rewrite search_unfold.
  - specialize (A _ H). unfold attempt in A. now rewrite A.
  - pose proof (A _ H) as A1. unfold attempt in A1. rewrite A1.
    cbn [silent] in H. apply andb_true_iff in H. now apply IH.
Qed.

Lemma failed_line_simple (o : outcome) :
  tidy o = true -> succeeded o = false ->
  match_ (resultLine o) Patterns.simpleCompleteRegex = None.
Proof.
  intros H Hs. destruct (tidy_parts o H) as (_ & _ & _ & Hf).
  destruct (Hf Hs) as (Hc & _ & _ & He).
  rewrite match_search. apply simple_none.
  unfold resultLine. rewrite Hs, failed_line.
  apply silent_parts; try reflexivity; assumption.
Qed.

(** The failure pattern at a failure line. *)
Lemma attempt_failure (A R : string) :
  noQuote A = true ->
  attempt Patterns.scenarioFailedRegex ("Scenario " ++ JS.quoted A ++ " failed" ++ R)
  = Some (R, [Some A]).
Proof.
  intro HA. unfold attempt, Patterns.scenarioFailedRegex.
  cbn [pattern ignoreCase nCaptures repeat].
  rewrite compile_seq, compile_lit, startsWithCI_self, drop_append.
  rewrite quoted_append, compile_seq, opt_quote, Ascii.eqb_refl.
  assert (E : compile true
                (Seq (Grp 1 (star (Cls (NoneOf [JS.dquote]))))
                     (Seq (opt (Chr JS.dquote)) (lit " failed")))
                (A ++ String JS.dquote (" failed" ++ R)) [None]
                (fun y cap => Some (y, cap))
              = Some (R, [Some A])).
  { rewrite compile_seq, compile_grp, compile_star_class.
    apply backtrack_takes; [ | exact HA ].
    rewrite consumed_append. cbn [set_capture].
    rewrite compile_seq, opt_quote, Ascii.eqb_refl.
    rewrite compile_lit, startsWithCI_self, drop_append. reflexivity. }
  rewrite E. reflexivity.
Qed.

Lemma failed_line_match (o : outcome) :
  tidy o = true -> succeeded o = false ->
  exists m,
    match_ (resultLine o) Patterns.scenarioFailedRegex = Some m
    /\ capture1 m = o_name o.
Proof.
  intros H Hs. destruct (tidy_parts o H) as (Hn & _).
  destruct (match_here Patterns.scenarioFailedRegex (resultLine o)
              (": " ++ errorText o) [Some (o_name o)]) as (m & M1 & M2).
  - unfold resultLine. rewrite Hs.
    change (" failed: " ++ errorText o)%string
      with (" failed" ++ ": " ++ errorText o)%string.
    now apply attempt_failure.
  - exists m. split; [ exact M1 | now apply capture1_groups ].
Qed.

Lemma includes_self (x : string) : JS.includes x x = true.
Proof.
  pose proof (includes_within x EmptyString EmptyString) as H.
  cbn [append] in H. now rewrite append_empty in H.
Qed.

End Console.

Section ConsoleRun.
Import RegExp Writer Transcript Generator Shape.

Lemma processLines_app (l1 l2 : list string) :
  forall (st : parserState) (w : world),
    processLines (l1 ++ l2) st w
    = let (st1, w1) := processLines l1 st w in processLines l2 st1 w1.
Proof.
  induction l1 as [ | l l1 IH]; intros st w; [ reflexivity | ].
  cbn [List.app processLines]. unfold bind.
  destruct (processLine l st w) as [st' w']. apply IH.
Qed.

(** A line that no pattern matches changes nothing. *)
Lemma inert_line (line : string) (st : parserState) (w : world) :
  inert line = true -> processLine line st w = (st, w).
Proof.
  unfold inert. intro H.
  apply andb_true_iff in H. destruct H as [H H5].
  apply andb_true_iff in H. destruct H as [H H4].
  apply andb_true_iff in H. destruct H as [H H3].
  apply andb_true_iff in H. destruct H as [H1 H2].
  unfold processLine.
  destruct (match_ line Patterns.scenarioStartRegex); [ discriminate | ].
  destruct (currentScenario st) as [cur | ]; [ | reflexivity ].
  destruct (match_ line Patterns.scenarioCompleteRegex); [ discriminate | ].
  destruct (match_ line Patterns.simpleCompleteRegex); [ discriminate | ].
  destruct (match_ line Patterns.scenarioFailedRegex); [ discriminate | ].
  destruct (match_ line Patterns.warningRegex); [ discriminate | ].
  reflexivity.
Qed.

Lemma noise_lines (lines : list string) :
  noise lines = true ->
  forall (st : parserState) (w : world), processLines lines st w = (st, w).
Proof.
  induction lines as [ | l lines IH]; intros H st w; [ reflexivity | ].
  unfold noise in H. cbn [forallb] in H. apply andb_true_iff in H. destruct H as [Hl Hls].
  apply andb_true_iff in Hl. destruct Hl as [Hl _].
  cbn [processLines]. unfold bind. rewrite (inert_line l st w Hl). now apply IH.
Qed.

(** Before the first scenario nothing changes either. *)
Lemma opening_lines (lines : list string) :
  opening lines = true ->
  forall (st : parserState) (w : world),
    currentScenario st = None -> processLines lines st w = (st, w).
Proof.
  induction lines as [ | l lines IH]; intros H st w Hst; [ reflexivity | ].
  unfold opening in H. cbn [forallb] in H. apply andb_true_iff in H. destruct H as [Hl Hls].
  apply andb_true_iff in Hl. destruct Hl as [Hl _].
  cbn [processLines]. unfold bind.
  assert (E : processLine l st w = (st, w)).
  { unfold processLine.
    destruct (match_ l Patterns.scenarioStartRegex); [ discriminate | ].
    now rewrite Hst. }
  rewrite E. now apply IH.
Qed.

(** The lines of one scenario add its outcome to the entries. *)
Lemma episode_lines (e : episode) (st : parserState) (w : world) :
  tidyEpisode e = true ->
  exists st' w' cur,
    processLines (episodeLines e) st w = (st', w')
    /\ entries st' = (entries st ++ [cur])%list
    /\ currentScenario st' = Some cur
    /\ Plain.telling cur = read (e_outcome e).
Proof.
  unfold tidyEpisode. intro H.
  apply andb_true_iff in H. destruct H as [H Ha].
  apply andb_true_iff in H. destruct H as [Ho Hd].
  set (o := e_outcome e) in *.
  destruct (tidy_parts o Ho) as (_ & Hb & _).
  unfold episodeLines. fold o. cbn [processLines]. unfold bind.
  (* the start line *)
  destruct (start_line o Hb) as (m & M1 & M2).
  unfold processLine at 1. rewrite M1, M2. unfold bind, newDate, ret.
  set (saved := match currentScenario st with
                | Some cur => push (collected st) cur
                | None => collected st
                end).
  assert (Esaved : saved = entries st).
  { unfold saved, entries, push. destruct (currentScenario st); [ reflexivity | ].
    now rewrite app_nil_r. }
  set (running := mkScenario (scenarioIdCounter st) (JS.trim (o_name o)) "running"
                    (w 0) None None [] [] None).
  (* the lines of the scenario, then its result line *)
  rewrite processLines_app, (noise_lines _ Hd). cbn [processLines]. unfold bind.
  unfold processLine. rewrite (result_line_start o Ho).
  cbn [currentScenario collected scenarioIdCounter].
  destruct (succeeded o) eqn:Hs.
  - destruct (completed_line_match o Ho Hs) as (c & C1 & C2). rewrite C1.
    cbn [orElse accepted]. rewrite C2. unfold belongsTo. cbn [name running].
    rewrite includes_self. cbn [orb]. unfold bind, newDate, ret.
    rewrite (noise_lines _ Ha).
    eexists. eexists. eexists. split; [ reflexivity | ].
    unfold entries at 1. cbn [collected currentScenario]. rewrite Esaved.
    split; [ reflexivity | ]. split; [ reflexivity | ].
    unfold Plain.telling, read. fold o. rewrite Hs. reflexivity.
  - rewrite (failed_line_complete o Ho Hs), (failed_line_simple o Ho Hs).
    cbn [orElse accepted].
    destruct (failed_line_match o Ho Hs) as (f & F1 & F2). rewrite F1.
    cbn [accepted]. rewrite F2. unfold belongsTo. cbn [name running].
    rewrite includes_self. cbn [orb]. unfold bind, newDate, ret.
    rewrite (noise_lines _ Ha).
    eexists. eexists. eexists. split; [ reflexivity | ].
    unfold entries at 1. cbn [collected currentScenario]. rewrite Esaved.
    split; [ reflexivity | ]. split; [ reflexivity | ].
    unfold Plain.telling, read. fold o. rewrite Hs. reflexivity.
Qed.

Lemma read_status (cur : scenario) (o : outcome) :
  Plain.telling cur = read o -> String.eqb (status cur) "running" = false.
Proof.
  unfold Plain.telling, read. intro H. injection H as _ H _. rewrite H.
  now destruct (succeeded o).
Qed.

Lemma episodes_lines (es : list episode) :
  forallb tidyEpisode es = true ->
  forall (st : parserState) (w : world),
  exists st' w',
    processLines (flat_map episodeLines es) st w = (st', w')
    /\ map Plain.telling (entries st')
       = (map Plain.telling (entries st) ++ map (fun e => read (e_outcome e)) es)%list
    /\ (es <> [] ->
        exists cur, currentScenario st' = Some cur
                    /\ String.eqb (status cur) "running" = false).
Proof.
  induction es as [ | e es IH]; intros H st w.
  - exists st, w. cbn [flat_map processLines map]. rewrite app_nil_r.
    repeat split. intro C. contradiction.
  - cbn [forallb] in H. apply andb_true_iff in H. destruct H as [He Hes].
    cbn [flat_map]. rewrite processLines_app.
    destruct (episode_lines e st w He) as (st1 & w1 & cur & -> & E1 & E2 & E3).
    destruct es as [ | e' es].
    + exists st1, w1. cbn [flat_map processLines map]. split; [ reflexivity | ]. split.
      * rewrite E1, map_app. cbn [map]. now rewrite E3.
      * intros _. exists cur. split; [ exact E2 | exact (read_status cur _ E3) ].
    + destruct (IH Hes st1 w1) as (st' & w' & -> & F1 & F2).
      exists st', w'. split; [ reflexivity | ]. split.
      * rewrite F1, E1, map_app, <- app_assoc. cbn [map List.app]. now rewrite E3.
      * intros _. apply F2. discriminate.
Qed.

Lemma finish_closed (st : parserState) (w : world) (cur : scenario) :
  currentScenario st = Some cur -> String.eqb (status cur) "running" = false ->
  finish st w = (entries st, w).
Proof.
  intros E Hs. unfold finish, entries. rewrite E, Hs. reflexivity.
Qed.

Lemma noLF_append (a b : string) : noLF (a ++ b) = noLF a && noLF b.
Proof.
  induction a as [ | x a IH]; [ reflexivity | ].
  cbn [append noLF]. now rewrite IH, andb_assoc.
Qed.

Lemma noBreak_noLF (s : string) : noBreak s = true -> noLF s = true.
Proof.
  induction s as [ | a s IH]; intro H; [ reflexivity | ].
  cbn [noBreak] in H. apply andb_true_iff in H. destruct H as [Ha Hs].
  cbn [noLF]. rewrite (IH Hs), andb_true_r.
  destruct (Ascii.eqb a JS.LF) eqn:E; [ | reflexivity ].
  apply Ascii.eqb_eq in E. subst a. discriminate Ha.
Qed.

Lemma resultLine_noLF (o : outcome) : tidy o = true -> noLF (resultLine o) = true.
Proof.
  intro H. destruct (tidy_parts o H) as (_ & Hb & _ & Hf).
  apply noBreak_noLF in Hb. unfold resultLine, JS.quoted.
  destruct (succeeded o).
  - change ("Scenario " ++ String JS.dquote (o_name o ++ String JS.dquote EmptyString)
            ++ " completed successfully")%string
      with ("Scenario " ++ String JS.dquote EmptyString
            ++ (o_name o ++ String JS.dquote EmptyString) ++ " completed successfully")%string.
    rewrite !noLF_append, Hb. reflexivity.
  - destruct (Hf eq_refl) as (_ & He & _).
    change ("Scenario " ++ String JS.dquote (o_name o ++ String JS.dquote EmptyString)
            ++ " failed: " ++ errorText o)%string
      with ("Scenario " ++ String JS.dquote EmptyString
            ++ (o_name o ++ String JS.dquote EmptyString) ++ " failed: " ++ errorText o)%string.
    rewrite !noLF_append, Hb, He. reflexivity.
Qed.

Lemma noise_noLF (lines : list string) : noise lines = true -> forallb noLF lines = true.
Proof.
  unfold noise. induction lines as [ | l lines IH]; intro H; [ reflexivity | ].
  cbn [forallb] in *. apply andb_true_iff in H. destruct H as [Hl Hls].
  apply andb_true_iff in Hl. destruct Hl as [_ Hl]. now rewrite Hl, IH.
Qed.

Lemma transcript_noLF (preamble : list string) (es : list episode) :
  opening preamble = true -> forallb tidyEpisode es = true ->
  forallb noLF (transcript preamble es) = true.
Proof.
  intros Hp He. unfold transcript. rewrite forallb_app. apply andb_true_iff. split.
  - unfold opening in Hp. induction preamble as [ | l ls IH]; [ reflexivity | ].
    cbn [forallb] in *. apply andb_true_iff in Hp. destruct Hp as [Hl Hls].
    apply andb_true_iff in Hl. destruct Hl as [_ Hl]. now rewrite Hl, IH.
  - induction es as [ | e es IH]; [ reflexivity | ].
    cbn [forallb] in He. apply andb_true_iff in He. destruct He as [H Hes].
    unfold tidyEpisode in H.
    apply andb_true_iff in H. destruct H as [H Ha].
    apply andb_true_iff in H. destruct H as [Ho Hd].
    cbn [flat_map]. rewrite forallb_app, (IH Hes), andb_true_r.
    unfold episodeLines. cbn [forallb]. rewrite forallb_app. cbn [forallb].
    rewrite (noise_noLF _ Hd), (noise_noLF _ Ha), (resultLine_noLF _ Ho).
    unfold startLine. rewrite noLF_append.
    destruct (tidy_parts _ Ho) as (_ & Hb & _). now rewrite (noBreak_noLF _ Hb).
Qed.

(** A line of a joined text stands in it. *)
Lemma joinLF_mid (l : string) (post : list string) :
  forall pre : list string,
  exists U R, joinLF (pre ++ l :: post) = (U ++ l ++ R)%string.
Proof.
  induction pre as [ | p pre IH].
  - exists EmptyString. destruct post as [ | q post].
    + exists EmptyString. cbn [List.app joinLF append]. now rewrite append_empty.
    + exists (String JS.LF (joinLF (q :: post))). reflexivity.
  - destruct IH as (U & R & E).
    exists (p ++ String JS.LF U)%string, R.
    change (joinLF ((p :: pre) ++ l :: post))
      with (joinLF (p :: (pre ++ l :: post))).
    destruct (pre ++ l :: post)%list as [ | x xs] eqn:Ex.
    + destruct pre; discriminate Ex.
    + change (joinLF (p :: x :: xs)) with (p ++ String JS.LF (joinLF (x :: xs)))%string.
      rewrite E, append_assoc. reflexivity.
Qed.

Lemma search_finds (re : regexp) (x : string) :
  Scan.attempt re x <> None ->
  forall (u : string) (i : nat), search re (u ++ x) i <> None.
Proof.
  intros H u. induction u as [ | a u IH]; intro i; rewrite search_unfold.
  - cbn [append]. unfold Scan.attempt in H.
    destruct (compile _ _ x _ _) as [[y cap] | ]; [ discriminate | contradiction ].
  - destruct (compile _ _ (String a u ++ x) _ _) as [[y cap] | ]; [ discriminate | ].
    cbn [append]. apply IH.
Qed.

Lemma backtrack_some (keep : ascii -> bool) (k : continuation) (cap : captures) :
  (forall y, k y cap <> None) ->
  forall x : string, Scan.backtrack keep k cap x <> None.
Proof.
  intros Hk x. induction x as [ | a x IH]; cbn [Scan.backtrack]; [ apply Hk | ].
  destruct (keep a); [ | apply Hk ].
  destruct (Scan.backtrack keep k cap x); [ discriminate | contradiction ].
Qed.

Lemma start_attempt (o : outcome) (R : string) :
  Scan.attempt Patterns.scenarioStartRegex (startLine o ++ R) <> None.
Proof.
  unfold Scan.attempt, Patterns.scenarioStartRegex, startLine.
  cbn [pattern ignoreCase nCaptures repeat].
  rewrite append_assoc, compile_seq_lit, startsWithCI_self, drop_append.
  rewrite compile_grp, compile_star_class.
  apply backtrack_some. discriminate.
Qed.

Lemma fold_add_length (ms : list match_result) :
  forall acc : list string,
    length acc
    <= length (fold_left (fun names m => set_add (JS.trim (capture1 m)) names) ms acc).
Proof.
  induction ms as [ | m ms IH]; intro acc; cbn [fold_left]; [ lia | ].
  etransitivity; [ | apply IH ].
  unfold set_add, push. destruct (existsb _ acc); [ lia | ].
  rewrite length_app. lia.
Qed.

(** A transcript with a scenario has a name for the parser. *)
Lemma transcript_names (preamble : list string) (e : episode) (es : list episode) :
  (length (fold_left (fun names m => set_add (JS.trim (capture1 m)) names)
             (matchAll (joinLF (transcript preamble (e :: es))) Patterns.scenarioStartRegex)
             []) =? 0) = false.
Proof.
  apply Nat.eqb_neq.
  unfold transcript. cbn [flat_map]. unfold episodeLines at 1. cbn [List.app].
  destruct (joinLF_mid (startLine (e_outcome e))
              ((e_during e ++ resultLine (e_outcome e) :: e_after e)
               ++ flat_map episodeLines es)%list preamble) as (U & R & E).
  rewrite E. unfold matchAll. cbn [matchAllFrom]. unfold exec.
  cbn [Nat.ltb Nat.leb].
  replace (JS.drop 0 (U ++ startLine (e_outcome e) ++ R))
    with (U ++ startLine (e_outcome e) ++ R)%string
    by (now destruct (U ++ startLine (e_outcome e) ++ R)%string).
  pose proof (search_finds Patterns.scenarioStartRegex _ (start_attempt (e_outcome e) R) U 0)
    as Hs.
  destruct (search Patterns.scenarioStartRegex (U ++ startLine (e_outcome e) ++ R) 0)
    as [m | ]; [ | contradiction ].
  cbn [fold_left].
  change (set_add (JS.trim (capture1 m)) []) with [JS.trim (capture1 m)].
  match goal with
  | |- length (fold_left ?f ?ms ?acc) <> 0 =>
      pose proof (fold_add_length ms acc) as L
  end.
  cbn [length] in L. lia.
Qed.

(** X19.  A console transcript, read by the generator's
    prepareScenarioResults.  The transcript has, for each scenario of a
    run, the start line of shiny-test-runner.js, lines that no pattern of
    the parser matches, and the result line; it is at least 300 characters
    long, and names and error texts stay within their line and have none of
    the wording of the other lines.  Then the list has exactly the
    scenarios of the run, in order, under their trimmed names: passed for a
    completion line and, for a failure line, failed with the error text
    Scenario failed. *)
Theorem console_run_is_read_back :
  forall (preamble : list string) (es : list episode) (w : world),
    0 < length es ->
    300 <= String.length (joinLF (transcript preamble es)) ->
    opening preamble = true ->
    forallb tidyEpisode es = true ->
    map Plain.telling (fst (prepareScenarioResults (joinLF (transcript preamble es)) w))
    = map (fun e => read (e_outcome e)) es.
Proof.
  intros preamble es w Hne Hlen Hp He.
  destruct es as [ | e es]; [ cbn in Hne; lia | ].
  set (log := joinLF (transcript preamble (e :: es))) in *.
  unfold prepareScenarioResults.
  replace (String.eqb log EmptyString) with false
    by (symmetry; apply String.eqb_neq; intro C; rewrite C in Hlen; cbn in Hlen; lia).
  replace (String.length log <? 300) with false by (symmetry; apply Nat.ltb_ge; lia).
  unfold log at 1. rewrite transcript_names.
  unfold bind. unfold log.
  rewrite split_join;
    [ | unfold transcript; cbn [flat_map]; unfold episodeLines at 1;
        destruct preamble; discriminate
      | now apply transcript_noLF ].
  unfold transcript. rewrite processLines_app.
  rewrite (opening_lines preamble Hp) by reflexivity.
  destruct (episodes_lines (e :: es) He (mkState [] None 1) w) as (st & w1 & -> & E1 & E2).
  destruct (E2 ltac:(discriminate)) as (cur & C1 & C2).
  rewrite (finish_closed st w1 cur C1 C2).
  assert (L : length (entries st) = S (length es)).
  { rewrite <- (length_map Plain.telling), E1. cbn. now rewrite length_map. }
  rewrite L. cbn [Nat.eqb ret fst]. rewrite E1. reflexivity.
Qed.

Lemma console_run_is_read_back_sample :
  (0 < length SampleRun.episodes
   /\ 300 <= String.length (joinLF (transcript SampleRun.preamble SampleRun.episodes))
   /\ opening SampleRun.preamble = true
   /\ forallb tidyEpisode SampleRun.episodes = true)
  /\ map Plain.telling
       (fst (prepareScenarioResults
               (joinLF (transcript SampleRun.preamble SampleRun.episodes)) Logs.ticking))
     = [ ("Tab Navigation", "passed", None);
         ("Dashboard Controls", "failed", Some "Scenario failed") ].
Proof.
  split.
  - split; [ vm_compute; lia | ]. split; [ vm_compute; lia | ].
    split; vm_compute; reflexivity.
  - apply (console_run_is_read_back SampleRun.preamble SampleRun.episodes Logs.ticking).
    + vm_compute. lia.
    + vm_compute. lia.
    + vm_compute. reflexivity.
    + vm_compute. reflexivity.
Defined.

End ConsoleRun.

(* ===================================================================== *)
(** ** The labels of the screenshots                                        *)
(* ===================================================================== *)

Section Screenshots.
Import Shots.

Lemma indexOfFrom_unfold (pat s : string) (i : nat) :
  JS.indexOfFrom pat s i
  = if prefix pat s then Some i
    else match s with
         | String _ s' => JS.indexOfFrom pat s' (S i)
         | EmptyString => None
         end.
Proof. destruct s; reflexivity. Qed.

Lemma indexOfFrom_shift (pat : string) :
  forall (s : string) (i : nat),
    JS.indexOfFrom pat s i = option_map (fun j => i + j) (JS.indexOfFrom pat s 0).
Proof.
  induction s as [ | a s IH]; intro i.
  - rewrite (indexOfFrom_unfold pat EmptyString i), (indexOfFrom_unfold pat EmptyString 0).
    destruct (prefix pat EmptyString); cbn [option_map]; [ now rewrite Nat.add_0_r | reflexivity ].
  - rewrite (indexOfFrom_unfold pat (String a s) i), (indexOfFrom_unfold pat (String a s) 0).
    destruct (prefix pat (String a s)); cbn [option_map]; [ now rewrite Nat.add_0_r | ].
    rewrite (IH (S i)), (IH 1).
    destruct (JS.indexOfFrom pat s 0); cbn [option_map]; [ f_equal; lia | reflexivity ].
Qed.

Lemma absent_anywhere (pat s : string) (i : nat) :
  JS.includes s pat = false -> JS.indexOfFrom pat s i = None.
Proof.
  unfold JS.includes. intro H. rewrite indexOfFrom_shift.
  destruct (JS.indexOfFrom pat s 0); [ discriminate | reflexivity ].
Qed.

Lemma prefix_take (pat : string) : forall k : nat, prefix (JS.take k pat) pat = true.
Proof.
  induction pat as [ | a pat IH]; intros [ | k]; try reflexivity.
  cbn [JS.take]. rewrite prefix_cons, Ascii.eqb_refl. apply IH.
Qed.

(** Where a text followed by another begins with [pat]: the text does, or
    the text is a proper beginning of [pat] that the other one goes on. *)
Lemma prefix_append_cases (pat : string) :
  forall s v : string,
    prefix pat (s ++ v) = true ->
    prefix pat s = true
    \/ (String.length s < String.length pat
        /\ s = JS.take (String.length s) pat
        /\ prefix (JS.drop (String.length s) pat) v = true).
Proof.
  induction pat as [ | a pat IH]; intros s v H.
  - left. destruct s; reflexivity.
  - destruct s as [ | b s].
    + right. cbn [String.length JS.take JS.drop]. split; [ lia | ]. split; [ reflexivity | exact H ].
    + cbn [append] in H. rewrite prefix_cons in H. rewrite prefix_cons.
      apply andb_true_iff in H. destruct H as [E H]. rewrite E. cbn [andb].
      destruct (IH s v H) as [P | (L & T & P)]; [ now left | right ].
      apply Ascii.eqb_eq in E. subst b.
      cbn [String.length JS.take JS.drop]. split; [ lia | ]. split; [ now f_equal | exact P ].
Qed.

(** The search for [pat] passes a text that does not hold it, when what
    follows goes on no beginning of [pat]. *)
Lemma absent_append (pat v : string) :
  noBorder pat v = true ->
  forall (s : string) (i : nat),
    JS.indexOfFrom pat s i = None ->
    JS.indexOfFrom pat (s ++ v) i = JS.indexOfFrom pat v (i + String.length s).
Proof.
  intros NB. induction s as [ | c t IH]; intros i H.
  - cbn [append String.length]. now rewrite Nat.add_0_r.
  - rewrite indexOfFrom_unfold in H.
    destruct (prefix pat (String c t)) eqn:P; [ discriminate | ].
    cbn [append]. rewrite indexOfFrom_unfold.
    destruct (prefix pat (String c (t ++ v))) eqn:Q.
    + exfalso.
      apply (prefix_append_cases pat (String c t) v) in Q.
      destruct Q as [Q | (L & E & Q)]; [ congruence | ].
      unfold noBorder in NB. rewrite forallb_forall in NB.
      specialize (NB (String.length (String c t))). rewrite Q in NB.
      assert (F : negb true = true); [ | discriminate F ].
      apply NB. apply in_seq. cbn [String.length] in *. lia.
    + rewrite (IH (S i) H). f_equal. cbn [String.length]. lia.
Qed.

(** The search passes a text that does not hold [pat] and does not end in
    a beginning of it. *)
Lemma absent_prepend (pat w : string) :
  forall (u : string) (i : nat),
    noOverlap pat u = true ->
    JS.indexOfFrom pat u i = None ->
    JS.indexOfFrom pat (u ++ w) i = JS.indexOfFrom pat w (i + String.length u).
Proof.
  induction u as [ | c t IH]; intros i NO H.
  - cbn [append String.length]. now rewrite Nat.add_0_r.
  - rewrite indexOfFrom_unfold in H.
    destruct (prefix pat (String c t)) eqn:P; [ discriminate | ].
    cbn [noOverlap] in NO. apply andb_true_iff in NO. destruct NO as [N1 N2].
    cbn [append]. rewrite indexOfFrom_unfold.
    destruct (prefix pat (String c (t ++ w))) eqn:Q.
    + exfalso.
      apply (prefix_append_cases pat (String c t) w) in Q.
      destruct Q as [Q | (L & E & Q)]; [ congruence | ].
      apply negb_true_iff in N1. apply andb_false_iff in N1.
      destruct N1 as [N1 | N1].
      * rewrite E, prefix_take in N1. discriminate.
      * apply Nat.ltb_ge in N1. lia.
    + rewrite (IH (S i) N2 H). f_equal. cbn [String.length]. lia.
Qed.

Lemma digit_differs (a d : ascii) :
  JS.isDigit a = false -> JS.isDigit d = true -> Ascii.eqb a d = false.
Proof.
  intros Ha Hd. destruct (Ascii.eqb a d) eqn:E; [ | reflexivity ].
  apply Ascii.eqb_eq in E. subst. congruence.
Qed.

(** The search for a text that begins with another character passes
    digits. *)
Lemma digits_passed (a : ascii) (p v : string) :
  JS.isDigit a = false ->
  forall (ds : string) (i : nat),
    Format.digits ds = true ->
    JS.indexOfFrom (String a p) (ds ++ v) i
    = JS.indexOfFrom (String a p) v (i + String.length ds).
Proof.
  intros Ha. induction ds as [ | d ds IH]; intros i D.
  - cbn [append String.length]. now rewrite Nat.add_0_r.
  - cbn [Format.digits] in D. apply andb_true_iff in D. destruct D as [Dd D].
    cbn [append]. rewrite indexOfFrom_unfold, prefix_cons, (digit_differs a d Ha Dd).
    cbn [andb]. rewrite (IH (S i) D). f_equal. cbn [String.length]. lia.
Qed.

(** A file name with a number between two fixed parts holds no text that
    begins with a character other than a digit, that neither part holds and
    that the first part does not end in a beginning of. *)
Lemma absent_numbered (a : ascii) (p u v : string) (n : nat) :
  JS.isDigit a = false ->
  noOverlap (String a p) u = true ->
  JS.includes u (String a p) = false ->
  JS.includes v (String a p) = false ->
  JS.includes (u ++ JS.toString n ++ v) (String a p) = false.
Proof.
  intros Ha NO Iu Iv. unfold JS.includes.
  rewrite (absent_prepend _ _ u 0 NO (absent_anywhere _ _ 0 Iu)).
  rewrite (digits_passed a p v Ha _ _ (digits_toString n)).
  now rewrite (absent_anywhere _ v _ Iv).
Qed.

Lemma take_append (u v : string) : JS.take (String.length u) (u ++ v) = u.
Proof.
  induction u as [ | a u IH]; cbn [String.length append JS.take];
    [ now destruct v | now rewrite IH ].
Qed.

(** [replace] takes a beginning away. *)
Lemma replace_head (pat rest : string) : replace (pat ++ rest) pat EmptyString = rest.
Proof.
  unfold replace. rewrite indexOfFrom_unfold, prefix_self.
  cbn [Nat.add]. replace (JS.take 0 (pat ++ rest)) with EmptyString by now destruct (pat ++ rest).
  cbn [append]. apply drop_append.
Qed.

(** [replace] takes the extension away from a name that holds it nowhere
    else. *)
Lemma replace_extension (stem : string) :
  JS.includes stem ".png" = false ->
  replace (stem ++ ".png") ".png" EmptyString = stem.
Proof.
  intro H. unfold replace.
  rewrite (absent_append ".png" ".png" eq_refl stem 0 (absent_anywhere _ _ 0 H)).
  rewrite indexOfFrom_unfold. change (prefix ".png" ".png") with true. cbv iota.
  cbn [Nat.add]. rewrite take_append.
  rewrite <- drop_drop, drop_append. cbn [String.length JS.drop append].
  apply append_empty.
Qed.

Lemma lower_whiteSpace (a : ascii) : JS.isWhiteSpace (lower a) = JS.isWhiteSpace a.
Proof. destruct a as [[] [] [] [] [] [] [] []]; reflexivity. Qed.

(** Folding case and joining words commute: the two writers of tab
    screenshots agree. *)
Lemma dashes_toLowerCase (s : string) :
  forall inRun : bool, dashes inRun (toLowerCase s) = toLowerCase (dashes inRun s).
Proof.
  induction s as [ | a s IH]; intro inRun; cbn [toLowerCase dashes]; [ reflexivity | ].
  rewrite lower_whiteSpace.
  destruct (JS.isWhiteSpace a), inRun; cbn [toLowerCase]; rewrite IH; reflexivity.
Qed.

Lemma includes_head (sub v : string) : JS.includes (sub ++ v) sub = true.
Proof. exact (includes_within sub v EmptyString). Qed.

Lemma label_tab (stem : string) :
  JS.includes stem ".png" = false ->
  label ("tab-" ++ stem ++ ".png") = ("Tab Navigation", blanks stem).
Proof.
  intro H. unfold label, startsWith. rewrite prefix_self.
  now rewrite replace_head, replace_extension.
Qed.

Lemma label_responsive (stem : string) :
  JS.includes stem ".png" = false ->
  JS.includes stem "plot-" = false ->
  label ("responsive-" ++ stem ++ ".png") = ("Responsiveness", blanks stem).
Proof.
  intros H P. unfold label, startsWith.
  change (prefix "tab-" ("responsive-" ++ stem ++ ".png")) with false. cbv iota.
  assert (Hplot : JS.includes ("responsive-" ++ stem ++ ".png") "plot-" = false).
  { unfold JS.includes.
    rewrite (absent_prepend "plot-" _ "responsive-" 0 eq_refl eq_refl).
    rewrite (absent_append "plot-" ".png" eq_refl stem _ (absent_anywhere _ _ _ P)).
    now rewrite (absent_anywhere "plot-" ".png" _ eq_refl). }
  rewrite Hplot.
  rewrite (includes_head "responsive-" (stem ++ ".png")).
  now rewrite replace_head, replace_extension.
Qed.

(** X20.  The scenario of shiny-scenarios.js and the runner save the
    screenshot of a tab under the same name: the name of the tab in lower
    case, with a hyphen for every run of white space.  getScreenshots files
    a file of that name under Tab Navigation, its type being that name with
    blanks for the hyphens, provided that the name does not hold the text
    .png. *)
Theorem tab_shots_are_labelled :
  forall tabName : string,
    JS.includes (toLowerCase (hyphenate tabName)) ".png" = false ->
    runnerTabShot tabName = tabShot tabName
    /\ label (tabShot tabName)
       = ("Tab Navigation", blanks (toLowerCase (hyphenate tabName))).
Proof.
  intros tabName H. unfold runnerTabShot, tabShot, hyphenate in *.
  rewrite dashes_toLowerCase. split; [ reflexivity | ].
  now apply label_tab.
Qed.

Lemma tab_shots_are_labelled_dataTable :
  JS.includes (toLowerCase (hyphenate "Data  Table")) ".png" = false
  /\ (runnerTabShot "Data  Table" = tabShot "Data  Table"
      /\ label (tabShot "Data  Table") = ("Tab Navigation", "data table")).
Proof.
  split; [ vm_compute; reflexivity | ].
  apply (tab_shots_are_labelled "Data  Table"). vm_compute. reflexivity.
Defined.

(** X21.  getScreenshots files a viewport screenshot of the runner under
    Responsiveness, its type being the name of the viewport in lower case
    with single blanks for the runs of white space and for the hyphens,
    provided that the name holds neither the text .png nor the text plot-
    once it is written that way. *)
Theorem viewport_shots_are_labelled :
  forall viewportName : string,
    JS.includes (hyphenate (toLowerCase viewportName)) ".png" = false ->
    JS.includes (hyphenate (toLowerCase viewportName)) "plot-" = false ->
    label (runnerViewportShot viewportName)
    = ("Responsiveness", blanks (hyphenate (toLowerCase viewportName))).
Proof.
  intros viewportName H P. unfold runnerViewportShot. now apply label_responsive.
Qed.

Lemma viewport_shots_are_labelled_runner :
  (JS.includes (hyphenate (toLowerCase "Desktop Large")) ".png" = false
   /\ JS.includes (hyphenate (toLowerCase "Desktop Large")) "plot-" = false)
  /\ label (runnerViewportShot "Desktop Large") = ("Responsiveness", "desktop large").
Proof.
  split; [ split; vm_compute; reflexivity | ].
  apply (viewport_shots_are_labelled "Desktop Large"); vm_compute; reflexivity.
Defined.

(** X22.  getScreenshots files the two screenshots of a plot under Plot
    Interactions, the one taken before the interaction as Before Interaction
    and the one taken after it as After Interaction, whatever the number of
    the plot. *)
Theorem plot_shots_are_labelled :
  forall i : nat,
    label (plotBefore i) = ("Plot Interactions", "Before Interaction")
    /\ label (plotAfter i) = ("Plot Interactions", "After Interaction").
Proof.
  intro i. unfold plotBefore, plotAfter.
  set (ds := JS.toString (i + 1)).
  split.
  - unfold label, startsWith.
    change (prefix "tab-" ("plot-" ++ ds ++ "-before.png")) with false. cbv iota.
    rewrite (includes_head "plot-" (ds ++ "-before.png")).
    change "-before.png" with ("-before" ++ ".png").
    rewrite <- (append_assoc "plot-" ds).
    now rewrite (includes_within "-before" ".png" ("plot-" ++ ds)).
  - unfold label, startsWith.
    change (prefix "tab-" ("plot-" ++ ds ++ "-after.png")) with false. cbv iota.
    rewrite (includes_head "plot-" (ds ++ "-after.png")).
    assert (H : JS.includes ("plot-" ++ ds ++ "-after.png") "-before" = false);
      [ | now rewrite H ].
    unfold JS.includes.
    change ("plot-" ++ ds ++ "-after.png") with ("plot" ++ String "-" (ds ++ "-after.png")).
    rewrite (absent_prepend "-before" _ "plot" 0 eq_refl eq_refl).
    pose proof (digits_toString (i + 1)) as D. fold ds in D.
    destruct (toString_nonempty (i + 1)) as (d & ds' & E). fold ds in E.
    rewrite indexOfFrom_unfold, E. cbn [append]. rewrite !prefix_cons.
    rewrite E in D. cbn [Format.digits] in D. apply andb_true_iff in D. destruct D as [Dd D].
    rewrite (digit_differs "b" d eq_refl Dd). rewrite andb_false_r. cbn [andb].
    change (String d (ds' ++ "-after.png")) with (String d ds' ++ "-after.png").
    rewrite <- E.
    rewrite (digits_passed "-" "before" "-after.png" eq_refl ds _ (digits_toString (i + 1))).
    now rewrite (absent_anywhere "-before" "-after.png" _ eq_refl).
Qed.

(** X23.  The screenshots of the select inputs, the sliders and the sorted
    tables are filed under no scenario: whatever its number, getScreenshots
    gives each one the scenario Unknown and the type General. *)
Theorem control_shots_are_unknown :
  forall i : nat,
    Forall (fun file => label file = ("Unknown", "General"))
           [selectShot i; sliderShot i; tableShot i; runnerSliderShot i].
Proof.
  intro i.
  assert (U : forall u v : string,
             prefix "tab-" (u ++ JS.toString (i + 1) ++ v) = false ->
             prefix "error-" (u ++ JS.toString (i + 1) ++ v) = false ->
             noOverlap "plot-" u = true -> JS.includes u "plot-" = false ->
             JS.includes v "plot-" = false ->
             noOverlap "responsive-" u = true -> JS.includes u "responsive-" = false ->
             JS.includes v "responsive-" = false ->
             label (u ++ JS.toString (i + 1) ++ v) = ("Unknown", "General")).
  { intros u v T E P1 P2 P3 R1 R2 R3.
    unfold label, startsWith. rewrite T, E.
    rewrite (absent_numbered "p" "lot-" u v (i + 1) eq_refl P1 P2 P3).
    now rewrite (absent_numbered "r" "esponsive-" u v (i + 1) eq_refl R1 R2 R3). }
  apply Forall_cons; [ apply (U "select-input-" ".png"); reflexivity | ].
  apply Forall_cons; [ apply (U "slider-" ".png"); reflexivity | ].
  apply Forall_cons; [ apply (U "table-" "-sorted.png"); reflexivity | ].
  apply Forall_cons; [ apply (U "controls-slider-" ".png"); reflexivity | ].
  apply Forall_nil.
Qed.

End Screenshots.
